(** * pipe2py: the pipe-graph compiler, embedded in Rocq

    A shallow embedding of [pipe2py/lib/utils.py], [pipe2py/compile.py] and
    [pipe2py/modules/pipesplit.py].  Python dictionaries are finite maps
    ([gmap]): their iteration order is the order of [map_to_list], fixed but
    unspecified, as it is for a Python 2 [dict].  Exceptions are the [Raise]
    results of an error monad; constructor calls and the mutable [__name__]
    attribute of function objects live in an explicit interpreter state; the
    records a split stage copies are objects on a heap. *)

From stdpp Require Import gmap strings list fin_maps sorting.
From Stdlib Require Import Ascii ZArith Lia.

Open Scope string_scope.
Open Scope list_scope.
Open Scope nat_scope.
Set Warnings "-register-all".

(** ** Exceptions and results *)

Inductive exn :=
  | IndexError
  | UnicodeError
  | AttributeError
  | TypeError
  | KeyError (key : string)
  | ValueError (msg : string)
  | ImportError (name : string)
  | PyException (msg : string)
  | CyclicGraphError (unresolved : list string).

Inductive result (A : Type) :=
  | Ok (a : A)
  | Raise (e : exn).
Arguments Ok {A} a.
Arguments Raise {A} e.

Definition rbind {A B} (r : result A) (k : A → result B) : result B :=
  match r with
  | Ok a => k a
  | Raise e => Raise e
  end.

Notation "x <- r ;; k" := (rbind r (λ x, k))
  (at level 100, r at next level, k at level 200, right associativity,
   format "'[v' x  <-  r  ;;  '/' k ']'").

(** [for x in l: acc = f(acc, x)] where the body may raise. *)
Fixpoint foldM {A B} (f : B → A → result B) (acc : B) (l : list A) : result B :=
  match l with
  | [] => Ok acc
  | x :: l' => acc' <- f acc x;; foldM f acc' l'
  end.

(** [[f(x) for x in l]] where [f] may raise. *)
Fixpoint mapM {A B} (f : A → result B) (l : list A) : result (list B) :=
  match l with
  | [] => Ok []
  | x :: l' => y <- f x;; ys <- mapM f l';; Ok (y :: ys)
  end.

(** ** JSON values: the pipe definition as [json.loads] returns it *)

Inductive json :=
  | JNull
  | JBool (b : bool)
  | JNum (n : Z)
  | JStr (s : string)
  | JList (l : list json)
  | JDict (items : list (string * json)).

(** [d[k]] on an association list of items. *)
Fixpoint assoc {A} (k : string) (items : list (string * A)) : option A :=
  match items with
  | [] => None
  | (k', v) :: items' => if String.eqb k k' then Some v else assoc k items'
  end.

(** [obj[key]] with a string key: [KeyError] on a dict without the key,
    [TypeError] on anything that is not a dict. *)
Definition getitem (obj : json) (key : string) : result json :=
  match obj with
  | JDict items =>
      match assoc key items with
      | Some v => Ok v
      | None => Raise (KeyError key)
      end
  | _ => Raise TypeError
  end.

(** A method of [unicode] called on the value ([replace], [startswith]):
    [AttributeError] when the value is not a string. *)
Definition as_str (v : json) : result string :=
  match v with
  | JStr s => Ok s
  | _ => Raise AttributeError
  end.

(** [v == s] for a string literal [s]. *)
Definition json_eq_str (v : json) (s : string) : bool :=
  match v with
  | JStr s' => String.eqb s' s
  | _ => false
  end.

(** ** The parsed pipe: the dict that [parse_pipe_def] returns *)

Record pipe := {
  pipe_name : string;
  pipe_modules : gmap string json;
  pipe_embed : gmap string json;
  pipe_graph : gmap string (list string);
  pipe_wires : gmap string json;
}.

(** [d[k]] on a dict. *)
Definition dict_get {A} (d : gmap string A) (k : string) : result A :=
  match d !! k with
  | Some v => Ok v
  | None => Raise (KeyError k)
  end.

(** ** [pipe2py.lib.utils] *)

Module Utils.

(** [s.replace(old, new)]: non-overlapping occurrences, left to right. *)
Fixpoint replace_from (old new : string) (skip : nat) (s : string) : string :=
  match s with
  | EmptyString => EmptyString
  | String c s' =>
      match skip with
      | S k => replace_from old new k s'
      | O =>
          if String.prefix old s
          then new +:+ replace_from old new (String.length old - 1) s'
          else String c (replace_from old new 0 s')
      end
  end.

Fixpoint intersperse_str (new s : string) : string :=
  match s with
  | EmptyString => new
  | String c s' => new +:+ String c (intersperse_str new s')
  end.

Definition str_replace (old new s : string) : string :=
  match old with
  | EmptyString => intersperse_str new s
  | _ => replace_from old new 0 s
  end.

(** [string.digits] *)
Definition digits : string := "0123456789".

(** [c in s] for a one-character [c]. *)
Definition char_in (c : ascii) (s : string) : bool :=
  existsb (Ascii.eqb c) (String.list_ascii_of_string s).

(** [s.encode('ascii')] *)
Definition encode_ascii (s : string) : result string :=
  if forallb (λ c, Nat.ltb (nat_of_ascii c) 128) (String.list_ascii_of_string s)
  then Ok s else Raise UnicodeError.

(** The items of the dict literal [replace] of [pythonise]. *)
Definition replace : list (string * string) :=
  [("-", "_"); (":", "_"); ("/", "_")].

Definition func (id : string) (pair : string * string) : string :=
  str_replace pair.1 pair.2 id.

(** [pythonise] with the items of [replace] taken in the order [items]. *)
Definition pythonise_with (items : list (string * string)) (id : string)
  : result string :=
  let id := foldl func id items in
  first <- match String.get 0 id with
          | Some c => Ok c
          | None => Raise IndexError
          end;;
  let id := if char_in first digits then "_" +:+ id else id in
  encode_ascii id.

Definition pythonise (id : string) : result string :=
  pythonise_with replace id.

(** [pythonise(v)] for a value taken out of the pipe definition. *)
Definition pythonise_json (v : json) : result string :=
  s <- as_str v;; pythonise s.

(** [listize]: a value with [append] or [next] is kept, anything else is
    wrapped in a one-element list.  The values here are those of
    [json.loads]: among them a list has [append], and none has [next]
    (iterators are not values of a pipe definition). *)
Definition listize (item : json) : list json :=
  match item with
  | JList l => l
  | _ => [item]
  end.

(** [for x in v]: a list gives its elements, a dict its keys, a string its
    characters; nothing else is iterable. *)
Definition iterate (v : json) : result (list json) :=
  match v with
  | JList l => Ok l
  | JDict items => Ok (JStr <$> items.*1)
  | JStr s => Ok ((λ c, JStr (String c EmptyString)) <$> String.list_ascii_of_string s)
  | _ => Raise TypeError
  end.

(** Truth value of a JSON value. *)
Definition truthy (v : json) : bool :=
  match v with
  | JNull => false
  | JBool b => b
  | JNum n => negb (Z.eqb n 0)
  | JStr s => negb (String.eqb s "")
  | JList l => negb (bool_decide (l = []))
  | JDict items => match items with [] => false | _ => true end
  end.

(** [dict(pairs)]: a later pair overrides an earlier one with the same key. *)
Definition dict_of {A} (pairs : list (string * A)) : gmap string A :=
  foldl (λ m kv, <[kv.1 := kv.2]> m) ∅ pairs.

(** [try: ... except (KeyError, TypeError): pass] *)
Definition catch_key_type {A} (r : result A) : result (option A) :=
  match r with
  | Ok a => Ok (Some a)
  | Raise (KeyError _) => Ok None
  | Raise TypeError => Ok None
  | Raise e => Raise e
  end.

Definition gen_modules (pipe_def : json) : result (list (string * json)) :=
  ms <- getitem pipe_def "modules";;
  mapM (λ module, i <- getitem module "id";; k <- pythonise_json i;; Ok (k, module))
       (listize ms).

(** [module['conf']['embed']['value']] *)
Definition embed_value (module : json) : result json :=
  conf <- getitem module "conf";; e <- getitem conf "embed";; getitem e "value".

Definition gen_embedded_modules (pipe_def : json)
  : result (list (string * json)) :=
  ms <- getitem pipe_def "modules";;
  yielded <- mapM (λ module,
      ty <- getitem module "type";;
      if json_eq_str ty "loop" then
        embed <- embed_value module;;
        i <- getitem embed "id";; k <- pythonise_json i;;
        Ok [(k, embed)]
      else Ok []) (listize ms);;
  Ok (List.concat yielded).

Definition gen_wires (pipe_def : json) : result (list (string * json)) :=
  ws <- getitem pipe_def "wires";;
  mapM (λ wire, i <- getitem wire "id";; k <- pythonise_json i;; Ok (k, wire))
       (listize ws).

Definition gen_graph1 (pipe_def : json)
  : result (list (string * list string)) :=
  ms <- getitem pipe_def "modules";;
  yielded <- mapM (λ module,
      i <- getitem module "id";; k <- pythonise_json i;;
      ty <- getitem module "type";;
      (* make the loop dependent on its embedded module *)
      if json_eq_str ty "loop" then
        embed <- embed_value module;;
        ei <- getitem embed "id";; ek <- pythonise_json ei;;
        i' <- getitem module "id";; k' <- pythonise_json i';;
        Ok [(k, []); (ek, [k'])]
      else Ok [(k, [])]) (listize ms);;
  Ok (List.concat yielded).

Definition gen_graph2 (pipe_def : json) : result (list (string * string)) :=
  ws <- getitem pipe_def "wires";;
  mapM (λ wire,
      src <- getitem wire "src";; sm <- getitem src "moduleid";;
      src_id <- pythonise_json sm;;
      tgt <- getitem wire "tgt";; tm <- getitem tgt "moduleid";;
      tgt_id <- pythonise_json tm;;
      Ok (src_id, tgt_id)) (listize ws).

(** [value or any(node in v for v in values)] *)
Definition keep_node (values : list (list string)) (node : string)
    (value : list string) : bool :=
  negb (bool_decide (value = []))
  || existsb (λ v, bool_decide (node ∈ v)) values.

(** Remove any orphan nodes. *)
Definition gen_graph3 (graph : gmap string (list string))
  : list (string * list string) :=
  let values := (map_to_list graph).*2 in
  List.filter (λ kv, keep_node values kv.1 kv.2) (map_to_list graph).

Section Builtins.
(** Two builtins of the interpreter that the model leaves open:
    [unicode(x)] on a value that is not a string, and the order in which
    [sorted] puts tuples of JSON values. *)
Variable py_unicode : json → string.
Variable py_sorted : list (list json) → list (list json).

(** ['pipe%s' % x] *)
Definition format_pipe (x : json) : string :=
  "pipe" +:+ match x with JStr s => s | _ => py_unicode x end.

Definition gen_dependencies (pipe_def : json) : result (list string) :=
  ms <- getitem pipe_def "modules";;
  ms <- iterate ms;;
  yielded <- mapM (λ module,
      ty <- getitem module "type";;
      ety <- catch_key_type (v <- embed_value module;; getitem v "type");;
      Ok (format_pipe ty ::
          match ety with Some t => [format_pipe t] | None => [] end)) ms;;
  Ok (List.concat yielded).

Definition gen_input (pipe_def : json) : result (list (list json)) :=
  let fields := ["position"; "name"; "prompt"] in
  ms <- getitem pipe_def "modules";;
  ms <- iterate ms;;
  yielded <- mapM (λ module,
      module_confs <- catch_key_type (mapM (λ x,
          conf <- getitem module "conf";; f <- getitem conf x;;
          getitem f "value") fields);;
      match module_confs with
      | None => Ok []
      | Some module_confs =>
          let values := ["type"; "value"] in
          extra <- mapM (λ x,
              conf <- getitem module "conf";; d <- getitem conf "default";;
              getitem d x) values;;
          Ok [module_confs ++ extra]
      end) ms;;
  Ok (List.concat yielded).

(** [sorted(set(pydeps))] on strings. *)
Definition sorted_set (l : list string) : list string :=
  merge_sort String.le (elements (list_to_set l : gset string)).

(** Extract modules used by a pipe ([pipe_generator] is [None]). *)
Definition extract_dependencies (pipe_def : json) : result (list string) :=
  if truthy pipe_def then
    pydeps <- gen_dependencies pipe_def;; Ok (sorted_set pydeps)
  else Raise (PyException "Must supply at least one kwarg!").

(** Extract inputs required by a pipe ([pipe_generator] is [None]). *)
Definition extract_input (pipe_def : json) : result (list (list json)) :=
  if truthy pipe_def then
    pyinput <- gen_input pipe_def;; Ok (py_sorted pyinput)
  else Raise (PyException "Must supply at least one kwarg!").
End Builtins.

(** One element of the generator [gen_names(module_ids, pipe, ntype)]. *)
Definition gen_name (pipe : pipe) (ntype : string) (module_id : string)
  : result string :=
  module <- dict_get (pipe_modules pipe) module_id;;
  module_type <- getitem module "type";;
  ty <- as_str module_type;;
  if String.prefix "pipe:" ty then pythonise ty
  else if String.eqb ntype "module" then Ok ("pipe" +:+ ty)
  else if String.eqb ntype "pipe" then Ok ("pipe_" +:+ ty)
  else Raise (PyException ("Invalid type: " +:+ ntype
                          +:+ ". (Expected 'module' or 'pipe')")).

(** The generator is lazy: each name is computed when it is asked for. *)
Definition gen_names (module_ids : list string) (pipe : pipe) (ntype : string)
  : list (result string) :=
  gen_name pipe ntype <$> module_ids.

(** [_make_content(i, tag, new)]: [i.get(tag)] is [None] without the key;
    [content.append(new)] puts [new] at the end of the listized content. *)
Definition _make_content (i : gmap string json) (tag : string) (new : json)
  : json :=
  let content := default JNull (i !! tag) in
  if truthy content && truthy new then JList (listize content ++ [new])
  else if truthy new then new
  else content.

(** The two lines of [etree_to_dict] that store one value under [tag]:
    [content = _make_content(i, tag, new)] and then
    [i.update({tag: content}) if content else None]. *)
Definition update_content (i : gmap string json) (tag : string) (new : json)
  : gmap string json :=
  let content := _make_content i tag new in
  if truthy content then <[tag := content]> i else i.

End Utils.

(** ** [pipe2py.lib.topsort] *)

Module Topsort.

(** Modelled from the spec: [pipe2py/lib/topsort.py], which defines
    [topological_sort], is not among the sources.  The spec (4.3) asks for
    a dependency-respecting order, for instance by iterative removal of the
    nodes that no unplaced node points to, ties broken by a fixed order of
    the nodes, and for a [CyclicGraphError] naming the unresolved nodes when
    nodes remain that cannot be placed.  [has_pending_pred] tells whether a
    node still waits for a pending node. *)
Definition has_pending_pred (graph : gmap string (list string))
    (pending : list string) (n : string) : bool :=
  existsb (λ m, match graph !! m with
                | Some succs => bool_decide (n ∈ succs)
                | None => false
                end) pending.

(** Modelled from the spec: a node is ready when all the nodes it depends
    on are placed. *)
Definition ready (graph : gmap string (list string)) (pending : list string)
    (n : string) : bool :=
  negb (has_pending_pred graph pending n).

(** Modelled from the spec: the first ready node, in the order of
    [pending], is placed next; when none is ready the nodes left are the
    unresolved ones.  [fuel] is the number of nodes still to place. *)
Fixpoint place (fuel : nat) (graph : gmap string (list string))
    (placed pending : list string) : result (list string) :=
  match pending with
  | [] => Ok placed
  | _ :: _ =>
      match fuel with
      | O => Raise (CyclicGraphError pending)
      | S fuel' =>
          match List.find (ready graph pending) pending with
          | None => Raise (CyclicGraphError pending)
          | Some n =>
              place fuel' graph (placed ++ [n])
                    (List.filter (λ m, negb (String.eqb m n)) pending)
          end
      end
  end.

(** Modelled from the spec: the order of the nodes of [graph], or
    [CyclicGraphError]. *)
Definition topological_sort (graph : gmap string (list string))
  : result (list string) :=
  let nodes := (map_to_list graph).*1 in
  place (length nodes) graph [] nodes.

End Topsort.

(** ** [pipe2py.compile] *)

Module Compile.
Import Utils.

(** [pipe2py.Context]: the flags the compiler reads. *)
Record Context := {
  verbose : bool;
  test : bool;
  describe_input : bool;
  describe_dependencies : bool;
}.

(** A function object is named by the module it is imported from and the
    attribute it is bound to. *)
Definition funcref : Type := string * string.

(** The Python values the compiler handles.  A stage is an object: it is
    known by its identity. *)
Inductive pyval :=
  | VNone
  | VInt (n : Z)
  | VStr (s : string)
  | VJson (j : json)
  | VContext (c : Context)
  | VId (v : pyval)
  | VFunc (f : funcref)
  | VStage (oid : nat).

Definition pyval_truthy (v : pyval) : bool :=
  match v with
  | VNone => false
  | VInt n => negb (Z.eqb n 0)
  | VStr s => negb (String.eqb s "")
  | VJson j => truthy j
  | _ => true
  end.

(** One call of a stage constructor. *)
Record call := {
  call_result : nat;
  call_func : funcref;
  call_args : list pyval;
  call_kwargs : gmap string pyval;
}.

(** The interpreter state the compiler acts on. *)
Record interp := {
  next_object : nat;
  calls : list call;
  func_name : gmap funcref string;
  importable : gmap string (list string);
}.

Definition M (A : Type) : Type := interp → result A * interp.

Definition ret {A} (a : A) : M A := λ σ, (Ok a, σ).
Definition lift {A} (r : result A) : M A := λ σ, (r, σ).
Definition sbind {A B} (m : M A) (k : A → M B) : M B :=
  λ σ, match m σ with
       | (Ok a, σ') => k a σ'
       | (Raise e, σ') => (Raise e, σ')
       end.

Notation "x <~ m ;; k" := (sbind m (λ x, k))
  (at level 100, m at next level, k at level 200, right associativity,
   format "'[v' x  <~  m  ;;  '/' k ']'").

(** [for x in l: acc = f(acc, x)] in the interpreter. *)
Fixpoint foldS {A B} (f : B → A → M B) (acc : B) (l : list A) : M B :=
  match l with
  | [] => ret acc
  | x :: l' => acc' <~ f acc x;; foldS f acc' l'
  end.

(** [import_module(import_name)] *)
Definition import_module (import_name : string) : M (string * list string) :=
  λ σ, match importable σ !! import_name with
       | Some attrs => (Ok (import_name, attrs), σ)
       | None => (Raise (ImportError import_name), σ)
       end.

(** [getattr(module, name)] *)
Definition getattr (module : string * list string) (name : string)
  : M funcref :=
  λ σ, if bool_decide (name ∈ module.2)
       then (Ok (module.1, name), σ)
       else (Raise AttributeError, σ).

(** [f.__name__ = name] *)
Definition set_name (f : funcref) (name : string) : M unit :=
  λ σ, (Ok tt, {| next_object := next_object σ; calls := calls σ;
                  func_name := <[f := name]> (func_name σ);
                  importable := importable σ |}).

(** The interpreter after one more constructor call. *)
Definition record_call (σ : interp) (f : funcref) (args : list pyval)
    (kwargs : gmap string pyval) : interp :=
  {| next_object := S (next_object σ);
     calls := calls σ ++ [{| call_result := next_object σ; call_func := f;
                             call_args := args; call_kwargs := kwargs |}];
     func_name := func_name σ;
     importable := importable σ |}.

(** The parameters that every stage constructor takes first, in this order:
    [def pipe_x(context, _INPUT, conf, ..., **kwargs)]. *)
Definition positional_parameters : list string :=
  ["context"; "_INPUT"; "conf"].

(** A keyword names a parameter that a positional argument has bound
    already: Python refuses the call (multiple values for the argument). *)
Definition multiple_values (args : list pyval) (kwargs : gmap string pyval)
  : bool :=
  existsb (λ name, bool_decide (is_Some (kwargs !! name)))
          (take (length args) positional_parameters).

(** Calling [f] on unpacked positional and keyword arguments.  Unpacking
    [None] is a [TypeError], and so is a keyword that names a parameter
    bound by position.  Otherwise the call is recorded.  The constructors
    are collaborators: they are generator functions, or return a new
    object of a class, so that what the call returns is a new object; the
    model knows it by its identity and says nothing else about it. *)
Definition call_function (f : funcref) (args : option (list pyval))
    (kwargs : gmap string pyval) : M pyval :=
  λ σ, match args with
       | None => (Raise TypeError, σ)
       | Some args =>
           if multiple_values args kwargs then (Raise TypeError, σ)
           else (Ok (VStage (next_object σ)), record_call σ f args kwargs)
       end.

(** The truth value of the [steps] argument ([None] or a dict). *)
Definition steps_truthy (steps : option (gmap string pyval)) : bool :=
  match steps with
  | Some m => negb (bool_decide (m = ∅))
  | None => false
  end.

(** [steps[key]] *)
Definition steps_get (steps : option (gmap string pyval)) (key : string)
  : result pyval :=
  match steps with
  | Some m => dict_get m key
  | None => Raise TypeError
  end.

(** [pipe_wire[end_]['moduleid']], pythonised. *)
Definition wire_module (pipe_wire : json) (end_ : string) : result string :=
  e <- getitem pipe_wire end_;; m <- getitem e "moduleid";; pythonise_json m.

(** [pipe_wire[end_]['id']] *)
Definition wire_terminal (pipe_wire : json) (end_ : string) : result json :=
  e <- getitem pipe_wire end_;; getitem e "id".

(** [pipe_wire['src']['id'].startswith('_OUTPUT')] *)
Definition src_is_output (pipe_wire : json) : result bool :=
  t <- wire_terminal pipe_wire "src";; s <- as_str t;;
  Ok (String.prefix "_OUTPUT" s).

(** The condition [is_default_in_and_out] of [_get_input_module]. *)
Definition is_default_in_and_out (module_id : string) (pipe_wire : json)
  : result bool :=
  tgt <- wire_module pipe_wire "tgt";;
  if String.eqb tgt module_id then
    t <- wire_terminal pipe_wire "tgt";;
    if json_eq_str t "_INPUT" then src_is_output pipe_wire else Ok false
  else Ok false.

(** The [for ... break] loop of [_get_input_module] over the items of
    [pipe['wires']]. *)
Fixpoint input_module_loop (module_id : string)
    (steps : option (gmap string pyval)) (items : list (string * json))
    (input_module : pyval) : result pyval :=
  match items with
  | [] => Ok input_module
  | (key, pipe_wire) :: items' =>
      moduleid <- wire_module pipe_wire "src";;
      found <- is_default_in_and_out module_id pipe_wire;;
      if found : bool then
        if steps_truthy steps then steps_get steps moduleid
        else Ok (VStr moduleid)
      else input_module_loop module_id steps items' input_module
  end.

Definition _get_input_module (pipe : pipe) (module_id : string)
    (steps : option (gmap string pyval)) : result pyval :=
  input_module <- (if steps_truthy steps then steps_get steps "forever"
                   else Ok (VStr "forever"));;
  if bool_decide (is_Some (pipe_embed pipe !! module_id)) then
    Ok (VStr "_INPUT")
  else
    input_module_loop module_id steps (map_to_list (pipe_wires pipe))
                      input_module.

Definition describe (context : Context) : bool :=
  describe_input context || describe_dependencies context.

(** Returns [None] when [describe and steps]. *)
Definition _get_pyargs (context : Context) (pipe : pipe) (module_id : string)
    (steps : option (gmap string pyval)) : result (option (list pyval)) :=
  if negb (describe context && steps_truthy steps) then
    (* find the default input of this module *)
    input_module <- _get_input_module pipe module_id steps;;
    Ok (Some (if steps_truthy steps then [VContext context; input_module]
              else [VId (VStr "context"); VId input_module]))
  else Ok None.

(** The condition [is_default_out_only] of [_gen_pykwargs]. *)
Definition is_default_out_only (module_id : string) (pipe_wire : json)
  : result bool :=
  tgt <- wire_module pipe_wire "tgt";;
  if String.eqb tgt module_id then
    t <- wire_terminal pipe_wire "tgt";;
    if negb (json_eq_str t "_INPUT") then src_is_output pipe_wire
    else Ok false
  else Ok false.

(** The wire loop of [_gen_pykwargs]: the extra inputs it yields. *)
Fixpoint wire_kwargs (module_id : string)
    (steps : option (gmap string pyval)) (items : list (string * json))
  : result (list (string * pyval)) :=
  match items with
  | [] => Ok []
  | (key, pipe_wire) :: items' =>
      moduleid <- wire_module pipe_wire "src";;
      found <- is_default_out_only module_id pipe_wire;;
      yielded <- (if found : bool then
                    t <- wire_terminal pipe_wire "tgt";;
                    pipe_id <- pythonise_json t;;
                    v <- (if steps_truthy steps then steps_get steps moduleid
                          else Ok (VId (VStr moduleid)));;
                    Ok [(pipe_id, v)]
                  else Ok []);;
      rest <- wire_kwargs module_id steps items';;
      Ok (yielded ++ rest)
  end.

(** [filter_func]: the comparison is computed and dropped; the function
    returns [None]. *)
Definition filter_func (module_id : string) (x : string * json)
  : result pyval :=
  m <- wire_module x.2 "src";;
  let _ := String.eqb module_id m in
  Ok VNone.

(** [filter(f, l)] *)
Fixpoint py_filter {A} (f : A → result pyval) (l : list A)
  : result (list A) :=
  match l with
  | [] => Ok []
  | x :: l' =>
      v <- f x;;
      rest <- py_filter f l';;
      Ok (if pyval_truthy v then x :: rest else rest)
  end.

(** The part of [_gen_pykwargs] for a loop module: the embedded module is
    passed as [embed]. *)
Definition embed_kwargs (module module_type : json)
    (steps : option (gmap string pyval)) : result (list (string * pyval)) :=
  if json_eq_str module_type "loop" then
    conf <- getitem module "conf";;
    e <- getitem conf "embed";;
    value <- getitem e "value";;
    i <- getitem value "id";;
    pipe_id <- pythonise_json i;;
    updated <- (if steps_truthy steps then steps_get steps pipe_id
                else Ok (VId (VStr ("pipe_" +:+ pipe_id))));;
    Ok [("embed", updated)]
  else Ok [].

(** The part of [_gen_pykwargs] for a split module: [splits] is the length
    of the filtered list of wires. *)
Definition splits_kwargs (pipe : pipe) (module_id : string)
    (module_type : json) (steps : option (gmap string pyval))
  : result (list (string * pyval)) :=
  if json_eq_str module_type "split" then
    filtered <- py_filter (filter_func module_id)
                          (map_to_list (pipe_wires pipe));;
    let count := VInt (Z.of_nat (length filtered)) in
    let updated := if steps_truthy steps then count else VId count in
    Ok [("splits", updated)]
  else Ok [].

(** The pairs [_gen_pykwargs] yields, in order. *)
Definition _gen_pykwargs (context : Context) (pipe : pipe) (module_id : string)
    (steps : option (gmap string pyval)) : result (list (string * pyval)) :=
  module <- dict_get (pipe_modules pipe) module_id;;
  conf <- getitem module "conf";;
  if negb (describe context && steps_truthy steps) then
    let wires := pipe_wires pipe in
    module_type <- getitem module "type";;
    (* find the default input of this module *)
    extra <- wire_kwargs module_id steps (map_to_list wires);;
    (* set the embedded module in the pykwargs if this is loop module *)
    embed <- embed_kwargs module module_type steps;;
    (* set splits in the pykwargs if this is split module *)
    splits <- splits_kwargs pipe module_id module_type steps;;
    Ok (("conf", VJson conf) :: extra ++ embed ++ splits)
  else Ok [("conf", VJson conf)].

(** Sub-pipelines are imported from [pipe2py.pypipelines], modules from
    [pipe2py.modules]. *)
Definition import_name (module_name : string) : string :=
  if String.prefix "pipe_" module_name
  then "pipe2py.pypipelines." +:+ module_name
  else "pipe2py.modules." +:+ module_name.

(** The pairs [_gen_steps] yields (there is one). *)
Definition _gen_steps (context : Context) (pipe : pipe)
    (module_id module_name pipe_name : string) (steps : gmap string pyval)
  : M (list (string * pyval)) :=
  module <~ import_module (import_name module_name);;
  pipe_generator <~ getattr module pipe_name;;
  (* if this module is an embedded module: *)
  if bool_decide (is_Some (pipe_embed pipe !! module_id)) then
    _ <~ set_name pipe_generator ("pipe_" +:+ module_id);;
    ret [(module_id, VFunc pipe_generator)]
  else (* else this module is not embedded: *)
    pyargs <~ lift (_get_pyargs context pipe module_id (Some steps));;
    pykwargs <~ lift (_gen_pykwargs context pipe module_id (Some steps));;
    stage <~ call_function pipe_generator pyargs (dict_of pykwargs);;
    ret [(module_id, stage)].

(** [izip(module_ids, module_names, pipe_names)]: the two name generators
    are lazy. *)
Definition _get_zipped (module_ids : list string)
    (module_names pipe_names : list (result string))
  : list (string * result string * result string) :=
  zip (zip module_ids module_names) pipe_names.

Definition pipe_forever : funcref :=
  ("pipe2py.modules.pipeforever", "pipe_forever").

Definition _get_steps (context : Context) (pipe : pipe)
    (zipped : list (string * result string * result string))
  : M (gmap string pyval) :=
  forever <~ call_function pipe_forever (Some []) ∅;;
  foldS (λ steps '(module_id, module_name, pipe_name),
           module_name <~ lift module_name;;
           pipe_name <~ lift pipe_name;;
           yielded <~ _gen_steps context pipe module_id module_name
                                 pipe_name steps;;
           ret (dict_of yielded ∪ steps))
        ({["forever" := forever]} : gmap string pyval) zipped.

(** [[graph[k].append(v) for k, v in edges]] on a [defaultdict(list)]. *)
Definition add_edges (graph : gmap string (list string))
    (edges : list (string * string)) : gmap string (list string) :=
  foldl (λ (g : gmap string (list string)) kv,
           <[kv.1 := default [] (g !! kv.1) ++ [kv.2]]> g) graph edges.

(** Parse pipe JSON into internal structures. *)
Definition parse_pipe_def (pipe_def : json) (pipe_name : string)
  : result pipe :=
  g1 <- gen_graph1 pipe_def;;
  g2 <- gen_graph2 pipe_def;;
  let graph := add_edges (dict_of g1) g2 in
  ms <- gen_modules pipe_def;;
  em <- gen_embedded_modules pipe_def;;
  let embed := dict_of em in
  let modules := embed ∪ dict_of ms in
  name <- pythonise pipe_name;;
  ws <- gen_wires pipe_def;;
  Ok {| pipe_name := name;
        pipe_modules := modules;
        pipe_embed := embed;
        pipe_graph := dict_of (gen_graph3 graph);
        pipe_wires := dict_of ws |}.

(** What iterating the generator [build_pipeline] gives: the items of a
    description, or the items of the last stage. *)
Inductive output :=
  | Both (inputs : list (list json)) (dependencies : list string)
  | Inputs (inputs : list (list json))
  | Dependencies (dependencies : list string)
  | Items (stage : pyval).

Section Builtins.
Variable py_unicode : json → string.
Variable py_sorted : list (list json) → list (list json).

(** Convert a pipe into an executable Python pipeline. *)
Definition build_pipeline (context : Context) (pipe : pipe) (pipe_def : json)
  : M output :=
  module_ids <~ lift (Topsort.topological_sort (pipe_graph pipe));;
  pydeps <~ lift (extract_dependencies py_unicode pipe_def);;
  pyinput <~ lift (extract_input py_sorted pipe_def);;
  steps <~ (if negb (describe context) then
              let zipped :=
                _get_zipped module_ids
                  (gen_names module_ids pipe "module")
                  (gen_names module_ids pipe "pipe") in
              steps <~ _get_steps context pipe zipped;;
              ret (Some steps)
            else ret None);;
  if describe_input context && describe_dependencies context then
    ret (Both pyinput pydeps)
  else if describe_input context then ret (Inputs pyinput)
  else if describe_dependencies context then ret (Dependencies pydeps)
  else
    last_id <~ lift (match last module_ids with
                     | Some i => Ok i
                     | None => Raise IndexError
                     end);;
    stage <~ lift (steps_get steps last_id);;
    ret (Items stage).
End Builtins.

End Compile.

(** ** [pipe2py.modules.pipesplit] *)

Module PipeSplit.

(** Records at run time are objects on a heap: a value is an immutable atom
    or a reference to a dict or a list, which can be changed in place. *)
Inductive value :=
  | Null
  | Bool (b : bool)
  | Num (n : Z)
  | Text (s : string)
  | Ref (l : nat).

Inductive object :=
  | ODict (items : list (string * value))
  | OList (elems : list value).

Abbreviation heap := (list object).

(** The values an object holds. *)
Definition fields (o : object) : list value :=
  match o with
  | ODict items => items.*2
  | OList elems => elems
  end.

(** The same kind of object, with the same keys, holding [vs]. *)
Definition with_fields (o : object) (vs : list value) : object :=
  match o with
  | ODict items => ODict (zip items.*1 vs)
  | OList _ => OList vs
  end.

(** [y = {}] or [y = []] *)
Definition blank (o : object) : object :=
  match o with
  | ODict _ => ODict []
  | OList _ => OList []
  end.

(** [[copy(x) for x in vs]], the heap and the memo threaded through. *)
Fixpoint copy_list
    (copy : gmap nat nat → heap → value → option (gmap nat nat * heap * value))
    (memo : gmap nat nat) (h : heap) (vs : list value)
  : option (gmap nat nat * heap * list value) :=
  match vs with
  | [] => Some (memo, h, [])
  | v :: vs' =>
      match copy memo h v with
      | Some (memo1, h1, v') =>
          match copy_list copy memo1 h1 vs' with
          | Some (memo2, h2, vs'') => Some (memo2, h2, v' :: vs'')
          | None => None
          end
      | None => None
      end
  end.

(** [copy.deepcopy(x, memo)]: an atom is its own copy; an object already in
    the memo is copied to what the memo holds; any other object gets a new
    empty object, which is put in the memo and then filled with the copies
    of the values it holds.  [fuel] bounds the depth of the recursion. *)
Fixpoint deepcopy_memo (fuel : nat) (memo : gmap nat nat) (h : heap)
    (x : value) : option (gmap nat nat * heap * value) :=
  match x with
  | Ref l =>
      match memo !! l with
      | Some l' => Some (memo, h, Ref l')
      | None =>
          match fuel with
          | O => None
          | S fuel' =>
              match h !! l with
              | None => None
              | Some o =>
                  let l' := length h in
                  match copy_list (deepcopy_memo fuel') (<[l := l']> memo)
                                  (h ++ [blank o]) (fields o) with
                  | Some (memo', h', vs) =>
                      Some (memo', <[l' := with_fields o vs]> h', Ref l')
                  | None => None
                  end
              end
          end
      end
  | _ => Some (memo, h, x)
  end.

(** [deepcopy(x)]: a new memo for each call; no chain of objects that are
    not yet in the memo is longer than the heap. *)
Definition deepcopy (h : heap) (x : value) : option (heap * value) :=
  match deepcopy_memo (S (length h)) ∅ h x with
  | Some (_, h', y) => Some (h', y)
  | None => None
  end.

(** One of the iterators [tee] returns: they are told apart by their
    position, and each gives the items of the source, the same objects for
    all of them. *)
Record branch := {
  branch_index : nat;
  remaining : list value;
}.

(** [tee(iterable, n)] *)
Definition tee (iterable : list value) (n : Z) : result (list branch) :=
  if (n <? 0)%Z then Raise (ValueError "n must be >= 0")
  else Ok ((λ i, {| branch_index := i; remaining := iterable |})
           <$> seq 0 (Z.to_nat n)).

(** The [Split] object: [iterators] is a generator, what it has not given
    yet is what is left of it. *)
Record Split := {
  iterators : list branch;
}.

(** [Split.__init__(context, _INPUT, conf, splits=2)] *)
Definition Split_init (_INPUT : list value) (splits : option Z)
  : result Split :=
  its <- tee _INPUT (default 2%Z splits);;
  Ok {| iterators := its |}.

(** [pipe_split(context, _INPUT, conf, splits)] *)
Definition pipe_split (_INPUT : list value) (splits : Z) : result Split :=
  Split_init _INPUT (Some splits).

(** [Split.__iter__]: the next iterator of the generator, or a
    [ValueError] when the generator is exhausted. *)
Definition Split_iter (self : Split) : result branch * Split :=
  match iterators self with
  | it :: rest => (Ok it, {| iterators := rest |})
  | [] =>
      (Raise (ValueError "split has 2 outputs, tried to activate third"),
       self)
  end.

(** [next] on an iterator [imap(deepcopy, iterator)]: [None] is the end of
    the iteration; otherwise the copy of the next item, the heap after the
    copy and the iterator after the item. *)
Definition branch_next (h : heap) (b : branch)
  : option (option (value * heap * branch)) :=
  match remaining b with
  | [] => Some None
  | x :: rest =>
      match deepcopy h x with
      | Some (h', y) =>
          Some (Some (y, h', {| branch_index := branch_index b;
                                remaining := rest |}))
      | None => None
      end
  end.

(** [k] consumers attach, one after the other. *)
Fixpoint attach (k : nat) (self : Split) : list (result branch) * Split :=
  match k with
  | O => ([], self)
  | S k' =>
      let '(r, self') := Split_iter self in
      let '(rs, self'') := attach k' self' in
      (r :: rs, self'')
  end.

End PipeSplit.

(** ** Notions used in the statements about [pythonise] *)

Section PythoniseNotions.
Import Utils.

Fixpoint map_chars (f : ascii → ascii) (s : string) : string :=
  match s with
  | EmptyString => EmptyString
  | String c s' => String (f c) (map_chars f s')
  end.

(** The characters in [olds] become underscores. *)
Definition underscore (olds : list ascii) (c : ascii) : ascii :=
  if bool_decide (c ∈ olds) then "_"%char else c.

Definition replaced : list ascii := ["-"; ":"; "/"]%char.

Definition translate (s : string) : string := map_chars (underscore replaced) s.

Definition starts_with_digit (s : string) : bool :=
  match s with
  | EmptyString => false
  | String c _ => char_in c digits
  end.

(** An id that [pythonise] has nothing to do on apart from the digit
    prefix: none of the replaced characters, no leading underscore. *)
Definition clean (s : string) : bool :=
  forallb (λ c, negb (bool_decide (c ∈ replaced))) (String.list_ascii_of_string s)
  && negb (String.prefix "_" s).

End PythoniseNotions.

(** ** Notions used in the statements about the graph *)

Section GraphNotions.
Import Utils Compile.

(** The dependency graph [parse_pipe_def] builds before it prunes it. *)
Definition dependency_graph (pipe_def : json)
  : result (gmap string (list string)) :=
  g1 <- gen_graph1 pipe_def;;
  g2 <- gen_graph2 pipe_def;;
  Ok (add_edges (dict_of g1) g2).

(** [m] has an edge to [n]. *)
Definition edge (graph : gmap string (list string)) (m n : string) : Prop :=
  ∃ succs, graph !! m = Some succs ∧ n ∈ succs.

(** An orphan: no outgoing edge, no incoming edge. *)
Definition orphan (graph : gmap string (list string)) (node : string) : Prop :=
  graph !! node = Some [] ∧ ∀ m, ¬ edge graph m node.

(** [order] puts the source of every edge before its target. *)
Definition respects (graph : gmap string (list string)) (order : list string)
  : Prop :=
  ∀ i j u v, order !! i = Some u → order !! j = Some v → edge graph u v →
             i < j.

End GraphNotions.

(** ** Notions used in the statements about wiring *)

Section WiringNotions.
Import Utils Compile.

(** A wire whose four ends are strings that normalise: source module and
    terminal, target module and terminal, and the normalised name of the
    target terminal. *)
Record wire_view := {
  wv_src : string;
  wv_src_terminal : string;
  wv_tgt : string;
  wv_tgt_terminal : string;
  wv_key : string;
}.

Definition view_wire (w : json) : result wire_view :=
  src <- wire_module w "src";;
  st <- wire_terminal w "src";;
  st <- as_str st;;
  tgt <- wire_module w "tgt";;
  tt <- wire_terminal w "tgt";;
  tt <- as_str tt;;
  key <- pythonise tt;;
  Ok {| wv_src := src; wv_src_terminal := st; wv_tgt := tgt;
        wv_tgt_terminal := tt; wv_key := key |}.

(** Every wire of the pipe is well formed. *)
Definition wires_viewable (wires : gmap string json) : Prop :=
  ∀ k w, wires !! k = Some w → ∃ v, view_wire w = Ok v.

(** The wire goes from an output to the primary input of [module_id]. *)
Definition default_wire (module_id : string) (v : wire_view) : bool :=
  String.eqb (wv_tgt v) module_id
  && String.eqb (wv_tgt_terminal v) "_INPUT"
  && String.prefix "_OUTPUT" (wv_src_terminal v).

(** The wire goes from an output to another terminal of [module_id]. *)
Definition auxiliary_wire (module_id : string) (v : wire_view) : bool :=
  String.eqb (wv_tgt v) module_id
  && negb (String.eqb (wv_tgt_terminal v) "_INPUT")
  && String.prefix "_OUTPUT" (wv_src_terminal v).

(** The wire leaves [module_id]. *)
Definition outgoing_wire (module_id : string) (v : wire_view) : bool :=
  String.eqb (wv_src v) module_id.

(** The views of the wires of a pipe, in iteration order. *)
Definition wire_views (wires : gmap string json) : list wire_view :=
  omap (λ kw, match view_wire kw.2 with
              | Ok v => Some v
              | Raise _ => None
              end) (map_to_list wires).

(** The number of wires whose source is [module_id]. *)
Definition outgoing_count (wires : gmap string json) (module_id : string)
  : nat :=
  length (List.filter (outgoing_wire module_id) (wire_views wires)).

(** Every auxiliary wire of the module comes from a module that [steps]
    already holds. *)
Definition aux_sources_assembled (p : pipe) (module_id : string)
    (steps : gmap string pyval) : Prop :=
  ∀ k w v, pipe_wires p !! k = Some w → view_wire w = Ok v →
           auxiliary_wire module_id v = true → is_Some (steps !! wv_src v).

(** Every default-input wire of the module comes from a module that
    [steps] already holds. *)
Definition default_sources_assembled (p : pipe) (module_id : string)
    (steps : gmap string pyval) : Prop :=
  ∀ k w v, pipe_wires p !! k = Some w → view_wire w = Ok v →
           default_wire module_id v = true → is_Some (steps !! wv_src v).

(** No auxiliary wire of the module ends at a terminal whose normalised
    name is that of a parameter that the constructor binds by position
    ([context], [_INPUT]). *)
Definition aux_keys_free (p : pipe) (module_id : string) : Prop :=
  ∀ k w v, pipe_wires p !! k = Some w → view_wire w = Ok v →
           auxiliary_wire module_id v = true →
           wv_key v ≠ "context" ∧ wv_key v ≠ "_INPUT".

End WiringNotions.

(** ** Notions used in the statements about describe mode *)

Section DescribeNotions.
Import Utils Compile.
Variable py_unicode : json → string.

(** The type of the embedded module, when there is one. *)
Definition embedded_type (module : json) : result json :=
  v <- embed_value module;; getitem v "type".

(** The names one module contributes. *)
Definition module_dependencies (module : json) : list string :=
  match getitem module "type" with
  | Ok ty =>
      format_pipe py_unicode ty ::
      match embedded_type module with
      | Ok t => [format_pipe py_unicode t]
      | Raise _ => []
      end
  | Raise _ => []
  end.

End DescribeNotions.

(** ** Notions used in the statements about the split stage *)

Section SplitNotions.
Import PipeSplit.

(** The error [Split.__iter__] raises. *)
Definition overactivation : exn :=
  ValueError "split has 2 outputs, tried to activate third".

(** A value refers to an object below [n], or to none. *)
Definition value_ok (n : nat) (v : value) : Prop :=
  match v with
  | Ref l => l < n
  | _ => True
  end.

Definition object_ok (n : nat) (o : object) : Prop :=
  Forall (value_ok n) (fields o).

(** No reference of the heap dangles. *)
Definition heap_wf (h : heap) : Prop := Forall (object_ok (length h)) h.

(** What can be seen of a value down to a depth: the atoms and the keys,
    not the identities of the objects. *)
Inductive tree :=
  | TAtom (v : value)
  | TDict (items : list (string * tree))
  | TList (elems : list tree)
  | TCut
  | TDangling.

Definition tree_of (o : object) (ts : list tree) : tree :=
  match o with
  | ODict items => TDict (zip items.*1 ts)
  | OList _ => TList ts
  end.

Fixpoint snapshot (depth : nat) (h : heap) (v : value) : tree :=
  match v with
  | Ref l =>
      match depth with
      | O => TCut
      | S depth' =>
          match h !! l with
          | Some o => tree_of o (snapshot depth' h <$> fields o)
          | None => TDangling
          end
      end
  | _ => TAtom v
  end.

(** The objects a value gives access to. *)
Inductive reach (h : heap) : value → nat → Prop :=
  | reach_here l : reach h (Ref l) l
  | reach_field l o v l' :
      h !! l = Some o → v ∈ fields o → reach h v l' → reach h (Ref l) l'.

(** The references of the objects of [P] stay in [P]. *)
Definition closed_in (P : nat → Prop) (h : heap) : Prop :=
  ∀ l o, P l → h !! l = Some o →
         Forall (λ v, ∀ l', v = Ref l' → P l') (fields o).

(** [y] in [h'] is a deep copy of [x] in [h]: the objects of [h] are
    still there, unchanged; [y] shows what [x] shows; and [y] and the
    objects made for it only refer to objects made for it. *)
Definition copy_of (h : heap) (x : value) (h' : heap) (y : value) : Prop :=
  length h ≤ length h'
  ∧ (∀ l, l < length h → h' !! l = h !! l)
  ∧ heap_wf h'
  ∧ value_ok (length h') y
  ∧ (∀ depth, snapshot depth h' y = snapshot depth h x)
  ∧ (∀ l', y = Ref l' → length h ≤ l')
  ∧ closed_in (λ l, length h ≤ l < length h') h'.

End SplitNotions.

(** ** The invariants of the copy *)

Section CopyNotions.
Import PipeSplit.
Implicit Types (h : heap) (o : object) (v x y : value) (l : nat).
Implicit Types (vs : list value) (memo : gmap nat nat).

(** The heap the copy starts from. *)
Variable h0 : heap.

(** What the copy of a value is, once the memo is complete. *)
Definition rename memo v : value :=
  match v with
  | Ref x => match memo !! x with Some x' => Ref x' | None => v end
  | _ => v
  end.

(** A value made by the copy: an atom or a new object. *)
Definition new_value (hi : nat) v : Prop :=
  match v with
  | Ref l => length h0 ≤ l < hi
  | _ => True
  end.

(** The references of [v] are in the memo. *)
Definition memoized memo v : Prop := ∀ l, v = Ref l → is_Some (memo !! l).

Record copy_inv memo h : Prop := {
  inv_len : length h0 ≤ length h;
  inv_old : ∀ l, l < length h0 → h !! l = h0 !! l;
  inv_memo : ∀ l l', memo !! l = Some l' →
                     l < length h0 ∧ length h0 ≤ l' < length h;
  inv_new : ∀ l' o, length h0 ≤ l' → h !! l' = Some o →
                    Forall (new_value (length h)) (fields o);
}.

(** The object at [l'] is the finished copy of the object at [l]. *)
Definition copy_filled memo h l l' : Prop :=
  ∃ o, h0 !! l = Some o
       ∧ h !! l' = Some (with_fields o (rename memo <$> fields o))
       ∧ Forall (memoized memo) (fields o).

Record copy_post memo h memo' h' : Prop := {
  post_inv : copy_inv memo' h';
  post_memo : memo ⊆ memo';
  post_len : length h ≤ length h';
  post_untouched : ∀ l', l' < length h → h' !! l' = h !! l';
  post_filled : ∀ l l', memo' !! l = Some l' → memo !! l = None →
                        length h ≤ l' ∧ copy_filled memo' h' l l';
}.

(** What a copy function does, given enough fuel for the objects that are
    not in the memo yet. *)
Definition copies
    (copy : gmap nat nat → heap → value → option (gmap nat nat * heap * value))
    (fuel : nat) : Prop :=
  ∀ memo h x,
    copy_inv memo h → value_ok (length h0) x → length h0 < size memo + fuel →
    ∃ memo' h' y,
      copy memo h x = Some (memo', h', y)
      ∧ copy_post memo h memo' h'
      ∧ memoized memo' x
      ∧ y = rename memo' x.

End CopyNotions.

(** ** Sample records *)

(** Two records, as a feed gives them, the stream of them, and a record
    that holds a list and itself. *)
Definition sample_heap : list PipeSplit.object :=
  [PipeSplit.ODict [("x", PipeSplit.Num 1)];
   PipeSplit.ODict [("x", PipeSplit.Num 2)]].

Definition sample_input : list PipeSplit.value :=
  [PipeSplit.Ref 0; PipeSplit.Ref 1].

Definition sample_branch (i : nat) : PipeSplit.branch :=
  {| PipeSplit.branch_index := i; PipeSplit.remaining := sample_input |}.

Definition knotted_heap : list PipeSplit.object :=
  [PipeSplit.ODict [("tags", PipeSplit.Ref 1); ("self", PipeSplit.Ref 0)];
   PipeSplit.OList [PipeSplit.Text "a"; PipeSplit.Ref 1]].

(** ** Sample pipe definitions *)

Section Samples.

Definition mk_module (id type : string) (conf : json) : json :=
  JDict [("id", JStr id); ("type", JStr type); ("conf", conf)].

Definition mk_wire (id src_module src_id tgt_module tgt_id : string) : json :=
  JDict [("id", JStr id);
         ("src", JDict [("id", JStr src_id); ("moduleid", JStr src_module)]);
         ("tgt", JDict [("id", JStr tgt_id); ("moduleid", JStr tgt_module)])].

Definition mk_pipe_def (modules wires : list json) : json :=
  JDict [("modules", JList modules); ("wires", JList wires)].

(** fetch -> split -> union (twice) -> output, and a module left alone. *)
Definition sample_def : json :=
  mk_pipe_def
    [mk_module "sw-1" "fetch" (JDict []);
     mk_module "sw-2" "split" (JDict []);
     mk_module "sw-3" "output" (JDict []);
     mk_module "sw-4" "union" (JDict []);
     mk_module "alone" "fetch" (JDict [])]
    [mk_wire "_w1" "sw-1" "_OUTPUT" "sw-2" "_INPUT";
     mk_wire "_w2" "sw-2" "_OUTPUT" "sw-4" "_INPUT";
     mk_wire "_w3" "sw-2" "_OUTPUT2" "sw-4" "_OTHER";
     mk_wire "_w4" "sw-4" "_OUTPUT" "sw-3" "_INPUT"].

(** The value of a result that is known to be [Ok]. *)
Definition get_ok {A} (d : A) (r : result A) : A :=
  match r with
  | Ok a => a
  | Raise _ => d
  end.

Definition empty_pipe : pipe :=
  {| pipe_name := ""; pipe_modules := ∅; pipe_embed := ∅; pipe_graph := ∅;
     pipe_wires := ∅ |}.

Definition sample_pipe : pipe :=
  get_ok empty_pipe (Compile.parse_pipe_def sample_def "demo").

Definition sample_graph : gmap string (list string) :=
  get_ok ∅ (dependency_graph sample_def).

(** A split module that nothing is wired from. *)
Definition lonely_split_def : json :=
  mk_pipe_def
    [mk_module "a" "fetch" (JDict []); mk_module "s" "split" (JDict [])]
    [mk_wire "_w1" "a" "_OUTPUT" "s" "_INPUT"].

Definition lonely_split_pipe : pipe :=
  get_ok empty_pipe (Compile.parse_pipe_def lonely_split_def "lonely").

(** The steps assembled before the second module of the samples. *)
Definition steps_after_first (first : string) : gmap string Compile.pyval :=
  <[first := Compile.VStage 1]> {["forever" := Compile.VStage 0]}.

(** The steps assembled before the union module of [sample_def]. *)
Definition steps_before_union : gmap string Compile.pyval :=
  <["sw_2" := Compile.VStage 2]> (steps_after_first "sw_1").

(** A wire to the terminal [-INPUT], whose normalised name is [_INPUT]. *)
Definition clash_def : json :=
  mk_pipe_def
    [mk_module "a" "fetch" (JDict []); mk_module "b" "union" (JDict [])]
    [mk_wire "_w1" "a" "_OUTPUT" "b" "-INPUT"].

Definition clash_pipe : pipe :=
  get_ok empty_pipe (Compile.parse_pipe_def clash_def "clash").

(** A loop over an embedded module, which also has a wire of its own. *)
Definition mk_loop (id : string) (embedded : json) : json :=
  mk_module id "loop" (JDict [("embed", JDict [("value", embedded)])]).

Definition loop_def_with (embedded_conf : json) : json :=
  mk_pipe_def
    [mk_module "src" "fetch" (JDict []);
     mk_loop "lp" (mk_module "emb" "strconcat" embedded_conf);
     mk_module "out" "output" (JDict [])]
    [mk_wire "_w1" "src" "_OUTPUT" "lp" "_INPUT";
     mk_wire "_w2" "lp" "_OUTPUT" "out" "_INPUT";
     mk_wire "_w3" "src" "_OUTPUT" "emb" "extra"].

Definition loop_def : json := loop_def_with (JDict []).

Definition loop_pipe : pipe :=
  get_ok empty_pipe (Compile.parse_pipe_def loop_def "looping").

Definition loop_pipe' : pipe :=
  get_ok empty_pipe
    (Compile.parse_pipe_def
       (loop_def_with (JDict [("part", JStr "x")])) "looping").

(** Two modules wired in a circle. *)
Definition cyclic_def : json :=
  mk_pipe_def
    [mk_module "a" "fetch" (JDict []); mk_module "b" "fetch" (JDict [])]
    [mk_wire "_w1" "a" "_OUTPUT" "b" "_INPUT";
     mk_wire "_w2" "b" "_OUTPUT" "a" "_INPUT"].

Definition cyclic_pipe : pipe :=
  get_ok empty_pipe (Compile.parse_pipe_def cyclic_def "circle").

(** Two wires to the [_INPUT] of [b], from the outputs of [a] and [c]; and
    steps that hold a stage for each of the two. *)
Definition two_sources_def : json :=
  mk_pipe_def
    [mk_module "a" "fetch" (JDict []); mk_module "c" "fetch" (JDict []);
     mk_module "b" "union" (JDict [])]
    [mk_wire "_w1" "a" "_OUTPUT" "b" "_INPUT";
     mk_wire "_w2" "c" "_OUTPUT" "b" "_INPUT"].

Definition two_sources_pipe : pipe :=
  get_ok empty_pipe (Compile.parse_pipe_def two_sources_def "two").

Definition two_sources_steps : gmap string Compile.pyval :=
  <["c" := Compile.VStage 2]>
    (<["a" := Compile.VStage 1]> {["forever" := Compile.VStage 0]}).

(** A module whose id is [forever], wired to a terminal of [b] that is not
    its [_INPUT]. *)
Definition forever_def : json :=
  mk_pipe_def
    [mk_module "forever" "fetch" (JDict []);
     mk_module "b" "output" (JDict [])]
    [mk_wire "_w1" "forever" "_OUTPUT" "b" "_OTHER"].

Definition forever_pipe : pipe :=
  get_ok empty_pipe (Compile.parse_pipe_def forever_def "sentinel").

(** A definition whose [modules] entry is one module, not a list. *)
Definition single_module_def : json :=
  JDict [("modules", mk_module "a" "fetch" (JDict []));
         ("wires", JList [])].

Definition single_module_pipe : pipe :=
  get_ok empty_pipe (Compile.parse_pipe_def single_module_def "single").

Definition run_context : Compile.Context :=
  {| Compile.verbose := false; Compile.test := false;
     Compile.describe_input := false;
     Compile.describe_dependencies := false |}.

Definition test_context : Compile.Context :=
  {| Compile.verbose := false; Compile.test := true;
     Compile.describe_input := false;
     Compile.describe_dependencies := false |}.

Definition dependencies_context : Compile.Context :=
  {| Compile.verbose := false; Compile.test := false;
     Compile.describe_input := false;
     Compile.describe_dependencies := true |}.

Definition describe_both_context : Compile.Context :=
  {| Compile.verbose := false; Compile.test := false;
     Compile.describe_input := true;
     Compile.describe_dependencies := true |}.

(** An interpreter in which the modules of the samples can be imported. *)
Definition sample_interp : Compile.interp :=
  {| Compile.next_object := 0;
     Compile.calls := [];
     Compile.func_name := ∅;
     Compile.importable :=
       list_to_map
         [("pipe2py.modules.pipefetch", ["pipe_fetch"]);
          ("pipe2py.modules.pipesplit", ["pipe_split"]);
          ("pipe2py.modules.pipeoutput", ["pipe_output"]);
          ("pipe2py.modules.pipeunion", ["pipe_union"]);
          ("pipe2py.modules.pipeloop", ["pipe_loop"]);
          ("pipe2py.modules.pipestrconcat", ["pipe_strconcat"])] |}.

(** Stand-ins for the two builtins the model leaves open. *)
Definition sample_unicode (x : json) : string := "".
Definition sample_sorted (l : list (list json)) : list (list json) := l.

End Samples.

(** ** Further notions *)

Section MoreNotions.
Import Utils Compile.

(** A character that [encode('ascii')] accepts. *)
Definition is_ascii (c : ascii) : bool := Nat.ltb (nat_of_ascii c) 128.

Definition all_ascii (s : string) : bool :=
  forallb is_ascii (String.list_ascii_of_string s).

End MoreNotions.

(** The normalised id of a module, as [gen_modules] and [gen_graph1]
    compute it. *)
Definition module_key (module : json) : result string :=
  i <- getitem module "id";; Utils.pythonise_json i.

(** A definition whose two module ids have the same normalised form. *)
Definition colliding_def : json :=
  mk_pipe_def
    [mk_module "a-b" "fetch" (JDict []); mk_module "a_b" "output" (JDict [])]
    [mk_wire "_w1" "a-b" "_OUTPUT" "a_b" "_INPUT"].

Definition colliding_pipe : pipe :=
  get_ok empty_pipe (Compile.parse_pipe_def colliding_def "c").

(** The stage objects among the arguments of a call. *)
Definition stage_argument (c : Compile.call) (oid : nat) : Prop :=
  Compile.VStage oid ∈ Compile.call_args c
  ∨ ∃ k, Compile.call_kwargs c !! k = Some (Compile.VStage oid).

(** The zipped ids and names of the sample pipe, in an order that respects
    its graph. *)
Definition sample_zipped : list (string * result string * result string) :=
  Compile._get_zipped ["sw_1"; "sw_2"; "sw_4"; "sw_3"]
    (Utils.gen_names ["sw_1"; "sw_2"; "sw_4"; "sw_3"] sample_pipe "module")
    (Utils.gen_names ["sw_1"; "sw_2"; "sw_4"; "sw_3"] sample_pipe "pipe").

Definition sample_steps : gmap string Compile.pyval :=
  get_ok ∅ (Compile._get_steps run_context sample_pipe sample_zipped
              sample_interp).1.

Definition sample_interp_after : Compile.interp :=
  (Compile._get_steps run_context sample_pipe sample_zipped sample_interp).2.

(** A value that, when it is a stage object, was made at or after object
    [lo] and before object [hi]. *)
Definition stage_in (lo hi : nat) (v : Compile.pyval) : Prop :=
  ∀ oid, v = Compile.VStage oid → lo ≤ oid < hi.

(** The stage that a name of the generated script stands for. *)
Definition stage_of (steps : gmap string Compile.pyval) (v : Compile.pyval)
  : result Compile.pyval :=
  match v with
  | Compile.VId (Compile.VStr name) => dict_get steps name
  | _ => Raise TypeError
  end.

(** The constructors that [_get_steps] calls for the modules of [zipped]:
    one for each module that is not embedded, in the order of [zipped]. *)
Definition constructors (p : pipe)
    (zipped : list (string * result string * result string))
  : list Compile.funcref :=
  omap (λ z : string * result string * result string,
          match z with
          | (module_id, Ok module_name, Ok pipe_name) =>
              if bool_decide (is_Some (pipe_embed p !! module_id)) then None
              else Some (Compile.import_name module_name, pipe_name)
          | _ => None
          end) zipped.

(** [module['conf'][x]['value']] *)
Definition conf_value (module : json) (x : string) : result json :=
  conf <- getitem module "conf";; f <- getitem conf x;; getitem f "value".

(** [module['conf']['default'][x]] *)
Definition conf_default (module : json) (x : string) : result json :=
  conf <- getitem module "conf";; d <- getitem conf "default";; getitem d x.

(** The tuple that [gen_input] yields for a module that describes an
    input. *)
Definition input_tuple (module : json) (t : list json) : Prop :=
  ∃ position name prompt ty value,
    conf_value module "position" = Ok position
    ∧ conf_value module "name" = Ok name
    ∧ conf_value module "prompt" = Ok prompt
    ∧ conf_default module "type" = Ok ty
    ∧ conf_default module "value" = Ok value
    ∧ t = [position; name; prompt; ty; value].

(** What a dict holds under a tag after the values [seen] were stored
    there one after the other: nothing, the value alone, or the list of
    the values. *)
Definition collected_value (seen : list json) : option json :=
  match seen with
  | [] => None
  | [x] => Some x
  | _ => Some (JList seen)
  end.

(** The truthy values that a sequence of stores puts under [tag]. *)
Definition stored_under (tag : string) (stores : list (string * json))
  : list json :=
  (List.filter (λ s : string * json, String.eqb s.1 tag && Utils.truthy s.2)
               stores).*2.

(** [hasattr(v, 'append')] *)
Definition is_list (v : json) : bool :=
  match v with
  | JList _ => true
  | _ => false
  end.

(** An input module of Yahoo Pipes. *)
Definition mk_input (id : string) (default : list (string * json)) : json :=
  mk_module id "textinput"
    (JDict ([("position", JDict [("value", JNum 1)]);
             ("name", JDict [("value", JStr "q")]);
             ("prompt", JDict [("value", JStr "Query")])] ++ default)).

(** [list(branch)]: the items that a branch gives until it ends, and the
    heap after them.  One unit of [fuel] is used for each call of [next]. *)
Fixpoint drain (fuel : nat) (h : list PipeSplit.object) (b : PipeSplit.branch)
  : option (list PipeSplit.value * list PipeSplit.object) :=
  match fuel with
  | O => None
  | S fuel' =>
      match PipeSplit.branch_next h b with
      | None => None
      | Some None => Some ([], h)
      | Some (Some (y, h', b')) =>
          match drain fuel' h' b' with
          | Some (ys, h'') => Some (y :: ys, h'')
          | None => None
          end
      end
  end.

(** An id that can be normalised: a string that is not empty and has only
    ASCII characters. *)
Definition pythonisable (v : json) : Prop :=
  ∃ s, v = JStr s ∧ s ≠ "" ∧ all_ascii s = true.

(** A module with an id and a type; a loop also has an embedded module with
    an id. *)
Definition module_ok (module : json) : Prop :=
  (∃ i, getitem module "id" = Ok i ∧ pythonisable i)
  ∧ ∃ ty, getitem module "type" = Ok ty
      ∧ (json_eq_str ty "loop" = true →
         ∃ embed i, Utils.embed_value module = Ok embed
                    ∧ getitem embed "id" = Ok i ∧ pythonisable i).

(** An end of a wire that names a module. *)
Definition wire_end_ok (wire : json) (end_ : string) : Prop :=
  ∃ e i, getitem wire end_ = Ok e ∧ getitem e "moduleid" = Ok i
         ∧ pythonisable i.

Definition wire_ok (wire : json) : Prop :=
  (∃ i, getitem wire "id" = Ok i ∧ pythonisable i)
  ∧ wire_end_ok wire "src" ∧ wire_end_ok wire "tgt".

(** A definition that [parse_pipe_def] accepts. *)
Definition definition_ok (pipe_def : json) : Prop :=
  ∃ ms ws,
    getitem pipe_def "modules" = Ok ms ∧ getitem pipe_def "wires" = Ok ws
    ∧ Forall module_ok (Utils.listize ms) ∧ Forall wire_ok (Utils.listize ws).

(** A definition with one input module. *)
Definition sample_input_def : json :=
  mk_pipe_def
    [mk_module "a" "fetch" (JDict []);
     mk_input "in" [("default", JDict [("type", JStr "text");
                                       ("value", JStr "cats")])]]
    [].

(** The zipped ids and names that [build_pipeline] makes for an order. *)
Definition zipped_of (p : pipe) (order : list string)
  : list (string * result string * result string) :=
  Compile._get_zipped order (Utils.gen_names order p "module")
    (Utils.gen_names order p "pipe").

(** A definition whose only module is an input without a default. *)
Definition bare_input_def : json := mk_pipe_def [mk_input "in" []] [].

Definition bare_input_pipe : pipe :=
  get_ok empty_pipe (Compile.parse_pipe_def bare_input_def "bare").

(** Two loops that embed modules of the same type. *)
Definition twin_loops_def : json :=
  mk_pipe_def
    [mk_loop "la" (mk_module "ea" "strconcat" (JDict []));
     mk_loop "lb" (mk_module "eb" "strconcat" (JDict []))]
    [].

Definition twin_loops_pipe : pipe :=
  get_ok empty_pipe (Compile.parse_pipe_def twin_loops_def "twins").

(** The sample pipe after its first module was assembled. *)
Definition first_assembled : list (string * result string * result string) :=
  zipped_of sample_pipe ["sw_1"].

Definition first_steps : gmap string Compile.pyval :=
  get_ok ∅ (Compile._get_steps run_context sample_pipe first_assembled
              sample_interp).1.

Definition first_interp : Compile.interp :=
  (Compile._get_steps run_context sample_pipe first_assembled sample_interp).2.

(** * Verification *)

(** ** Results, dictionaries *)

Section MonadFacts.

Lemma rbind_Ok {A B} (r : result A) (k : A → result B) (b : B) :
  rbind r k = Ok b → ∃ a, r = Ok a ∧ k a = Ok b.
Proof. destruct r; cbn; [eauto|done]. Qed.

Lemma mapM_Ok {A B} (f : A → result B) (l : list A) (ys : list B) :
  mapM f l = Ok ys → Forall2 (λ x y, f x = Ok y) l ys.
Proof.
  revert ys. induction l as [|x l IH]; intros ys; cbn.
  - intros [= <-]. constructor.
  - intros (y & Hy & (ys' & Hys & [= <-])%rbind_Ok)%rbind_Ok.
    constructor; eauto.
Qed.

Lemma dict_of_snoc {A} (l : list (string * A)) (k : string) (v : A) :
  Utils.dict_of (l ++ [(k, v)]) = <[k := v]> (Utils.dict_of l).
Proof. unfold Utils.dict_of. by rewrite foldl_app. Qed.

Lemma dict_of_list_to_map {A} (l : list (string * A)) :
  Utils.dict_of l = list_to_map (reverse l).
Proof.
  induction l as [|[k v] l IH] using rev_ind; [done|].
  by rewrite dict_of_snoc, reverse_snoc, IH.
Qed.

Lemma dict_of_lookup_None {A} (l : list (string * A)) (k : string) :
  Utils.dict_of l !! k = None ↔ k ∉ l.*1.
Proof.
  rewrite dict_of_list_to_map, <-not_elem_of_list_to_map.
  by rewrite fmap_reverse, elem_of_reverse.
Qed.

Lemma dict_of_lookup_Some {A} (l : list (string * A)) (k : string) (v : A) :
  Utils.dict_of l !! k = Some v → (k, v) ∈ l.
Proof.
  rewrite dict_of_list_to_map. intros H.
  apply elem_of_reverse. by apply elem_of_list_to_map_2.
Qed.

Lemma dict_of_lookup_is_Some {A} (l : list (string * A)) (k : string) :
  is_Some (Utils.dict_of l !! k) ↔ k ∈ l.*1.
Proof.
  rewrite <-not_eq_None_Some, dict_of_lookup_None.
  split; [apply dec_stable|]. intros H H'. by apply H'.
Qed.

End MonadFacts.

(** ** [pythonise] *)

Section PythoniseFacts.
Import Utils.

Lemma prefix_empty s : String.prefix "" s = true.
Proof. by destruct s. Qed.

Lemma str_replace_char (a : ascii) (s : string) :
  str_replace (String a "") "_" s = map_chars (underscore [a]) s.
Proof.
  cbn [str_replace]. induction s as [|c s IH]; [done|].
  cbn [replace_from String.prefix map_chars]. unfold underscore at 1.
  destruct (ascii_dec a c) as [->|Hne].
  - rewrite prefix_empty. cbn [String.length Nat.sub].
    rewrite bool_decide_true by set_solver. cbn. by rewrite IH.
  - rewrite bool_decide_false by set_solver. by rewrite IH.
Qed.

Lemma map_chars_ext f g s : (∀ c, f c = g c) → map_chars f s = map_chars g s.
Proof. intros H. induction s; cbn; [done|]. by rewrite H, IHs. Qed.

Lemma map_chars_compose f g s :
  map_chars f (map_chars g s) = map_chars (λ c, f (g c)) s.
Proof. induction s; cbn; [done|]. by rewrite IHs. Qed.

Lemma foldl_func_table (items : list (string * string)) (olds : list ascii) s :
  (∀ p, p ∈ items → p ∈ replace) →
  foldl func (map_chars (underscore olds) s) items
  = map_chars (underscore (olds ++ ((λ p, default "_"%char (String.get 0 p.1)) <$> items))) s.
Proof.
  revert olds. induction items as [|p items IH]; intros olds Hin.
  - cbn. by rewrite app_nil_r.
  - cbn [foldl fmap list_fmap].
    assert (Hp : p ∈ replace) by (apply Hin; left).
    assert (Hex : ∃ a, p = (String a "", "_") ∧ a ≠ "_"%char).
    { apply list_elem_of_In in Hp. cbn in Hp.
      destruct Hp as [<- | [<- | [<- | [] ] ] ]; eexists; split; try done. }
    destruct Hex as [a [-> Ha]].
    unfold func at 2. cbn [fst snd].
    rewrite str_replace_char, map_chars_compose.
    rewrite (map_chars_ext _ (underscore (olds ++ [a]))).
    + rewrite IH by (intros; apply Hin; by right).
      cbn. by rewrite <-app_assoc.
    + intros c. unfold underscore.
      repeat case_bool_decide; set_solver.
Qed.

Lemma map_chars_id s : map_chars (underscore []) s = s.
Proof.
  induction s; cbn; [done|]. rewrite IHs. unfold underscore.
  by rewrite bool_decide_false by set_solver.
Qed.

Lemma foldl_func_translate (items : list (string * string)) s :
  items ≡ₚ replace → foldl func s items = translate s.
Proof.
  intros Hp. rewrite <-(map_chars_id s) at 1.
  rewrite foldl_func_table by (intros p; by rewrite Hp).
  apply map_chars_ext. intros c. unfold underscore, translate.
  cut (c ∈ [] ++ ((λ p, default "_"%char (String.get 0 p.1)) <$> items)
       ↔ c ∈ replaced).
  { intros Hiff. repeat case_bool_decide; naive_solver. }
  cbn [app]. rewrite list_elem_of_fmap.
  unfold replaced. split.
  - intros [p [-> Hin] ]. rewrite Hp in Hin.
    apply list_elem_of_In in Hin. cbn in Hin.
    destruct Hin as [<- | [<- | [<- | [] ] ] ]; cbn; set_solver.
  - intros Hin. apply list_elem_of_In in Hin. cbn in Hin.
    destruct Hin as [<- | [<- | [<- | [] ] ] ].
    + exists ("-", "_"). split; [done|]. rewrite Hp. set_solver.
    + exists (":", "_"). split; [done|]. rewrite Hp. set_solver.
    + exists ("/", "_"). split; [done|]. rewrite Hp. set_solver.
Qed.

Lemma char_in_underscore c :
  char_in (underscore replaced c) digits = char_in c digits.
Proof.
  unfold underscore. case_bool_decide as Hc; [|done].
  apply list_elem_of_In in Hc. cbn in Hc.
  destruct Hc as [<- | [<- | [<- | [] ] ] ]; reflexivity.
Qed.

Lemma pythonise_with_unfold (items : list (string * string)) (id : string) :
  items ≡ₚ replace →
  pythonise_with items id =
    match id with
    | EmptyString => Raise IndexError
    | String _ _ =>
        encode_ascii ((if starts_with_digit id then "_" else "") +:+ translate id)
    end.
Proof.
  intros Hp. unfold pythonise_with. rewrite (foldl_func_translate _ _ Hp).
  destruct id as [|c id]; [done|].
  cbn [translate map_chars String.get rbind starts_with_digit].
  rewrite char_in_underscore. by destruct (char_in c digits).
Qed.

Lemma pythonise_unfold (id : string) :
  pythonise id =
    match id with
    | EmptyString => Raise IndexError
    | String _ _ =>
        encode_ascii ((if starts_with_digit id then "_" else "") +:+ translate id)
    end.
Proof. by apply pythonise_with_unfold. Qed.

Lemma encode_ascii_Ok s r : encode_ascii s = Ok r → r = s.
Proof. unfold encode_ascii. case_match; congruence. Qed.

Lemma pythonise_Ok id r :
  pythonise id = Ok r →
  r = (if starts_with_digit id then "_" else "") +:+ translate id.
Proof.
  rewrite pythonise_unfold. destruct id; [done|]. apply encode_ascii_Ok.
Qed.

Lemma clean_translate s :
  forallb (λ c, negb (bool_decide (c ∈ replaced))) (String.list_ascii_of_string s) = true →
  translate s = s.
Proof.
  induction s as [|c s IH]; [done|]. cbn [String.list_ascii_of_string forallb].
  intros [Hc Hs]%andb_prop. cbn [translate map_chars].
  fold (translate s). rewrite (IH Hs). unfold underscore.
  by destruct (bool_decide (c ∈ replaced)).
Qed.

Lemma prefix_underscore s : String.prefix "_" (String "_" s) = true.
Proof.
  cbn [String.prefix]. destruct (ascii_dec "_" "_"); [apply prefix_empty|done].
Qed.

Lemma pythonise_clean_inj (a b ra rb : string) :
  pythonise a = Ok ra → pythonise b = Ok rb →
  clean a = true → clean b = true → ra = rb → a = b.
Proof.
  intros Ha%pythonise_Ok Hb%pythonise_Ok [Hca Hua]%andb_prop [Hcb Hub]%andb_prop Heq.
  rewrite (clean_translate _ Hca) in Ha. rewrite (clean_translate _ Hcb) in Hb.
  subst ra rb.
  destruct (starts_with_digit a), (starts_with_digit b);
    change ("" +:+ a) with a in Heq; change ("" +:+ b) with b in Heq;
    change ("_" +:+ a) with (String "_" a) in Heq;
    change ("_" +:+ b) with (String "_" b) in Heq.
  - by injection Heq.
  - rewrite <-Heq in Hub. by rewrite prefix_underscore in Hub.
  - rewrite Heq in Hua. by rewrite prefix_underscore in Hua.
  - done.
Qed.

(** C10 (as amended).  The normalisation of an id does not depend on the
    order in which the replacement table is enumerated; an id that begins
    with a digit gets the fixed prefix ["_"] before its translation, any other
    id is its translation; and two ids without ["-"], [":"], ["/"] and
    without a leading underscore that normalise to the same id are equal. *)
Theorem pythonise_normal_form (items : list (string * string))
    (a b ra rb : string) :
  items ≡ₚ replace →
  pythonise a = Ok ra →
  pythonise b = Ok rb →
  pythonise_with items a = Ok ra
  ∧ (starts_with_digit a = true → ra = "_" +:+ translate a)
  ∧ (starts_with_digit a = false → ra = translate a)
  ∧ (clean a = true → clean b = true → ra = rb → a = b).
Proof.
  intros Hp Ha Hb. split_and!.
  - rewrite <-Ha. unfold pythonise.
    by rewrite !pythonise_with_unfold.
  - intros Hd. apply pythonise_Ok in Ha. by rewrite Hd in Ha.
  - intros Hd. apply pythonise_Ok in Ha. by rewrite Hd in Ha.
  - by apply pythonise_clean_inj.
Qed.

Lemma pythonise_normal_form_witness :
  pythonise_with [(":", "_"); ("/", "_"); ("-", "_")] "2de0/x" = Ok "_2de0_x"
  ∧ (clean "2de0/x" = true → clean "sw-1" = true → "_2de0_x" = "sw_1" →
     "2de0/x" = "sw-1").
Proof.
  assert (Hp : [(":", "_"); ("/", "_"); ("-", "_")] ≡ₚ replace).
  { unfold replace.
    etrans; [apply perm_skip, perm_swap|apply perm_swap]. }
  destruct (pythonise_normal_form _ "2de0/x" "sw-1" "_2de0_x" "sw_1" Hp
              eq_refl eq_refl) as (H1 & _ & _ & H4).
  split; assumption.
Defined.

(** C10, as stated, fails: two distinct ids with the same normalisation. *)
Lemma pythonise_not_injective :
  ¬ (∀ a b ra rb : string,
       pythonise a = Ok ra → pythonise b = Ok rb → a ≠ b → ra ≠ rb).
Proof.
  intros H. by apply (H "a-b" "a_b" "a_b" "a_b").
Qed.

Example pythonise_collision_digit :
  pythonise "1a" = Ok "_1a" ∧ pythonise "_1a" = Ok "_1a".
Proof. done. Qed.

End PythoniseFacts.


(** ** Orphan pruning *)

Section GraphFacts.
Import Utils Compile.

Lemma dict_of_lookup_Some_2 {A} (l : list (string * A)) (k : string) (v : A) :
  NoDup l.*1 → (k, v) ∈ l → dict_of l !! k = Some v.
Proof.
  intros Hnd Hin. rewrite dict_of_list_to_map.
  apply elem_of_list_to_map_1.
  - by rewrite fmap_reverse, reverse_Permutation.
  - by apply elem_of_reverse.
Qed.

Lemma add_edges_snoc (graph : gmap string (list string)) edges k v :
  add_edges graph (edges ++ [(k, v)])
  = <[k := default [] (add_edges graph edges !! k) ++ [v]]>
      (add_edges graph edges).
Proof. unfold add_edges. by rewrite foldl_app. Qed.

(** A node that [add_edges] leaves with an empty list had one before. *)
Lemma add_edges_lookup_nil (graph : gmap string (list string)) edges k :
  add_edges graph edges !! k = Some [] → graph !! k = Some [].
Proof.
  induction edges as [|[k' v] edges IH] using rev_ind; [done|].
  rewrite add_edges_snoc. destruct (decide (k' = k)) as [->|Hne].
  - rewrite lookup_insert_eq. intros [= H]. by destruct (default _ _).
  - by rewrite lookup_insert_ne.
Qed.

Lemma gen_graph3_elem (graph : gmap string (list string)) node value :
  (node, value) ∈ gen_graph3 graph ↔
  graph !! node = Some value
  ∧ keep_node (map_to_list graph).*2 node value = true.
Proof.
  unfold gen_graph3. rewrite list_elem_of_In, filter_In, <-list_elem_of_In.
  rewrite elem_of_map_to_list. done.
Qed.

Lemma NoDup_fst_filter {A} (f : string * A → bool) (l : list (string * A)) :
  NoDup l.*1 → NoDup (List.filter f l).*1.
Proof.
  induction l as [|[k v] l IH]; [done|]. cbn [fmap list_fmap List.filter].
  intros [Hk Hnd]%NoDup_cons.
  destruct (f (k, v)); [|by apply IH].
  cbn. apply NoDup_cons. split; [|by apply IH].
  intros ([k' v'] & -> & Hin%list_elem_of_In%filter_In)%list_elem_of_fmap.
  destruct Hin as [Hin%list_elem_of_In _]. apply Hk.
  apply list_elem_of_fmap. by exists (k', v').
Qed.

Lemma gen_graph3_NoDup (graph : gmap string (list string)) : NoDup (gen_graph3 graph).*1.
Proof. apply NoDup_fst_filter, NoDup_fst_map_to_list. Qed.

Lemma keep_node_true (graph : gmap string (list string)) node value :
  keep_node (map_to_list graph).*2 node value = true ↔
  value ≠ [] ∨ ∃ m succs, graph !! m = Some succs ∧ node ∈ succs.
Proof.
  unfold keep_node. rewrite orb_true_iff, negb_true_iff, bool_decide_eq_false.
  rewrite existsb_exists. split; (intros [H|H]; [by left|right]).
  - destruct H as (succs & Hin & Hn%bool_decide_eq_true).
    apply list_elem_of_In, list_elem_of_fmap in Hin as ([m s] & -> & Hin).
    apply elem_of_map_to_list in Hin. eauto.
  - destruct H as (m & succs & Hm & Hn). exists succs. split.
    + apply list_elem_of_In, list_elem_of_fmap. exists (m, succs).
      split; [done|]. by apply elem_of_map_to_list.
    + by apply bool_decide_eq_true.
Qed.

(** The pruned graph: orphans are gone, every other node keeps its list. *)
Lemma pruned_lookup (graph : gmap string (list string)) node :
  dict_of (gen_graph3 graph) !! node =
    match graph !! node with
    | Some value =>
        if keep_node (map_to_list graph).*2 node value then Some value
        else None
    | None => None
    end.
Proof.
  destruct (graph !! node) as [value|] eqn:Hg.
  - destruct (keep_node _ _ _) eqn:Hk.
    + apply dict_of_lookup_Some_2; [apply gen_graph3_NoDup|].
      by apply gen_graph3_elem.
    + apply dict_of_lookup_None.
      intros ([k v] & -> & [Hg' Hk']%gen_graph3_elem)%list_elem_of_fmap.
      cbn in *. congruence.
  - apply dict_of_lookup_None.
    intros ([k v] & -> & [Hg' Hk']%gen_graph3_elem)%list_elem_of_fmap.
    cbn in *. congruence.
Qed.

Lemma Forall2_concat_elem {A B} (P : A → list B → Prop) (xs : list A)
    (ys : list (list B)) (b : B) :
  Forall2 P xs ys → b ∈ List.concat ys →
  ∃ i x y, xs !! i = Some x ∧ ys !! i = Some y ∧ P x y ∧ b ∈ y.
Proof.
  intros HF Hb. apply list_elem_of_In, in_concat in Hb as (y & Hy & Hb).
  apply list_elem_of_In, list_elem_of_lookup in Hy as [i Hi].
  destruct (Forall2_lookup_r _ _ _ _ _ HF Hi) as (x & Hx & HP).
  exists i, x, y. split_and!; try done. by apply list_elem_of_In.
Qed.

(** A node that [gen_graph1] yields with an empty list is the id of a
    module, so [gen_modules] yields it too. *)
Lemma gen_graph1_nil_module pipe_def g1 ms k :
  gen_graph1 pipe_def = Ok g1 → gen_modules pipe_def = Ok ms →
  (k, []) ∈ g1 → k ∈ ms.*1.
Proof.
  unfold gen_graph1, gen_modules.
  intros (mods & Hm & (ys & Hys & [= <-])%rbind_Ok)%rbind_Ok.
  rewrite Hm. cbn [rbind]. intros Hms%mapM_Ok Hk. apply mapM_Ok in Hys.
  destruct (Forall2_concat_elem _ _ _ _ Hys Hk) as (i & x & y & Hx & _ & Hy & Hin).
  destruct (Forall2_lookup_l _ _ _ _ _ Hms Hx) as ([k' m'] & Hkv & Hbody).
  apply rbind_Ok in Hbody as (j & Hj & (k'' & Hk'' & [= <- <-])%rbind_Ok).
  rewrite Hj in Hy. cbn [rbind] in Hy. rewrite Hk'' in Hy. cbn [rbind] in Hy.
  apply rbind_Ok in Hy as (ty & Hty & Hy).
  assert (k = k'') as ->.
  { destruct (json_eq_str ty "loop").
    - apply rbind_Ok in Hy as (e & _ & (ei & _ & (ek & _ & Hy)%rbind_Ok)%rbind_Ok).
      injection Hy as <-.
      apply list_elem_of_In in Hin. cbn in Hin.
      destruct Hin as [ [= <-] | [ [= _ ?] | [] ] ]; done.
    - injection Hy as <-. apply list_elem_of_In in Hin. cbn in Hin.
      destruct Hin as [ [= <-] | [] ]. done. }
  apply list_elem_of_fmap. exists (k'', x). split; [done|].
  apply list_elem_of_lookup. eauto.
Qed.

Lemma place_subset fuel (graph : gmap string (list string)) placed pending order :
  Topsort.place fuel graph placed pending = Ok order →
  ∀ x, x ∈ order → x ∈ placed ∨ x ∈ pending.
Proof.
  revert placed pending. induction fuel as [|fuel IH]; intros placed pending.
  - destruct pending; cbn; [|done]. intros [= <-]. eauto.
  - destruct pending as [|p pending]; cbn [Topsort.place].
    { intros [= <-]. eauto. }
    destruct (List.find _ _) as [n|] eqn:Hfind; [|done].
    intros Hplace x Hx. destruct (IH _ _ Hplace x Hx) as [Hin|Hin].
    + apply elem_of_app in Hin as [Hin|Hin]; [by left|].
      apply list_elem_of_singleton in Hin as ->. right.
      apply find_some in Hfind as [Hfind _]. by apply list_elem_of_In.
    + right. apply list_elem_of_In, filter_In in Hin as [Hin _].
      by apply list_elem_of_In.
Qed.

Lemma topological_sort_nodes (graph : gmap string (list string)) order x :
  Topsort.topological_sort graph = Ok order → x ∈ order →
  is_Some (graph !! x).
Proof.
  unfold Topsort.topological_sort. intros Hsort Hx.
  destruct (place_subset _ _ _ _ _ Hsort x Hx) as [Hin|Hin].
  - by apply elem_of_nil in Hin.
  - apply list_elem_of_fmap in Hin as ([k v] & -> & Hin).
    apply elem_of_map_to_list in Hin. eauto.
Qed.

(** C8.  A node of the dependency graph with an empty adjacency list that
    is in no node's adjacency list is not a node of the pruned graph of the
    parsed pipe, hence in no execution order, and it is still a key of the
    pipe's module map. *)
Theorem orphan_pruned_but_known (pipe_def : json) (name : string) (p : pipe)
    (graph : gmap string (list string)) (node : string) :
  parse_pipe_def pipe_def name = Ok p →
  dependency_graph pipe_def = Ok graph →
  orphan graph node →
  pipe_graph p !! node = None
  ∧ (∀ order, Topsort.topological_sort (pipe_graph p) = Ok order →
              node ∉ order)
  ∧ is_Some (pipe_modules p !! node).
Proof.
  unfold parse_pipe_def, dependency_graph.
  intros Hparse Hgraph [Hnil Hno].
  apply rbind_Ok in Hgraph as (g1 & Hg1 & (g2 & Hg2 & [= <-])%rbind_Ok).
  rewrite Hg1, Hg2 in Hparse. cbn [rbind] in Hparse.
  apply rbind_Ok in Hparse as (ms & Hms & (em & Hem & (nm & Hnm &
    (ws & Hws & [= <-])%rbind_Ok)%rbind_Ok)%rbind_Ok).
  cbn [pipe_graph pipe_modules].
  assert (Hpruned : dict_of (gen_graph3 (add_edges (dict_of g1) g2)) !! node
                    = None).
  { rewrite pruned_lookup, Hnil.
    destruct (keep_node _ _ _) eqn:Hk; [|done].
    apply keep_node_true in Hk as [?|(m & succs & Hm & Hin)]; [done|].
    destruct (Hno m). by exists succs. }
  split_and!.
  - done.
  - intros order Hsort Hin.
    destruct (topological_sort_nodes _ _ _ Hsort Hin) as [v Hv]. congruence.
  - apply add_edges_lookup_nil, dict_of_lookup_Some in Hnil.
    pose proof (gen_graph1_nil_module _ _ _ _ Hg1 Hms Hnil) as Hin.
    apply dict_of_lookup_is_Some in Hin as [v Hv].
    rewrite lookup_union. rewrite Hv.
    destruct (dict_of em !! node); eauto.
Qed.

Lemma orphan_iff (graph : gmap string (list string)) (node : string) :
  orphan graph node ↔
  graph !! node = Some []
  ∧ keep_node (map_to_list graph).*2 node [] = false.
Proof.
  unfold orphan, edge. split; intros [Hnil H]; (split; [done|]).
  - apply not_true_is_false. intros [?|(m & succs & ?)]%keep_node_true; [done|].
    apply (H m). eauto.
  - intros m (succs & Hm & Hin).
    assert (keep_node (map_to_list graph).*2 node [] = true); [|congruence].
    apply keep_node_true. eauto.
Qed.

Lemma orphan_pruned_but_known_witness :
  parse_pipe_def sample_def "demo" = Ok sample_pipe
  ∧ dependency_graph sample_def = Ok sample_graph
  ∧ orphan sample_graph "alone"
  ∧ pipe_graph sample_pipe !! "alone" = None
  ∧ is_Some (pipe_modules sample_pipe !! "alone").
Proof.
  assert (Hp : parse_pipe_def sample_def "demo" = Ok sample_pipe)
    by (vm_compute; reflexivity).
  assert (Hg : dependency_graph sample_def = Ok sample_graph)
    by (vm_compute; reflexivity).
  assert (Ho : orphan sample_graph "alone").
  { apply orphan_iff. split; vm_compute; reflexivity. }
  destruct (orphan_pruned_but_known _ _ _ _ _ Hp Hg Ho) as (H1 & _ & H3).
  split_and!; assumption.
Defined.

End GraphFacts.

(** ** The topological sorter *)

Section TopsortFacts.
Import Utils Compile Topsort.
Implicit Types (graph : gmap string (list string)) (n m : string).
Implicit Types (placed pending order : list string) (fuel : nat).

Lemma has_pending_pred_true graph pending n :
  has_pending_pred graph pending n = true ↔ ∃ m, m ∈ pending ∧ edge graph m n.
Proof.
  unfold has_pending_pred, edge. rewrite existsb_exists. split.
  - intros (m & Hin%list_elem_of_In & Hm).
    destruct (graph !! m) as [succs|] eqn:Hg; [|done].
    apply bool_decide_eq_true in Hm. eauto.
  - intros (m & Hin & succs & Hg & Hn). exists m.
    split; [by apply list_elem_of_In|]. rewrite Hg.
    by apply bool_decide_eq_true.
Qed.

Lemma ready_true graph pending n :
  ready graph pending n = true ↔ ∀ m, m ∈ pending → ¬ edge graph m n.
Proof.
  unfold ready. rewrite negb_true_iff, <-not_true_iff_false.
  rewrite has_pending_pred_true. naive_solver.
Qed.

Lemma elem_of_remove pending n x :
  x ∈ List.filter (λ m, negb (String.eqb m n)) pending ↔ x ∈ pending ∧ x ≠ n.
Proof.
  rewrite list_elem_of_In, filter_In, <-list_elem_of_In.
  rewrite negb_true_iff, String.eqb_neq. done.
Qed.

Lemma length_remove pending n :
  n ∈ pending →
  length (List.filter (λ m, negb (String.eqb m n)) pending) < length pending.
Proof.
  induction pending as [|p pending IH]; [by intros ?%elem_of_nil|].
  cbn [List.filter]. destruct (String.eqb_spec p n) as [->|Hne]; cbn.
  - intros _. pose proof (filter_length_le (λ m, negb (String.eqb m n)) pending).
    lia.
  - intros [?|Hin]%elem_of_cons; [congruence|]. specialize (IH Hin). lia.
Qed.

Lemma tc_inv_r {A} (R : relation A) x z : tc R x z → ∃ y, rtc R x y ∧ R y z.
Proof.
  induction 1 as [x z HR|x y z HR _ (y' & Hrtc & HR')].
  - exists x. split; [constructor|done].
  - exists y'. split; [by eapply rtc_l|done].
Qed.

(** The nodes on a cycle through [n] all have a predecessor on it. *)
Lemma cycle_closed graph n x :
  tc (edge graph) n n →
  tc (edge graph) n x ∧ rtc (edge graph) x n →
  ∃ m, (tc (edge graph) n m ∧ rtc (edge graph) m n) ∧ edge graph m x.
Proof.
  intros Hcycle [(p & Hnp & Hpx)%tc_inv_r Hxn]. exists p. split; [split|done].
  - apply rtc_tc in Hnp as [<-|Hnp]; done.
  - by eapply rtc_l.
Qed.

Lemma place_nil fuel graph placed : place fuel graph placed [] = Ok placed.
Proof. by destruct fuel. Qed.

Lemma place_O graph placed pending :
  pending ≠ [] →
  place 0 graph placed pending = Raise (CyclicGraphError pending).
Proof. by destruct pending. Qed.

Lemma place_S fuel graph placed pending :
  pending ≠ [] →
  place (S fuel) graph placed pending =
    match List.find (ready graph pending) pending with
    | None => Raise (CyclicGraphError pending)
    | Some n =>
        place fuel graph (placed ++ [n])
              (List.filter (λ m, negb (String.eqb m n)) pending)
    end.
Proof. by destruct pending. Qed.

(** A set of pending nodes that is closed under predecessors is never
    placed: the sorter fails and names all of it. *)
Lemma place_closed_set fuel graph placed pending (S : string → Prop) :
  (∀ x, S x → ∃ m, S m ∧ edge graph m x) →
  (∀ x, S x → x ∈ pending) →
  (∃ x, S x) →
  ∃ unresolved,
    place fuel graph placed pending = Raise (CyclicGraphError unresolved)
    ∧ ∀ x, S x → x ∈ unresolved.
Proof.
  intros Hclosed. revert placed pending.
  induction fuel as [|fuel IH]; intros placed pending Hpending [x0 Hx0].
  - exists pending. split; [|done]. apply place_O.
    intros ->. by apply Hpending, elem_of_nil in Hx0.
  - rewrite place_S by (intros ->; by apply Hpending, elem_of_nil in Hx0).
    destruct (List.find _ _) as [n0|] eqn:Hfind; [|by eexists].
    apply find_some in Hfind as [Hin Hready].
    apply IH; [|by exists x0].
    intros x Hx. apply elem_of_remove. split; [by apply Hpending|].
    intros ->. destruct (Hclosed _ Hx) as (m & Hm & Hedge).
    by eapply ready_true in Hready; [|apply Hpending, Hm].
Qed.

(** The sorter fails exactly when it is stuck: every node it names has a
    predecessor among the nodes it names. *)
Lemma place_Raise fuel graph placed pending e :
  (length pending ≤ fuel)%nat →
  place fuel graph placed pending = Raise e →
  ∃ unresolved, e = CyclicGraphError unresolved ∧ unresolved ≠ []
    ∧ (∀ x, x ∈ unresolved → x ∈ pending)
    ∧ ∀ x, x ∈ unresolved → ∃ m, m ∈ unresolved ∧ edge graph m x.
Proof.
  revert placed pending. induction fuel as [|fuel IH]; intros placed pending.
  - destruct pending; cbn; [done|lia].
  - destruct (decide (pending = [])) as [->|Hne]; [done|].
    intros Hlen. rewrite place_S by done.
    destruct (List.find _ _) as [n0|] eqn:Hfind.
    + apply find_some in Hfind as [Hin%list_elem_of_In Hready]. intros Hplace.
      apply IH in Hplace as (U & -> & HneU & Hsub & HU).
      * exists U. split_and!; try done.
        intros x Hx. by eapply elem_of_remove, Hsub.
      * pose proof (length_remove _ _ Hin). lia.
    + intros [= <-]. exists pending. split_and!; try done.
      intros x Hx%list_elem_of_In.
      pose proof (find_none _ _ Hfind x Hx) as Hnr.
      unfold ready in Hnr. apply negb_false_iff in Hnr.
      by apply has_pending_pred_true in Hnr.
Qed.

(** An order the sorter returns lists the pending nodes after the placed
    ones and respects the edges. *)
Lemma place_Ok fuel graph placed pending order :
  respects graph placed →
  (∀ u v, edge graph u v → v ∈ placed → u ∉ pending) →
  place fuel graph placed pending = Ok order →
  respects graph order ∧ ∀ x, x ∈ placed ∨ x ∈ pending → x ∈ order.
Proof.
  revert placed pending. induction fuel as [|fuel IH]; intros placed pending.
  - destruct pending; cbn; [|done]. intros ?? [= <-]. split; [done|].
    intros x [?|?%elem_of_nil]; done.
  - destruct (decide (pending = [])) as [->|Hne].
    { cbn. intros ?? [= <-]. split; [done|].
      intros x [?|?%elem_of_nil]; done. }
    intros Hresp Hpred. rewrite place_S by done.
    destruct (List.find _ _) as [n0|] eqn:Hfind; [|done].
    apply find_some in Hfind as [Hin%list_elem_of_In Hready].
    pose proof (proj1 (ready_true _ _ _) Hready) as Hnopred.
    intros Hplace. apply IH in Hplace as [Hro Hall].
    + split; [done|]. intros x [Hx|Hx].
      * apply Hall. left. apply elem_of_app. by left.
      * destruct (decide (x = n0)) as [->|Hxn].
        -- apply Hall. left. apply elem_of_app. right. by left.
        -- apply Hall. right. by apply elem_of_remove.
    + intros i j u v Hi Hj Hedge.
      destruct (decide (j < length placed)) as [Hjl|Hjl].
      * rewrite lookup_app_l in Hj by done.
        destruct (decide (i < length placed)) as [Hil|Hil].
        -- rewrite lookup_app_l in Hi by done. by eapply Hresp.
        -- rewrite lookup_app_r in Hi by lia.
           apply list_lookup_singleton_Some in Hi as [_ <-].
           destruct (Hpred _ _ Hedge); [|done].
           apply list_elem_of_lookup. eauto.
      * rewrite lookup_app_r in Hj by lia.
        apply list_lookup_singleton_Some in Hj as [Hj <-].
        destruct (decide (i < length placed)) as [Hil|Hil]; [lia|].
        rewrite lookup_app_r in Hi by lia.
        apply list_lookup_singleton_Some in Hi as [_ <-].
        by destruct (Hnopred n0).
    + intros u v Hedge [Hv|Hv]%elem_of_app [Hu Hun]%elem_of_remove.
      * by destruct (Hpred _ _ Hedge).
      * apply list_elem_of_singleton in Hv as ->. by destruct (Hnopred u).
Qed.

(** The sorter is sound: its order has every node of the graph and puts
    the source of every edge before its target. *)
Lemma topological_sort_Ok graph order :
  topological_sort graph = Ok order →
  respects graph order ∧ ∀ x, x ∈ order ↔ is_Some (graph !! x).
Proof.
  intros Hsort. pose proof Hsort as Hsort'. unfold topological_sort in Hsort.
  apply place_Ok in Hsort as [Hresp Hall].
  - split; [done|]. intros x. split; [by apply topological_sort_nodes|].
    intros [v Hv]. apply Hall. right. apply list_elem_of_fmap.
    exists (x, v). split; [done|]. by apply elem_of_map_to_list.
  - intros i j u v Hi. by rewrite lookup_nil in Hi.
  - intros u v _ Hv. by apply elem_of_nil in Hv.
Qed.

(** The sorter fails only on a [CyclicGraphError] whose nodes are stuck
    behind one another. *)
Lemma topological_sort_Raise graph e :
  topological_sort graph = Raise e →
  ∃ unresolved, e = CyclicGraphError unresolved ∧ unresolved ≠ []
    ∧ ∀ x, x ∈ unresolved → ∃ m, m ∈ unresolved ∧ edge graph m x.
Proof.
  intros Hsort. apply place_Raise in Hsort as (U & ? & ? & ? & ?); [|done].
  by exists U.
Qed.

Lemma topological_sort_cycle graph n :
  tc (edge graph) n n →
  ∃ unresolved,
    topological_sort graph = Raise (CyclicGraphError unresolved)
    ∧ ∀ x, tc (edge graph) n x → rtc (edge graph) x n → x ∈ unresolved.
Proof.
  intros Hcycle. unfold topological_sort.
  destruct (place_closed_set (length (map_to_list graph).*1) graph []
              (map_to_list graph).*1
              (λ x, tc (edge graph) n x ∧ rtc (edge graph) x n))
    as (U & HU & Hin).
  - intros x Hx. by apply cycle_closed.
  - intros x [_ Hx]. assert (tc (edge graph) x n) as Hxn.
    { apply rtc_tc in Hx as [->|Hx]; done. }
    inversion Hxn as [? ? (succs & Hs & _)|? ? ? (succs & Hs & _)]; subst;
      apply list_elem_of_fmap; exists (x, succs);
      (split; [done|by apply elem_of_map_to_list]).
  - exists n. split; [done|constructor].
  - exists U. split; [done|]. intros x ??. by apply Hin.
Qed.

Example topological_sort_sample :
  topological_sort (pipe_graph sample_pipe)
  = Ok ["sw_1"; "sw_2"; "sw_4"; "sw_3"].
Proof. vm_compute. reflexivity. Qed.

End TopsortFacts.

Section BuildFacts.
Import Utils Compile Topsort.
Variable py_unicode : json → string.
Variable py_sorted : list (list json) → list (list json).

(** C4.  When the pruned graph of a pipe has a cycle, iterating
    [build_pipeline] raises [CyclicGraphError]: no order and no pipeline is
    returned, no constructor has been called, and the error names every node
    on a cycle through the given node. *)
Theorem cyclic_graph_fails (context : Context) (p : pipe) (pipe_def : json)
    (σ : interp) (n : string) :
  tc (edge (pipe_graph p)) n n →
  ∃ unresolved,
    topological_sort (pipe_graph p) = Raise (CyclicGraphError unresolved)
    ∧ build_pipeline py_unicode py_sorted context p pipe_def σ
      = (Raise (CyclicGraphError unresolved), σ)
    ∧ n ∈ unresolved
    ∧ (∀ x, tc (edge (pipe_graph p)) n x → rtc (edge (pipe_graph p)) x n →
            x ∈ unresolved)
    ∧ (∀ x, x ∈ unresolved →
            ∃ m, m ∈ unresolved ∧ edge (pipe_graph p) m x).
Proof.
  intros Hcycle.
  destruct (topological_sort_cycle _ _ Hcycle) as (U & HU & Hin).
  exists U. split_and!; try done.
  - unfold build_pipeline, sbind, lift. by rewrite HU.
  - apply Hin; [done|constructor].
  - apply topological_sort_Raise in HU as (U' & [= <-] & _ & HU'). done.
Qed.

End BuildFacts.

Lemma cyclic_graph_fails_witness :
  tc (edge (pipe_graph cyclic_pipe)) "a" "a"
  ∧ ∃ unresolved,
      Compile.build_pipeline sample_unicode sample_sorted run_context
        cyclic_pipe cyclic_def sample_interp
      = (Raise (CyclicGraphError unresolved), sample_interp)
      ∧ "a" ∈ unresolved.
Proof.
  assert (Hcycle : tc (edge (pipe_graph cyclic_pipe)) "a" "a").
  { apply tc_l with "b"; [|apply tc_once].
    - exists ["b"]. split; [vm_compute; reflexivity|by left].
    - exists ["a"]. split; [vm_compute; reflexivity|by left]. }
  split; [exact Hcycle|].
  destruct (cyclic_graph_fails sample_unicode sample_sorted run_context
              cyclic_pipe cyclic_def sample_interp "a" Hcycle)
    as (U & _ & Hbuild & Hin & _).
  exists U. split; assumption.
Defined.

(** ** Wiring: the default input *)

Section WiringFacts.
Import Utils Compile.
Implicit Types (steps : gmap string pyval) (w : json) (v : wire_view).
Implicit Types (module_id : string) (items : list (string * json)).

Lemma view_wire_Ok w v :
  view_wire w = Ok v →
  wire_module w "src" = Ok (wv_src v)
  ∧ wire_terminal w "src" = Ok (JStr (wv_src_terminal v))
  ∧ wire_module w "tgt" = Ok (wv_tgt v)
  ∧ wire_terminal w "tgt" = Ok (JStr (wv_tgt_terminal v))
  ∧ pythonise (wv_tgt_terminal v) = Ok (wv_key v).
Proof.
  unfold view_wire.
  intros (src & Hsrc & (st & Hst & (st' & Hst' & (tgt & Htgt & (tt & Htt &
    (tt' & Htt' & (key & Hkey & [= <-])%rbind_Ok)%rbind_Ok)%rbind_Ok)%rbind_Ok
    )%rbind_Ok)%rbind_Ok)%rbind_Ok.
  destruct st; try done. destruct tt; try done.
  cbn in Hst', Htt'. injection Hst' as <-. injection Htt' as <-.
  cbn. done.
Qed.

Lemma src_is_output_view w v :
  view_wire w = Ok v →
  src_is_output w = Ok (String.prefix "_OUTPUT" (wv_src_terminal v)).
Proof.
  intros (_ & Hst & _)%view_wire_Ok. unfold src_is_output. by rewrite Hst.
Qed.

Lemma json_eq_str_JStr s t : json_eq_str (JStr s) t = String.eqb s t.
Proof. done. Qed.

Lemma is_default_in_and_out_view module_id w v :
  view_wire w = Ok v →
  is_default_in_and_out module_id w = Ok (default_wire module_id v).
Proof.
  intros Hv. pose proof (src_is_output_view _ _ Hv) as Hout.
  apply view_wire_Ok in Hv as (_ & _ & Htgt & Htt & _).
  unfold is_default_in_and_out, default_wire. rewrite Htgt. cbn [rbind].
  destruct (String.eqb (wv_tgt v) module_id); [|done].
  rewrite Htt. cbn [rbind]. rewrite json_eq_str_JStr.
  by destruct (String.eqb (wv_tgt_terminal v) "_INPUT").
Qed.

Lemma is_default_out_only_view module_id w v :
  view_wire w = Ok v →
  is_default_out_only module_id w = Ok (auxiliary_wire module_id v).
Proof.
  intros Hv. pose proof (src_is_output_view _ _ Hv) as Hout.
  apply view_wire_Ok in Hv as (_ & _ & Htgt & Htt & _).
  unfold is_default_out_only, auxiliary_wire. rewrite Htgt. cbn [rbind].
  destruct (String.eqb (wv_tgt v) module_id); [|done].
  rewrite Htt. cbn [rbind]. rewrite json_eq_str_JStr.
  by destruct (String.eqb (wv_tgt_terminal v) "_INPUT").
Qed.

Lemma auxiliary_not_default module_id v :
  auxiliary_wire module_id v = true → default_wire module_id v = false.
Proof.
  unfold auxiliary_wire, default_wire.
  destruct (String.eqb (wv_tgt v) module_id); [|done].
  by destruct (String.eqb (wv_tgt_terminal v) "_INPUT").
Qed.

Lemma steps_truthy_lookup steps k x :
  steps !! k = Some x → steps_truthy (Some steps) = true.
Proof.
  intros Hk. cbn. apply negb_true_iff, bool_decide_eq_false.
  intros ->. by rewrite lookup_empty in Hk.
Qed.

(** One turn of the loop of [_get_input_module] on a well-formed wire. *)
Lemma input_module_loop_cons module_id steps k w v items input_module :
  view_wire w = Ok v →
  steps_truthy (Some steps) = true →
  input_module_loop module_id (Some steps) ((k, w) :: items) input_module =
    if default_wire module_id v then dict_get steps (wv_src v)
    else input_module_loop module_id (Some steps) items input_module.
Proof.
  intros Hv Ht. cbn [input_module_loop].
  rewrite (is_default_in_and_out_view _ _ _ Hv).
  apply view_wire_Ok in Hv as (-> & _). cbn [rbind]. by rewrite Ht.
Qed.

(** The loop stops at the first default-input wire; without one it keeps
    the value it started from. *)
Lemma input_module_loop_spec module_id steps items input_module :
  steps_truthy (Some steps) = true →
  (∀ k w, (k, w) ∈ items → ∃ v, view_wire w = Ok v) →
  (∃ k w v, (k, w) ∈ items ∧ view_wire w = Ok v
            ∧ default_wire module_id v = true
            ∧ input_module_loop module_id (Some steps) items input_module
              = dict_get steps (wv_src v))
  ∨ ((∀ k w v, (k, w) ∈ items → view_wire w = Ok v →
               default_wire module_id v = false)
     ∧ input_module_loop module_id (Some steps) items input_module
       = Ok input_module).
Proof.
  intros Ht. induction items as [|[k w] items IH]; intros Hwf.
  - right. split; [|done]. by intros ??? ?%elem_of_nil.
  - destruct (Hwf k w) as [v Hv]; [by left|].
    rewrite (input_module_loop_cons _ _ _ _ _ _ _ Hv Ht).
    destruct (default_wire module_id v) eqn:Hd.
    + left. exists k, w, v. split_and!; try done. by left.
    + destruct IH as [(k' & w' & v' & Hin & Hv' & Hd' & Hloop)|[Hnone Hloop]].
      * intros ???. eapply Hwf. by right.
      * left. exists k', w', v'. split_and!; try done. by right.
      * right. split; [|done].
        intros k' w' v' [[= -> ->]|Hin]%elem_of_cons Hv'; [congruence|].
        by eapply Hnone.
Qed.

(** A wire that is not a default-input wire of the module is skipped by
    the loop, wherever it stands. *)
Lemma input_module_loop_skip module_id (steps : option (gmap string pyval))
    items1 items2 k w v input_module :
  view_wire w = Ok v →
  default_wire module_id v = false →
  input_module_loop module_id steps (items1 ++ (k, w) :: items2) input_module
  = input_module_loop module_id steps (items1 ++ items2) input_module.
Proof.
  intros Hv Hd. induction items1 as [|[k1 w1] items1 IH].
  - cbn [app input_module_loop].
    rewrite (is_default_in_and_out_view _ _ _ Hv), Hd.
    apply view_wire_Ok in Hv as (-> & _). done.
  - cbn [app input_module_loop]. by rewrite IH.
Qed.

(** The default input, for any steps that hold an entry under
    ["forever"]: when some wire goes from an output to the module's
    [_INPUT], it is what [steps] holds for the source module of one such
    wire, the one the search finds (so of any of them when they all come
    from the same module); when there is none, it is the entry under
    ["forever"]. *)
Lemma default_input_of_steps (p : pipe) (module_id : string)
    (steps : gmap string pyval) (root : pyval) :
  pipe_embed p !! module_id = None →
  steps !! "forever" = Some root →
  wires_viewable (pipe_wires p) →
  ((∃ k w v, pipe_wires p !! k = Some w ∧ view_wire w = Ok v
             ∧ default_wire module_id v = true) →
   ∃ k w v, pipe_wires p !! k = Some w ∧ view_wire w = Ok v
            ∧ default_wire module_id v = true
            ∧ _get_input_module p module_id (Some steps)
              = dict_get steps (wv_src v))
  ∧ (∀ k w v stage,
       pipe_wires p !! k = Some w → view_wire w = Ok v →
       default_wire module_id v = true →
       (∀ k' w' v', pipe_wires p !! k' = Some w' → view_wire w' = Ok v' →
                    default_wire module_id v' = true → wv_src v' = wv_src v) →
       steps !! wv_src v = Some stage →
       _get_input_module p module_id (Some steps) = Ok stage)
  ∧ ((∀ k w v, pipe_wires p !! k = Some w → view_wire w = Ok v →
               default_wire module_id v = false) →
     _get_input_module p module_id (Some steps) = Ok root).
Proof.
  intros Hemb Hroot Hwf.
  pose proof (steps_truthy_lookup _ _ _ Hroot) as Ht.
  assert (Hget : _get_input_module p module_id (Some steps)
                 = input_module_loop module_id (Some steps)
                     (map_to_list (pipe_wires p)) root).
  { unfold _get_input_module. rewrite Ht. cbn [steps_get].
    unfold dict_get. rewrite Hroot. cbn [rbind].
    rewrite bool_decide_false; [done|]. rewrite Hemb. by intros [? ?]. }
  rewrite Hget.
  destruct (input_module_loop_spec module_id steps
              (map_to_list (pipe_wires p)) root Ht)
    as [(k & w & v & Hin & Hv & Hd & Hloop)|[Hnone Hloop]].
  { intros k w Hin%elem_of_map_to_list. by eapply Hwf. }
  - apply elem_of_map_to_list in Hin. split_and!.
    + intros _. by exists k, w, v.
    + intros k' w' v' stage Hk' Hv' Hd' Hsame Hstage.
      rewrite Hloop, (Hsame _ _ _ Hin Hv Hd). unfold dict_get.
      by rewrite Hstage.
    + intros Hno. rewrite (Hno _ _ _ Hin Hv) in Hd. done.
  - split_and!.
    + intros (k & w & v & Hk & Hv & Hd).
      rewrite (Hnone k w v) in Hd; [done| |done].
      by apply elem_of_map_to_list.
    + intros k w v stage Hk Hv Hd.
      rewrite (Hnone k w v) in Hd; [done| |done].
      by apply elem_of_map_to_list.
    + done.
Qed.

Lemma wires_viewable_check (wires : gmap string json) :
  forallb (λ kw : string * json,
             match view_wire kw.2 with Ok _ => true | Raise _ => false end)
          (map_to_list wires) = true →
  wires_viewable wires.
Proof.
  intros Hall k w Hk. rewrite forallb_forall in Hall.
  specialize (Hall (k, w)). cbn in Hall.
  destruct (view_wire w) as [v|e]; [by exists v|].
  discriminate Hall. by apply list_elem_of_In, elem_of_map_to_list.
Qed.

Example default_input_of_steps_sample :
  pipe_embed sample_pipe !! "sw_2" = None
  ∧ wires_viewable (pipe_wires sample_pipe)
  ∧ ∃ k w v, pipe_wires sample_pipe !! k = Some w ∧ view_wire w = Ok v
      ∧ default_wire "sw_2" v = true
      ∧ _get_input_module sample_pipe "sw_2"
          (Some (<["sw_1" := VStage 1]> {["forever" := VStage 0]}))
        = dict_get (<["sw_1" := VStage 1]> {["forever" := VStage 0]})
                   (wv_src v).
Proof.
  assert (He : pipe_embed sample_pipe !! "sw_2" = None)
    by (vm_compute; reflexivity).
  assert (Hw : wires_viewable (pipe_wires sample_pipe))
    by (apply wires_viewable_check; vm_compute; reflexivity).
  split; [exact He|]. split; [exact Hw|].
  refine (proj1 (default_input_of_steps sample_pipe "sw_2"
            (<["sw_1" := VStage 1]> {["forever" := VStage 0]}) (VStage 0)
            He _ Hw) _).
  - vm_compute. reflexivity.
  - exists "_w1". eexists _, _.
    split; [vm_compute; reflexivity|].
    split; [vm_compute; reflexivity|]. vm_compute. reflexivity.
Qed.

End WiringFacts.

Section WiringCounterexamples.
Import Utils Compile.

(** C2, as stated, fails.  Both wires of [two_sources_pipe] go from an
    output to the [_INPUT] of [b], which is not embedded; the default input
    of [b] is the stage of [a], the source of the first wire, and not the
    stage of [c], the source of the second.  And in [forever_pipe], where
    no wire gives [b] a default input, [b] is constructed on the stage of
    the module whose id is [forever] (the result of the second call), not
    on the sentinel (the result of the first call). *)
Lemma default_input_is_one_source_or_forever_entry :
  pipe_embed two_sources_pipe !! "b" = None
  ∧ pipe_wires two_sources_pipe !! "_w1"
    = Some (mk_wire "_w1" "a" "_OUTPUT" "b" "_INPUT")
  ∧ pipe_wires two_sources_pipe !! "_w2"
    = Some (mk_wire "_w2" "c" "_OUTPUT" "b" "_INPUT")
  ∧ match view_wire (mk_wire "_w2" "c" "_OUTPUT" "b" "_INPUT") with
    | Ok v => default_wire "b" v && String.eqb (wv_src v) "c"
    | Raise _ => false
    end = true
  ∧ two_sources_steps !! "c" = Some (VStage 2)
  ∧ _get_input_module two_sources_pipe "b" (Some two_sources_steps)
    = Ok (VStage 1)
  ∧ VStage 1 ≠ VStage 2
  ∧ forallb (λ kw : string * json,
               match view_wire kw.2 with
               | Ok v => negb (default_wire "b" v)
               | Raise _ => true
               end) (map_to_list (pipe_wires forever_pipe)) = true
  ∧ (build_pipeline sample_unicode sample_sorted run_context forever_pipe
       forever_def sample_interp).1 = Ok (Items (VStage 2))
  ∧ call_func <$> calls (build_pipeline sample_unicode sample_sorted
                           run_context forever_pipe forever_def
                           sample_interp).2
    = [pipe_forever; ("pipe2py.modules.pipefetch", "pipe_fetch");
       ("pipe2py.modules.pipeoutput", "pipe_output")]
  ∧ call_args <$> calls (build_pipeline sample_unicode sample_sorted
                           run_context forever_pipe forever_def
                           sample_interp).2
    = [[]; [VContext run_context; VStage 0]; [VContext run_context; VStage 1]]
  ∧ call_result <$> calls (build_pipeline sample_unicode sample_sorted
                             run_context forever_pipe forever_def
                             sample_interp).2
    = [0; 1; 2].
Proof.
  split; [vm_compute; reflexivity|]. split; [vm_compute; reflexivity|].
  split; [vm_compute; reflexivity|]. split; [vm_compute; reflexivity|].
  split; [vm_compute; reflexivity|]. split; [vm_compute; reflexivity|].
  split; [discriminate|]. split; [vm_compute; reflexivity|].
  split; [vm_compute; reflexivity|]. split; [vm_compute; reflexivity|].
  split; vm_compute; reflexivity.
Qed.

End WiringCounterexamples.

(** ** Wiring: the keyword arguments *)

Section KwargsFacts.
Import Utils Compile.
Implicit Types (steps : gmap string pyval) (w : json) (v : wire_view).
Implicit Types (module_id : string) (items : list (string * json)).

Lemma dict_of_app {A} (l1 l2 : list (string * A)) (k : string) :
  dict_of (l1 ++ l2) !! k =
    match dict_of l2 !! k with
    | Some x => Some x
    | None => dict_of l1 !! k
    end.
Proof.
  rewrite !dict_of_list_to_map, reverse_app, list_to_map_app, lookup_union.
  by destruct (list_to_map (reverse l2) !! k), (list_to_map (reverse l1) !! k).
Qed.

(** When every pair with key [k] has the value [x], so has the dict. *)
Lemma dict_of_lookup_agree {A} (l : list (string * A)) (k : string) (x : A) :
  (k, x) ∈ l → (∀ y, (k, y) ∈ l → y = x) → dict_of l !! k = Some x.
Proof.
  intros Hin Hall.
  assert (is_Some (dict_of l !! k)) as [y Hy].
  { apply dict_of_lookup_is_Some, list_elem_of_fmap. by exists (k, x). }
  rewrite Hy. f_equal. by apply Hall, dict_of_lookup_Some.
Qed.

(** The extra inputs: one pair for each auxiliary wire of the module. *)
Lemma wire_kwargs_spec module_id steps items :
  steps_truthy (Some steps) = true →
  (∀ k w, (k, w) ∈ items →
     ∃ v, view_wire w = Ok v
          ∧ (auxiliary_wire module_id v = true → is_Some (steps !! wv_src v))) →
  ∃ extra,
    wire_kwargs module_id (Some steps) items = Ok extra
    ∧ ∀ key val, (key, val) ∈ extra ↔
        ∃ k w v, (k, w) ∈ items ∧ view_wire w = Ok v
                 ∧ auxiliary_wire module_id v = true
                 ∧ key = wv_key v ∧ steps !! wv_src v = Some val.
Proof.
  intros Ht. induction items as [|[k w] items IH]; intros Hwf.
  - exists []. split; [done|]. intros key val. split.
    + intros Hin. inversion Hin.
    + intros (? & ? & ? & Hin & _). inversion Hin.
  - destruct (Hwf k w) as (v & Hv & Hsrc); [by left|].
    destruct IH as (extra & Hextra & Hspec).
    { intros k' w' Hin. apply (Hwf k' w'). by right. }
    cbn [wire_kwargs]. rewrite Hextra.
    rewrite (is_default_out_only_view _ _ _ Hv).
    pose proof Hv as (Hs & _ & _ & Htt & Hkey)%view_wire_Ok.
    rewrite Hs. cbn [rbind].
    destruct (auxiliary_wire module_id v) eqn:Haux.
    + destruct Hsrc as [val Hval]; [done|].
      rewrite Htt. cbn [rbind]. unfold pythonise_json. cbn [as_str rbind].
      rewrite Hkey. cbn [rbind]. rewrite Ht. cbn [steps_get].
      unfold dict_get. rewrite Hval. cbn [rbind app].
      eexists. split; [done|]. intros key val'. rewrite elem_of_cons, Hspec.
      split.
      * intros [[= -> ->]|(k' & w' & v' & Hin & ?)].
        -- exists k, w, v. split_and!; try done. by left.
        -- exists k', w', v'. split; [by right|done].
      * intros (k' & w' & v' & [[= -> ->]|Hin]%elem_of_cons & Hv' & ? & -> & ?).
        -- left. congruence.
        -- right. by exists k', w', v'.
    + cbn [rbind app]. exists extra. split; [done|].
      intros key val'. rewrite Hspec. split.
      * intros (k' & w' & v' & Hin & ?). exists k', w', v'.
        split; [by right|done].
      * intros (k' & w' & v' & [[= -> ->]|Hin]%elem_of_cons & Hv' & ? & ?).
        -- congruence.
        -- by exists k', w', v'.
Qed.

(** [filter_func] returns [None] for every wire, so [filter] keeps none. *)
Lemma py_filter_filter_func module_id items :
  (∀ k w, (k, w) ∈ items → ∃ v, view_wire w = Ok v) →
  py_filter (filter_func module_id) items = Ok [].
Proof.
  induction items as [|[k w] items IH]; intros Hwf; [done|].
  destruct (Hwf k w) as (v & (Hs & _)%view_wire_Ok); [by left|].
  cbn [py_filter]. unfold filter_func at 1. cbn [snd]. rewrite Hs.
  cbn [rbind]. rewrite IH; [done|]. intros k' w' Hin. apply (Hwf k' w').
  by right.
Qed.

Lemma splits_kwargs_split (p : pipe) module_id ty steps :
  json_eq_str ty "split" = true →
  steps_truthy (Some steps) = true →
  wires_viewable (pipe_wires p) →
  splits_kwargs p module_id ty (Some steps) = Ok [("splits", VInt 0)].
Proof.
  intros Hty Ht Hwf. unfold splits_kwargs. rewrite Hty.
  rewrite py_filter_filter_func.
  - cbn [rbind]. by rewrite Ht.
  - intros k w Hin%elem_of_map_to_list. by eapply Hwf.
Qed.

Lemma splits_kwargs_keys (p : pipe) module_id ty steps l key val :
  splits_kwargs p module_id ty (Some steps) = Ok l →
  (key, val) ∈ l → json_eq_str ty "split" = true ∧ key = "splits".
Proof.
  unfold splits_kwargs. destruct (json_eq_str ty "split").
  - intros (f & _ & [= <-])%rbind_Ok [[= -> _]|Hin]%elem_of_cons;
      [done|inversion Hin].
  - intros [= <-] Hin. inversion Hin.
Qed.

Lemma splits_kwargs_total (p : pipe) module_id ty steps :
  wires_viewable (pipe_wires p) →
  ∃ l, splits_kwargs p module_id ty (Some steps) = Ok l.
Proof.
  intros Hwf. unfold splits_kwargs. destruct (json_eq_str ty "split"); [|eauto].
  rewrite py_filter_filter_func; [eauto|].
  intros k w Hin%elem_of_map_to_list. by eapply Hwf.
Qed.

Lemma embed_kwargs_keys m ty (steps : option (gmap string pyval)) l key val :
  embed_kwargs m ty steps = Ok l →
  (key, val) ∈ l → json_eq_str ty "loop" = true ∧ key = "embed".
Proof.
  unfold embed_kwargs. destruct (json_eq_str ty "loop").
  - intros (? & _ & (? & _ & (? & _ & (? & _ & (? & _ & (? & _ & [= <-]
      )%rbind_Ok)%rbind_Ok)%rbind_Ok)%rbind_Ok)%rbind_Ok)%rbind_Ok.
    intros [[= -> _]|Hin]%elem_of_cons; [done|inversion Hin].
  - intros [= <-] Hin. inversion Hin.
Qed.

Lemma json_eq_str_split_loop ty :
  json_eq_str ty "split" = true → json_eq_str ty "loop" = false.
Proof.
  destruct ty; try done. cbn. intros ->%String.eqb_eq. done.
Qed.

Lemma gen_pykwargs_Ok (context : Context) (p : pipe) module_id steps
    (m conf ty : json) (emb : list (string * pyval)) :
  describe context = false →
  steps_truthy (Some steps) = true →
  pipe_modules p !! module_id = Some m →
  getitem m "conf" = Ok conf →
  getitem m "type" = Ok ty →
  wires_viewable (pipe_wires p) →
  aux_sources_assembled p module_id steps →
  embed_kwargs m ty (Some steps) = Ok emb →
  ∃ extra splits,
    _gen_pykwargs context p module_id (Some steps)
    = Ok (("conf", VJson conf) :: extra ++ emb ++ splits)
    ∧ splits_kwargs p module_id ty (Some steps) = Ok splits
    ∧ ∀ key val, (key, val) ∈ extra ↔
        ∃ k w v, pipe_wires p !! k = Some w ∧ view_wire w = Ok v
                 ∧ auxiliary_wire module_id v = true
                 ∧ key = wv_key v ∧ steps !! wv_src v = Some val.
Proof.
  intros Hd Ht Hm Hconf Hty Hwf Hsrc Hemb.
  destruct (wire_kwargs_spec module_id steps (map_to_list (pipe_wires p)) Ht)
    as (extra & Hextra & Hspec).
  { intros k w Hin%elem_of_map_to_list. destruct (Hwf _ _ Hin) as [v Hv].
    exists v. split; [done|]. by eapply Hsrc. }
  destruct (splits_kwargs_total p module_id ty steps Hwf) as [splits Hsplits].
  exists extra, splits. split_and!; [|done|].
  - unfold _gen_pykwargs, dict_get. rewrite Hm. cbn [rbind].
    rewrite Hconf. cbn [rbind]. rewrite Hd. cbn [andb negb].
    rewrite Hty. cbn [rbind]. rewrite Hextra. cbn [rbind].
    rewrite Hemb. cbn [rbind]. by rewrite Hsplits.
  - intros key val. rewrite Hspec. split.
    + intros (k & w & v & Hin%elem_of_map_to_list & ?). by exists k, w, v.
    + intros (k & w & v & Hin%elem_of_map_to_list & ?). by exists k, w, v.
Qed.

(** C1 (as amended).  For a split module the resolver supplies the named
    argument [splits]: an integer count that is never more than the number
    of wires whose source is the module, and that is 0 when the module has
    no outgoing wire. *)
Theorem splits_resolution (context : Context) (p : pipe) (module_id : string)
    (steps : gmap string pyval) (m conf ty : json) :
  describe context = false →
  steps_truthy (Some steps) = true →
  pipe_modules p !! module_id = Some m →
  getitem m "conf" = Ok conf →
  getitem m "type" = Ok ty →
  json_eq_str ty "split" = true →
  wires_viewable (pipe_wires p) →
  aux_sources_assembled p module_id steps →
  ∃ pykwargs count,
    _gen_pykwargs context p module_id (Some steps) = Ok pykwargs
    ∧ dict_of pykwargs !! "splits" = Some (VInt count)
    ∧ (0 ≤ count ≤ Z.of_nat (outgoing_count (pipe_wires p) module_id))%Z
    ∧ (outgoing_count (pipe_wires p) module_id = 0 → count = 0%Z).
Proof.
  intros Hd Ht Hm Hconf Hty Hsplit Hwf Hsrc.
  assert (Hemb : embed_kwargs m ty (Some steps) = Ok []).
  { unfold embed_kwargs. by rewrite (json_eq_str_split_loop _ Hsplit). }
  destruct (gen_pykwargs_Ok context p module_id steps m conf ty [] Hd Ht Hm
              Hconf Hty Hwf Hsrc Hemb) as (extra & splits & Hkw & Hs & _).
  rewrite (splits_kwargs_split p module_id ty steps Hsplit Ht Hwf) in Hs.
  injection Hs as <-.
  exists (("conf", VJson conf) :: extra ++ [] ++ [("splits", VInt 0)]), 0%Z.
  split_and!; [done| |lia|lia|done].
  rewrite app_nil_l.
  change (("conf", VJson conf) :: extra ++ [("splits", VInt 0)])
    with ((("conf", VJson conf) :: extra) ++ [("splits", VInt 0)]).
  by rewrite dict_of_snoc, lookup_insert_eq.
Qed.

Lemma aux_sources_assembled_check (p : pipe) module_id steps :
  forallb (λ kw : string * json,
             match view_wire kw.2 with
             | Ok v => negb (auxiliary_wire module_id v)
                       || bool_decide (is_Some (steps !! wv_src v))
             | Raise _ => true
             end) (map_to_list (pipe_wires p)) = true →
  aux_sources_assembled p module_id steps.
Proof.
  intros Hall k w v Hk Hv Haux. rewrite forallb_forall in Hall.
  specialize (Hall (k, w)). cbn in Hall. rewrite Hv, Haux in Hall.
  cbn in Hall. eapply bool_decide_eq_true_1, Hall.
  by apply list_elem_of_In, elem_of_map_to_list.
Qed.

Lemma splits_resolution_witness :
  ∃ pykwargs count,
    _gen_pykwargs run_context sample_pipe "sw_2"
      (Some (steps_after_first "sw_1")) = Ok pykwargs
    ∧ dict_of pykwargs !! "splits" = Some (VInt count)
    ∧ (0 ≤ count ≤ Z.of_nat (outgoing_count (pipe_wires sample_pipe) "sw_2"))%Z.
Proof.
  destruct (splits_resolution run_context sample_pipe "sw_2"
              (steps_after_first "sw_1")
              (mk_module "sw-2" "split" (JDict [])) (JDict []) (JStr "split"))
    as (pykwargs & count & H1 & H2 & H3 & _).
  - reflexivity.
  - vm_compute. reflexivity.
  - vm_compute. reflexivity.
  - reflexivity.
  - reflexivity.
  - reflexivity.
  - apply wires_viewable_check. vm_compute. reflexivity.
  - apply aux_sources_assembled_check. vm_compute. reflexivity.
  - exists pykwargs, count. split; [exact H1|]. split; [exact H2|exact H3].
Defined.

(** C1, as stated, fails: a split module without outgoing wires is given
    [splits = 0], not 2. *)
Lemma splits_never_defaults_to_two :
  outgoing_count (pipe_wires lonely_split_pipe) "s" = 0
  ∧ (pykwargs <- _gen_pykwargs run_context lonely_split_pipe "s"
                   (Some (steps_after_first "a"));;
     Ok (dict_of pykwargs !! "splits")) = Ok (Some (VInt 0))
  ∧ VInt 0 ≠ VInt 2.
Proof.
  split; [vm_compute; reflexivity|]. split; [vm_compute; reflexivity|done].
Qed.

(** With two wires leaving the split module the count is 0 as well:
    [filter_func] has no [return]. *)
Example splits_of_sample :
  outgoing_count (pipe_wires sample_pipe) "sw_2" = 2
  ∧ (pykwargs <- _gen_pykwargs run_context sample_pipe "sw_2"
                   (Some (steps_after_first "sw_1"));;
     Ok (dict_of pykwargs !! "splits")) = Ok (Some (VInt 0)).
Proof. split; vm_compute; reflexivity. Qed.

End KwargsFacts.

(** ** Assembly of one module *)

Section StepFacts.
Import Utils Compile.
Implicit Types (steps : gmap string pyval) (w : json) (v : wire_view).
Implicit Types (module_id : string) (items : list (string * json)).

Lemma get_input_module_loop (p : pipe) module_id steps root :
  pipe_embed p !! module_id = None →
  steps !! "forever" = Some root →
  _get_input_module p module_id (Some steps)
  = input_module_loop module_id (Some steps) (map_to_list (pipe_wires p)) root.
Proof.
  intros Hemb Hroot. unfold _get_input_module.
  rewrite (steps_truthy_lookup _ _ _ Hroot). cbn [steps_get].
  unfold dict_get. rewrite Hroot. cbn [rbind].
  rewrite bool_decide_false; [done|]. rewrite Hemb. by intros [? ?].
Qed.

(** The default input resolves when the sources of the default-input wires
    are assembled. *)
Lemma get_input_module_total (p : pipe) module_id steps root :
  pipe_embed p !! module_id = None →
  steps !! "forever" = Some root →
  wires_viewable (pipe_wires p) →
  default_sources_assembled p module_id steps →
  ∃ input, _get_input_module p module_id (Some steps) = Ok input.
Proof.
  intros Hemb Hroot Hwf Hsrc.
  rewrite (get_input_module_loop _ _ _ _ Hemb Hroot).
  assert (Hitems : ∀ k w, (k, w) ∈ map_to_list (pipe_wires p) →
                          ∃ v, view_wire w = Ok v).
  { intros k w Hin%elem_of_map_to_list. by eapply Hwf. }
  destruct (input_module_loop_spec module_id steps
              (map_to_list (pipe_wires p)) root
              (steps_truthy_lookup _ _ _ Hroot) Hitems)
    as [(k & w & v & Hin%elem_of_map_to_list & Hv & Hd & ->)|[_ ->]].
  - destruct (Hsrc _ _ _ Hin Hv Hd) as [stage Hstage].
    exists stage. unfold dict_get. by rewrite Hstage.
  - by exists root.
Qed.

(** What [_gen_steps] does for a module that is not embedded: one
    constructor call, on the context, the default input and the keyword
    arguments. *)
Lemma gen_steps_not_embedded (context : Context) (p : pipe)
    module_id (module_name pipe_name : string) steps (σ : interp)
    (attrs : list string) (input : pyval) (pykwargs : list (string * pyval)) :
  describe context = false →
  pipe_embed p !! module_id = None →
  steps_truthy (Some steps) = true →
  importable σ !! import_name module_name = Some attrs →
  pipe_name ∈ attrs →
  _get_input_module p module_id (Some steps) = Ok input →
  _gen_pykwargs context p module_id (Some steps) = Ok pykwargs →
  multiple_values [VContext context; input] (dict_of pykwargs) = false →
  _gen_steps context p module_id module_name pipe_name steps σ
  = (Ok [(module_id, VStage (next_object σ))],
     record_call σ (import_name module_name, pipe_name)
       [VContext context; input] (dict_of pykwargs)).
Proof.
  intros Hd Hemb Ht Himp Hattr Hin Hkw Hfree.
  unfold _gen_steps, sbind, import_module, getattr, lift, call_function, ret.
  rewrite Himp. cbn [snd fst]. rewrite bool_decide_true by done.
  rewrite bool_decide_false by (rewrite Hemb; by intros [? ?]).
  unfold _get_pyargs. rewrite Hd, Ht. cbn [andb negb]. rewrite Hin.
  cbn [rbind]. by rewrite Hkw, Hfree.
Qed.

(** Two positional arguments bind [context] and [_INPUT]. *)
Lemma multiple_values_two (a b : pyval) (kwargs : gmap string pyval) :
  kwargs !! "context" = None → kwargs !! "_INPUT" = None →
  multiple_values [a; b] kwargs = false.
Proof.
  intros Hc Hi. unfold multiple_values. cbn [length take positional_parameters
    existsb]. rewrite Hc, Hi.
  by rewrite !bool_decide_eq_false_2 by (by intros [? ?]).
Qed.

(** C3 (as amended).  For a module that is not embedded, none of whose
    auxiliary wires ends at a terminal named like a positional parameter of
    the constructor ([context], [_INPUT], after normalisation), and an
    auxiliary wire into it whose normalised terminal name no other source
    claims and that neither [embed] nor [splits] overrides, the constructor
    of the module is called once with the keyword argument of that name
    bound to the stage of the source module; and the default input is the
    one the search finds without that wire. *)
Theorem auxiliary_input_resolution (context : Context) (p : pipe)
    (module_id module_name pipe_name : string) (steps : gmap string pyval)
    (σ : interp) (m conf ty : json) (emb : list (string * pyval))
    (attrs : list string) (root : pyval) (k : string) (w : json)
    (v : wire_view) (stage : pyval) :
  describe context = false →
  pipe_embed p !! module_id = None →
  steps !! "forever" = Some root →
  pipe_modules p !! module_id = Some m →
  getitem m "conf" = Ok conf →
  getitem m "type" = Ok ty →
  embed_kwargs m ty (Some steps) = Ok emb →
  wires_viewable (pipe_wires p) →
  aux_sources_assembled p module_id steps →
  default_sources_assembled p module_id steps →
  aux_keys_free p module_id →
  importable σ !! import_name module_name = Some attrs →
  pipe_name ∈ attrs →
  pipe_wires p !! k = Some w →
  view_wire w = Ok v →
  auxiliary_wire module_id v = true →
  steps !! wv_src v = Some stage →
  (∀ k' w' v', pipe_wires p !! k' = Some w' → view_wire w' = Ok v' →
               auxiliary_wire module_id v' = true → wv_key v' = wv_key v →
               wv_src v' = wv_src v) →
  (json_eq_str ty "loop" = true → wv_key v ≠ "embed") →
  (json_eq_str ty "split" = true → wv_key v ≠ "splits") →
  ∃ input kwargs,
    _get_input_module p module_id (Some steps) = Ok input
    ∧ _gen_steps context p module_id module_name pipe_name steps σ
      = (Ok [(module_id, VStage (next_object σ))],
         record_call σ (import_name module_name, pipe_name)
           [VContext context; input] kwargs)
    ∧ kwargs !! wv_key v = Some stage
    ∧ ∀ items1 items2,
        map_to_list (pipe_wires p) = items1 ++ (k, w) :: items2 →
        input_module_loop module_id (Some steps) (items1 ++ items2) root
        = Ok input.
Proof.
  intros Hd Hemb Hroot Hm Hconf Hty Hembed Hwf Haux Hdef Hfree Himp Hattr
         Hk Hv Hv_aux Hstage Huniq Hloop Hsplit.
  pose proof (steps_truthy_lookup _ _ _ Hroot) as Ht.
  destruct (get_input_module_total p module_id steps root Hemb Hroot Hwf Hdef)
    as [input Hinput].
  destruct (gen_pykwargs_Ok context p module_id steps m conf ty emb Hd Ht Hm
              Hconf Hty Hwf Haux Hembed)
    as (extra & splits & Hkw & Hsplits & Hextra).
  exists input, (dict_of (("conf", VJson conf) :: extra ++ emb ++ splits)).
  split; [done|].
  assert (Hkeys : ∀ name, name = "context" ∨ name = "_INPUT" →
            dict_of (("conf", VJson conf) :: extra ++ emb ++ splits) !! name
            = None).
  { intros name Hname. apply dict_of_lookup_None.
    intros ([key val] & Hkey & Hin)%list_elem_of_fmap. cbn in Hkey.
    subst key. apply elem_of_cons in Hin as [Hin|Hin].
    { injection Hin as -> _. by destruct Hname. }
    apply elem_of_app in Hin as [Hin|Hin].
    { apply Hextra in Hin as (k' & w' & v' & Hk' & Hv' & Haux' & -> & _).
      destruct (Hfree _ _ _ Hk' Hv' Haux'). by destruct Hname. }
    apply elem_of_app in Hin as [Hin|Hin].
    - destruct (embed_kwargs_keys _ _ _ _ _ _ Hembed Hin) as [_ ->].
      by destruct Hname.
    - destruct (splits_kwargs_keys _ _ _ _ _ _ _ Hsplits Hin) as [_ ->].
      by destruct Hname. }
  split.
  { apply (gen_steps_not_embedded _ _ _ _ _ _ _ attrs); try done.
    apply multiple_values_two; apply Hkeys; auto. }
  split.
  - change (("conf", VJson conf) :: extra ++ emb ++ splits)
      with (([("conf", VJson conf)] ++ extra) ++ emb ++ splits).
    rewrite dict_of_app.
    assert (dict_of (emb ++ splits) !! wv_key v = None) as ->.
    { apply dict_of_lookup_None.
      intros ([key val] & Hkey & [Hin|Hin]%elem_of_app)%list_elem_of_fmap;
        cbn in Hkey; subst key.
      - destruct (embed_kwargs_keys _ _ _ _ _ _ Hembed Hin) as [Hl Heq].
        by apply Hloop.
      - destruct (splits_kwargs_keys _ _ _ _ _ _ _ Hsplits Hin) as [Hs Heq].
        by apply Hsplit. }
    rewrite dict_of_app.
    rewrite (dict_of_lookup_agree extra (wv_key v) stage); [done| |].
    + apply Hextra. by exists k, w, v.
    + intros y (k' & w' & v' & Hk' & Hv' & Haux' & Hkey & Hy)%Hextra.
      rewrite (Huniq _ _ _ Hk' Hv' Haux') in Hy by done. congruence.
  - intros items1 items2 Hitems.
    rewrite <-Hinput, (get_input_module_loop _ _ _ _ Hemb Hroot), Hitems.
    symmetry. eapply input_module_loop_skip; [done|].
    by apply auxiliary_not_default.
Qed.

End StepFacts.

Section StepWitnesses.
Import Utils Compile.

(** A property of the well-formed wires of a pipe, by enumeration. *)
Lemma forall_wires_check (wires : gmap string json) (P : wire_view → bool) :
  forallb (λ kw : string * json,
             match view_wire kw.2 with Ok v => P v | Raise _ => true end)
          (map_to_list wires) = true →
  ∀ k w v, wires !! k = Some w → view_wire w = Ok v → P v = true.
Proof.
  intros Hall k w v Hk Hv. rewrite forallb_forall in Hall.
  specialize (Hall (k, w)). cbn in Hall. rewrite Hv in Hall.
  by apply Hall, list_elem_of_In, elem_of_map_to_list.
Qed.

Lemma default_sources_assembled_check (p : pipe) (module_id : string)
    (steps : gmap string pyval) :
  forallb (λ kw : string * json,
             match view_wire kw.2 with
             | Ok v => negb (default_wire module_id v)
                       || bool_decide (is_Some (steps !! wv_src v))
             | Raise _ => true
             end) (map_to_list (pipe_wires p)) = true →
  default_sources_assembled p module_id steps.
Proof.
  intros Hall k w v Hk Hv Hd.
  pose proof (forall_wires_check _ _ Hall k w v Hk Hv) as H.
  cbn in H. rewrite Hd in H. by eapply bool_decide_eq_true_1, H.
Qed.

Lemma aux_keys_free_check (p : pipe) (module_id : string) :
  forallb (λ kw : string * json,
             match view_wire kw.2 with
             | Ok v => negb (auxiliary_wire module_id v)
                       || (negb (String.eqb (wv_key v) "context")
                           && negb (String.eqb (wv_key v) "_INPUT"))
             | Raise _ => true
             end) (map_to_list (pipe_wires p)) = true →
  aux_keys_free p module_id.
Proof.
  intros Hall k w v Hk Hv Haux.
  pose proof (forall_wires_check _ _ Hall k w v Hk Hv) as H.
  cbn in H. rewrite Haux in H. cbn [negb orb] in H.
  apply andb_true_iff in H as [Hc Hi].
  split; intros Heq; rewrite Heq in *; discriminate.
Qed.

Lemma auxiliary_input_resolution_witness :
  ∃ input kwargs,
    _get_input_module sample_pipe "sw_4" (Some steps_before_union) = Ok input
    ∧ _gen_steps run_context sample_pipe "sw_4" "pipeunion" "pipe_union"
        steps_before_union sample_interp
      = (Ok [("sw_4", VStage (next_object sample_interp))],
         record_call sample_interp (import_name "pipeunion", "pipe_union")
           [VContext run_context; input] kwargs)
    ∧ kwargs !! "_OTHER" = Some (VStage 2).
Proof.
  destruct (auxiliary_input_resolution run_context sample_pipe "sw_4"
              "pipeunion" "pipe_union" steps_before_union sample_interp
              (mk_module "sw-4" "union" (JDict [])) (JDict []) (JStr "union")
              [] ["pipe_union"] (VStage 0) "_w3"
              (mk_wire "_w3" "sw-2" "_OUTPUT2" "sw-4" "_OTHER")
              {| wv_src := "sw_2"; wv_src_terminal := "_OUTPUT2";
                 wv_tgt := "sw_4"; wv_tgt_terminal := "_OTHER";
                 wv_key := "_OTHER" |} (VStage 2))
    as (input & kwargs & H1 & H2 & H3 & _).
  - reflexivity.
  - vm_compute. reflexivity.
  - vm_compute. reflexivity.
  - vm_compute. reflexivity.
  - reflexivity.
  - reflexivity.
  - reflexivity.
  - apply wires_viewable_check. vm_compute. reflexivity.
  - apply aux_sources_assembled_check. vm_compute. reflexivity.
  - apply default_sources_assembled_check. vm_compute. reflexivity.
  - apply aux_keys_free_check. vm_compute. reflexivity.
  - vm_compute. reflexivity.
  - by left.
  - vm_compute. reflexivity.
  - vm_compute. reflexivity.
  - vm_compute. reflexivity.
  - vm_compute. reflexivity.
  - intros k' w' v' Hk' Hv' Haux Hkey.
    pose proof (forall_wires_check (pipe_wires sample_pipe)
      (λ v, negb (auxiliary_wire "sw_4" v && String.eqb (wv_key v) "_OTHER")
            || String.eqb (wv_src v) "sw_2")
      ltac:(vm_compute; reflexivity) k' w' v' Hk' Hv') as H.
    cbn beta in H. rewrite Haux in H. cbn [wv_key] in Hkey. rewrite Hkey in H.
    by apply String.eqb_eq in H.
  - intros [=].
  - intros [=].
  - exists input, kwargs. split; [exact H1|]. split; [exact H2|exact H3].
Defined.

(** The wire of [clash_pipe] ends at the terminal [-INPUT] of [b]: it is an
    auxiliary wire, its terminal not being [_INPUT], and the name of its
    keyword is [_INPUT], which the second positional argument binds
    already.  The call of the constructor is refused, and nothing is
    constructed. *)
Example clashing_terminal_is_refused :
  match view_wire (mk_wire "_w1" "a" "_OUTPUT" "b" "-INPUT") with
  | Ok v => auxiliary_wire "b" v && String.eqb (wv_key v) "_INPUT"
  | Raise _ => false
  end = true
  ∧ _gen_steps run_context clash_pipe "b" "pipeunion" "pipe_union"
      (steps_after_first "a") sample_interp
    = (Raise TypeError, sample_interp).
Proof. split; vm_compute; reflexivity. Qed.

(** C3, as stated, fails: the wire [_w3] goes from an output to the
    terminal [extra] of the embedded module [emb], and no constructor is
    called with a keyword argument [extra]; the constructor of [emb] is not
    called at all. *)
Lemma embedded_module_gets_no_wire_kwargs :
  (match view_wire (mk_wire "_w3" "src" "_OUTPUT" "emb" "extra") with
   | Ok v => auxiliary_wire "emb" v
   | Raise _ => false
   end = true)
  ∧ pipe_wires loop_pipe !! "_w3"
    = Some (mk_wire "_w3" "src" "_OUTPUT" "emb" "extra")
  ∧ (build_pipeline sample_unicode sample_sorted run_context loop_pipe
       loop_def sample_interp).1 = Ok (Items (VStage 3))
  ∧ forallb (λ c, bool_decide (call_kwargs c !! "extra" = None)
                  && bool_decide (call_func c ≠
                       ("pipe2py.modules.pipestrconcat", "pipe_strconcat")))
      (calls (build_pipeline sample_unicode sample_sorted run_context
                loop_pipe loop_def sample_interp).2) = true.
Proof.
  split; [vm_compute; reflexivity|]. split; [vm_compute; reflexivity|].
  split; vm_compute; reflexivity.
Qed.

(** C5 (as amended).  For an embedded module whose constructor can be
    imported, [_gen_steps] calls no constructor: it records the constructor
    itself, as imported and renamed [pipe_<id>], under the id of the module;
    and the default input of the module is the placeholder ["_INPUT"]. *)
Theorem embedded_module_assembly (context : Context) (p : pipe)
    (module_id module_name pipe_name : string) (steps : gmap string pyval)
    (σ : interp) (attrs : list string) (embedded : json) :
  pipe_embed p !! module_id = Some embedded →
  importable σ !! import_name module_name = Some attrs →
  pipe_name ∈ attrs →
  ∃ σ',
    _gen_steps context p module_id module_name pipe_name steps σ
    = (Ok [(module_id, VFunc (import_name module_name, pipe_name))], σ')
    ∧ calls σ' = calls σ
    ∧ next_object σ' = next_object σ
    ∧ func_name σ' !! (import_name module_name, pipe_name)
      = Some ("pipe_" +:+ module_id)
    ∧ _get_input_module p module_id None = Ok (VStr "_INPUT")
    ∧ (∀ root, steps !! "forever" = Some root →
               _get_input_module p module_id (Some steps) = Ok (VStr "_INPUT")).
Proof.
  intros Hemb Himp Hattr. eexists. split_and!.
  - unfold _gen_steps, sbind, import_module, getattr, set_name, ret.
    rewrite Himp. cbn [snd fst]. rewrite bool_decide_true by done.
    rewrite bool_decide_true by (rewrite Hemb; eauto). reflexivity.
  - done.
  - done.
  - cbn. apply lookup_insert_eq.
  - unfold _get_input_module. cbn [steps_truthy rbind].
    rewrite bool_decide_true by (rewrite Hemb; eauto). done.
  - intros root Hroot. unfold _get_input_module.
    rewrite (steps_truthy_lookup _ _ _ Hroot). cbn [steps_get].
    unfold dict_get. rewrite Hroot. cbn [rbind].
    rewrite bool_decide_true by (rewrite Hemb; eauto). done.
Qed.

Lemma embedded_module_assembly_witness :
  ∃ σ',
    _gen_steps run_context loop_pipe "emb" "pipestrconcat" "pipe_strconcat"
      (steps_after_first "src") sample_interp
    = (Ok [("emb", VFunc (import_name "pipestrconcat", "pipe_strconcat"))], σ')
    ∧ calls σ' = calls sample_interp
    ∧ _get_input_module loop_pipe "emb" None = Ok (VStr "_INPUT").
Proof.
  destruct (embedded_module_assembly run_context loop_pipe "emb"
              "pipestrconcat" "pipe_strconcat" (steps_after_first "src")
              sample_interp ["pipe_strconcat"]
              (mk_module "emb" "strconcat" (JDict [])))
    as (σ' & H1 & H2 & _ & _ & H5 & _).
  - vm_compute. reflexivity.
  - vm_compute. reflexivity.
  - by left.
  - exists σ'. split; [exact H1|]. split; [exact H2|exact H5].
Defined.

(** C5, as stated, fails: what is recorded for the embedded module is the
    same value under two contexts and two configurations; neither is bound
    in it. *)
Lemma embedded_constructor_is_not_bound :
  run_context ≠ test_context
  ∧ pipe_embed loop_pipe !! "emb" ≠ pipe_embed loop_pipe' !! "emb"
  ∧ (_gen_steps run_context loop_pipe "emb" "pipestrconcat" "pipe_strconcat"
       (steps_after_first "src") sample_interp).1
    = Ok [("emb", VFunc ("pipe2py.modules.pipestrconcat", "pipe_strconcat"))]
  ∧ (_gen_steps test_context loop_pipe' "emb" "pipestrconcat" "pipe_strconcat"
       (steps_after_first "src") sample_interp).1
    = Ok [("emb", VFunc ("pipe2py.modules.pipestrconcat", "pipe_strconcat"))].
Proof.
  split; [discriminate|]. split; [vm_compute; discriminate|].
  split; vm_compute; reflexivity.
Qed.

End StepWitnesses.

(** ** Describe mode *)

Section DescribeFacts.
Import Utils Compile.
Variable py_unicode : json → string.
Variable py_sorted : list (list json) → list (list json).

Lemma getitem_Raise obj key e :
  getitem obj key = Raise e → e = TypeError ∨ ∃ k, e = KeyError k.
Proof.
  destruct obj; cbn; try (intros [= <-]; by left).
  destruct (assoc key items); [done|]. intros [= <-]. eauto.
Qed.

Lemma embedded_type_caught module :
  catch_key_type (embedded_type module)
  = Ok (match embedded_type module with Ok t => Some t | Raise _ => None end).
Proof.
  unfold embedded_type, embed_value.
  destruct (getitem module "conf") as [conf|e] eqn:H1; cbn [rbind].
  2:{ by destruct (getitem_Raise _ _ _ H1) as [->|[k ->]]. }
  destruct (getitem conf "embed") as [em|e] eqn:H2; cbn [rbind].
  2:{ by destruct (getitem_Raise _ _ _ H2) as [->|[k ->]]. }
  destruct (getitem em "value") as [val|e] eqn:H3; cbn [rbind].
  2:{ by destruct (getitem_Raise _ _ _ H3) as [->|[k ->]]. }
  destruct (getitem val "type") as [ty|e] eqn:H4; cbn [rbind]; [done|].
  by destruct (getitem_Raise _ _ _ H4) as [->|[k ->]].
Qed.

Lemma gen_dependencies_Ok (pipe_def : json) (ms : list json) :
  getitem pipe_def "modules" = Ok (JList ms) →
  Forall (λ m, ∃ ty, getitem m "type" = Ok ty) ms →
  gen_dependencies py_unicode pipe_def
  = Ok (List.concat (module_dependencies py_unicode <$> ms)).
Proof.
  intros Hms Hty. unfold gen_dependencies. rewrite Hms. cbn [rbind iterate].
  cut (mapM (λ module,
            ty <- getitem module "type";;
            ety <- catch_key_type (v <- embed_value module;; getitem v "type");;
            Ok (format_pipe py_unicode ty ::
                match ety with
                | Some t => [format_pipe py_unicode t]
                | None => []
                end))
            ms = Ok (module_dependencies py_unicode <$> ms)).
  { by intros ->. }
  clear Hms. induction Hty as [|m ms' [ty Hm] _ IH]; [done|].
  cbn [mapM fmap list_fmap]. rewrite IH. rewrite Hm. cbn [rbind].
  fold (embedded_type m). rewrite embedded_type_caught. cbn [rbind].
  unfold module_dependencies. rewrite Hm. by destruct (embedded_type m).
Qed.

Lemma sorted_set_spec (l : list string) :
  StronglySorted String.le (sorted_set l)
  ∧ NoDup (sorted_set l)
  ∧ ∀ x, x ∈ sorted_set l ↔ x ∈ l.
Proof.
  unfold sorted_set. split_and!.
  - apply StronglySorted_merge_sort; apply _.
  - rewrite merge_sort_Permutation. apply NoDup_elements.
  - intros x. rewrite merge_sort_Permutation, elem_of_elements.
    apply elem_of_list_to_set.
Qed.

Lemma getitem_truthy obj key x : getitem obj key = Ok x → truthy obj = true.
Proof. destruct obj; try done. by destruct items. Qed.

(** C9 (as amended).  With the describe-dependencies flag set, on a pipe
    whose graph sorts and whose inputs can be extracted, and for a
    definition whose [modules] entry is a list of modules that have a type
    each, iterating [build_pipeline] calls no constructor and gives the
    sorted list without duplicates of the names ["pipe" + type] of the
    modules and of their embedded modules -- alone when the describe-input
    flag is not set, in one record together with the inputs when it is. *)
Theorem describe_dependencies_static (context : Context) (p : pipe)
    (pipe_def : json) (σ : interp) (order : list string)
    (inputs : list (list json)) (ms : list json) :
  describe_dependencies context = true →
  Topsort.topological_sort (pipe_graph p) = Ok order →
  extract_input py_sorted pipe_def = Ok inputs →
  getitem pipe_def "modules" = Ok (JList ms) →
  Forall (λ m, ∃ ty, getitem m "type" = Ok ty) ms →
  ∃ deps,
    build_pipeline py_unicode py_sorted context p pipe_def σ
    = (Ok (if describe_input context then Both inputs deps
           else Dependencies deps), σ)
    ∧ StronglySorted String.le deps
    ∧ NoDup deps
    ∧ ∀ x, x ∈ deps ↔
        ∃ m ty, m ∈ ms
          ∧ (getitem m "type" = Ok ty ∨ embedded_type m = Ok ty)
          ∧ x = format_pipe py_unicode ty.
Proof.
  intros Hdd Hsort Hinputs Hms Hty.
  pose proof (gen_dependencies_Ok pipe_def ms Hms Hty) as Hdeps.
  destruct (sorted_set_spec (List.concat (module_dependencies py_unicode <$> ms)))
    as (Hsorted & Hnodup & Hin).
  exists (sorted_set (List.concat (module_dependencies py_unicode <$> ms))).
  split_and!; try done.
  - unfold build_pipeline, sbind, lift, ret, extract_dependencies.
    rewrite Hsort, (getitem_truthy _ _ _ Hms), Hdeps. cbn [rbind].
    rewrite Hinputs. unfold describe. rewrite Hdd, orb_true_r. cbn [negb].
    by destruct (describe_input context).
  - intros x. rewrite Hin. rewrite list_elem_of_In, in_concat. split.
    + intros (l & Hl%list_elem_of_In%list_elem_of_fmap & Hx%list_elem_of_In).
      destruct Hl as (m & -> & Hm). unfold module_dependencies in Hx.
      destruct (getitem m "type") as [ty|] eqn:Hmty; [|inversion Hx].
      apply elem_of_cons in Hx as [->|Hx]; [by exists m, ty; eauto|].
      destruct (embedded_type m) as [t|] eqn:Het; [|inversion Hx].
      apply list_elem_of_singleton in Hx as ->. exists m, t. eauto.
    + intros (m & ty & Hm & Hcase & ->).
      exists (module_dependencies py_unicode m). split.
      * apply list_elem_of_In, list_elem_of_fmap. by exists m.
      * apply list_elem_of_In. unfold module_dependencies.
        rewrite Forall_forall in Hty. destruct (Hty m Hm) as [ty' Hty'].
        rewrite Hty'. destruct Hcase as [Hc|Hc].
        -- rewrite Hc in Hty'. injection Hty' as <-. by left.
        -- rewrite Hc. right. by left.
Qed.

End DescribeFacts.

Section DescribeWitnesses.
Import Utils Compile.

Lemma describe_dependencies_static_witness :
  ∃ deps,
    build_pipeline sample_unicode sample_sorted dependencies_context
      sample_pipe sample_def sample_interp
    = (Ok (Dependencies deps), sample_interp)
    ∧ StronglySorted String.le deps
    ∧ NoDup deps.
Proof.
  destruct (describe_dependencies_static sample_unicode sample_sorted
              dependencies_context sample_pipe sample_def sample_interp
              ["sw_1"; "sw_2"; "sw_4"; "sw_3"] []
              [mk_module "sw-1" "fetch" (JDict []);
               mk_module "sw-2" "split" (JDict []);
               mk_module "sw-3" "output" (JDict []);
               mk_module "sw-4" "union" (JDict []);
               mk_module "alone" "fetch" (JDict [])])
    as (deps & H1 & H2 & H3 & _).
  - reflexivity.
  - vm_compute. reflexivity.
  - vm_compute. reflexivity.
  - reflexivity.
  - repeat constructor; eexists; reflexivity.
  - exists deps. split; [exact H1|]. split; [exact H2|exact H3].
Defined.

Example describe_dependencies_sample :
  (build_pipeline sample_unicode sample_sorted dependencies_context
     sample_pipe sample_def sample_interp).1
  = Ok (Dependencies ["pipefetch"; "pipeoutput"; "pipesplit"; "pipeunion"]).
Proof. vm_compute. reflexivity. Qed.

(** C9, as stated, fails: with both describe flags set the result is not
    the list of names but one record holding the inputs and the list. *)
Lemma describe_both_is_one_record :
  describe_dependencies describe_both_context = true
  ∧ (build_pipeline sample_unicode sample_sorted describe_both_context
       sample_pipe sample_def sample_interp).1
    = Ok (Both [] ["pipefetch"; "pipeoutput"; "pipesplit"; "pipeunion"])
  ∧ ∀ deps, Both [] ["pipefetch"; "pipeoutput"; "pipesplit"; "pipeunion"]
            ≠ Dependencies deps.
Proof.
  split; [reflexivity|]. split; [vm_compute; reflexivity|]. discriminate.
Qed.

(** A definition whose [modules] entry is one module, not a list, is parsed
    (through [listize]), its graph sorts and its inputs can be extracted;
    but [gen_dependencies] iterates the entry itself, that is the keys of
    the module, and the description raises. *)
Example describe_single_module_raises :
  parse_pipe_def single_module_def "single" = Ok single_module_pipe
  ∧ Topsort.topological_sort (pipe_graph single_module_pipe) = Ok []
  ∧ extract_input sample_sorted single_module_def = Ok []
  ∧ build_pipeline sample_unicode sample_sorted dependencies_context
      single_module_pipe single_module_def sample_interp
    = (Raise TypeError, sample_interp).
Proof.
  split; [vm_compute; reflexivity|]. split; [vm_compute; reflexivity|].
  split; vm_compute; reflexivity.
Qed.

End DescribeWitnesses.

(** ** The split stage: attaching consumers *)

Section SplitAttach.
Import PipeSplit.

Lemma attach_all (its : list branch) :
  attach (S (length its)) {| iterators := its |}
  = ((Ok <$> its) ++ [Raise overactivation], {| iterators := [] |}).
Proof.
  induction its as [|it its IH]; [done|].
  change (S (length (it :: its))) with (S (S (length its))).
  cbn [attach] in *. unfold Split_iter at 1. cbn [iterators].
  by rewrite IH.
Qed.

Lemma tee_Ok (iterable : list value) (n : nat) :
  tee iterable (Z.of_nat n)
  = Ok ((λ i, {| branch_index := i; remaining := iterable |}) <$> seq 0 n).
Proof.
  unfold tee. destruct (Z.ltb_spec (Z.of_nat n) 0) as [?|_]; [lia|].
  by rewrite Nat2Z.id.
Qed.

(** C7.  A split constructed with fan-out [n] gives a branch to each of the
    first [n] consumers that attach, no branch twice, and raises the
    [ValueError] of [__iter__] at the attempt after those. *)
Theorem split_overactivation (_INPUT : list value) (n : nat) :
  ∃ self branches,
    pipe_split _INPUT (Z.of_nat n) = Ok self
    ∧ attach (S n) self
      = ((Ok <$> branches) ++ [Raise overactivation], {| iterators := [] |})
    ∧ length branches = n
    ∧ NoDup (branch_index <$> branches)
    ∧ Forall (λ b, remaining b = _INPUT) branches.
Proof.
  set (its := (λ i, {| branch_index := i; remaining := _INPUT |})
              <$> seq 0 n).
  exists {| iterators := its |}, its. split_and!.
  - unfold pipe_split, Split_init. simpl (default _ _). by rewrite tee_Ok.
  - rewrite <-(attach_all its). f_equal. unfold its.
    by rewrite length_fmap, length_seq.
  - unfold its. by rewrite length_fmap, length_seq.
  - unfold its. rewrite <-list_fmap_compose. cbn.
    rewrite list_fmap_id. apply NoDup_seq.
  - unfold its. apply Forall_fmap, Forall_forall. done.
Qed.

(** Later attempts fail in the same way. *)
Lemma split_exhausted_stays :
  Split_iter {| iterators := [] |}
  = (Raise overactivation, {| iterators := [] |}).
Proof. done. Qed.

Example split_default_two (_INPUT : list value) :
  (s <- Split_init _INPUT None;; Ok (length (iterators s))) = Ok 2.
Proof. done. Qed.

Example split_zero (_INPUT : list value) :
  (s <- pipe_split _INPUT 0;; Ok (Split_iter s).1)
  = Ok (Raise overactivation).
Proof. done. Qed.

End SplitAttach.

(** ** The split stage: deep copies *)

Section HeapFacts.
Import PipeSplit.
Implicit Types (h : heap) (o : object) (v x y : value) (l : nat).
Implicit Types (vs : list value) (P : nat → Prop).

Lemma fields_with_fields o vs :
  length vs = length (fields o) → fields (with_fields o vs) = vs.
Proof.
  destruct o as [items|elems]; cbn; [|done].
  rewrite length_fmap. intros Hlen. apply snd_zip. rewrite length_fmap. lia.
Qed.

Lemma tree_of_with_fields o vs (ts : list tree) :
  length vs = length (fields o) → tree_of (with_fields o vs) ts = tree_of o ts.
Proof.
  destruct o as [items|elems]; cbn; [|done].
  rewrite length_fmap. intros Hlen. f_equal. f_equal.
  apply fst_zip. rewrite length_fmap. lia.
Qed.

Lemma fields_blank o : fields (blank o) = [].
Proof. by destruct o. Qed.

Lemma value_ok_mono n n' v : n ≤ n' → value_ok n v → value_ok n' v.
Proof. destruct v; cbn; [done..|lia]. Qed.

Lemma object_ok_mono n n' o : n ≤ n' → object_ok n o → object_ok n' o.
Proof.
  intros Hle Ho. unfold object_ok. eapply Forall_impl; [exact Ho|].
  intros v. by apply value_ok_mono.
Qed.

(** Reachability stays inside a closed set. *)
Lemma reach_closed P h v l :
  closed_in P h → (∀ l', v = Ref l' → P l') → reach h v l → P l.
Proof.
  intros Hcl Hv Hreach. induction Hreach as [l|l o v l' Ho Hin _ IH].
  - by apply Hv.
  - apply IH. intros l'' ->.
    pose proof (Hcl l o (Hv l eq_refl) Ho) as Hall.
    rewrite Forall_forall in Hall. by apply (Hall (Ref l'')).
Qed.

(** The snapshot of a value only depends on a closed set that holds it. *)
Lemma snapshot_agree P h h' v depth :
  closed_in P h → (∀ l, P l → h' !! l = h !! l) →
  (∀ l', v = Ref l' → P l') →
  snapshot depth h' v = snapshot depth h v.
Proof.
  intros Hcl Hagree. revert v.
  induction depth as [|depth IH]; intros v Hv; [by destruct v|].
  destruct v as [| | | |l]; try done. cbn [snapshot].
  rewrite (Hagree l) by (by apply Hv).
  destruct (h !! l) as [o|] eqn:Ho; [|done]. f_equal.
  apply Forall_fmap_ext_1. 
  pose proof (Hcl l o (Hv l eq_refl) Ho) as Hall.
  eapply Forall_impl; [exact Hall|]. intros v' Hv'. cbn. by apply IH.
Qed.

Lemma closed_in_wf h : heap_wf h → closed_in (λ l, l < length h) h.
Proof.
  intros Hwf l o _ Ho. unfold heap_wf in Hwf. rewrite Forall_lookup in Hwf.
  specialize (Hwf l o Ho). unfold object_ok in Hwf.
  eapply Forall_impl; [exact Hwf|]. by intros v Hv l' ->.
Qed.

(** An in-place change outside a closed set is not seen from inside. *)
Lemma snapshot_insert_outside P h v depth lm (o' : object) :
  closed_in P h → (∀ l', v = Ref l' → P l') → ¬ P lm →
  snapshot depth (<[lm := o']> h) v = snapshot depth h v.
Proof.
  intros Hcl Hv Hlm. apply (snapshot_agree P); [done| |done].
  intros l Hl. apply list_lookup_insert_ne. by intros ->.
Qed.

Lemma heap_wf_insert h lm (o' : object) :
  heap_wf h → object_ok (length h) o' → heap_wf (<[lm := o']> h).
Proof.
  intros Hwf Ho'. unfold heap_wf. rewrite length_insert.
  by apply Forall_insert.
Qed.

End HeapFacts.

Section Copy.
Import PipeSplit.
Implicit Types (h : heap) (o : object) (v x y : value) (l : nat).
Implicit Types (vs : list value) (memo : gmap nat nat).

(** The heap the copy starts from. *)
Variable h0 : heap.
Hypothesis h0_wf : heap_wf h0.

Local Abbreviation new_value := (new_value h0).
Local Abbreviation inv := (copy_inv h0).
Local Abbreviation filled := (copy_filled h0).
Local Abbreviation post := (copy_post h0).
Local Abbreviation copies := (copies h0).
Local Abbreviation inv_len := (inv_len h0).
Local Abbreviation inv_old := (inv_old h0).
Local Abbreviation inv_memo := (inv_memo h0).
Local Abbreviation inv_new := (inv_new h0).
Local Abbreviation post_inv := (post_inv h0).
Local Abbreviation post_memo := (post_memo h0).

Lemma rename_mono memo memo' v :
  memo ⊆ memo' → memoized memo v → rename memo' v = rename memo v.
Proof.
  intros Hsub Hv. destruct v as [| | | |l]; try done. cbn.
  destruct (Hv l eq_refl) as [l' Hl]. rewrite Hl.
  by rewrite (lookup_weaken _ _ _ _ Hl Hsub).
Qed.

Lemma memoized_mono memo memo' v :
  memo ⊆ memo' → memoized memo v → memoized memo' v.
Proof.
  intros Hsub Hv l ->. destruct (Hv l eq_refl) as [l' Hl].
  exists l'. by eapply lookup_weaken.
Qed.

Lemma filled_mono memo memo' h h' l l' :
  memo ⊆ memo' → h' !! l' = h !! l' →
  filled memo h l l' → filled memo' h' l l'.
Proof.
  intros Hsub Hh (o & Ho & Hl' & Hall). exists o. split_and!; [done| |].
  - rewrite Hh, Hl'. do 2 f_equal. apply Forall_fmap_ext_1.
    eapply Forall_impl; [exact Hall|]. intros v Hv. cbn.
    symmetry. by apply rename_mono.
  - eapply Forall_impl; [exact Hall|]. intros v. by apply memoized_mono.
Qed.

Lemma post_refl memo h : inv memo h → post memo h memo h.
Proof.
  intros Hinv. split; try done. intros l l' Hl Hn. congruence.
Qed.

Lemma post_trans memo h memo1 h1 memo2 h2 :
  post memo h memo1 h1 → post memo1 h1 memo2 h2 → post memo h memo2 h2.
Proof.
  intros [Hi1 Hm1 Hl1 Hu1 Hf1] [Hi2 Hm2 Hl2 Hu2 Hf2]. split.
  - done.
  - by etrans.
  - lia.
  - intros l' Hl'. rewrite Hu2 by lia. by apply Hu1.
  - intros l l' Hl Hn. destruct (memo1 !! l) as [l1|] eqn:Hl1'.
    + assert (l1 = l') as ->.
      { pose proof (lookup_weaken _ _ _ _ Hl1' Hm2). congruence. }
      destruct (Hf1 l l' Hl1' Hn) as [Hge Hfill]. split; [done|].
      eapply filled_mono; [exact Hm2| |exact Hfill].
      apply Hu2. by apply (inv_memo _ _ Hi1 l l').
    + destruct (Hf2 l l' Hl Hl1') as [Hge Hfill]. split; [lia|done].
Qed.

(** The memo holds fewer objects than the heap has while one of them is
    not in it. *)
Lemma memo_size_lt memo h l :
  inv memo h → l < length h0 → memo !! l = None → size memo < length h0.
Proof.
  intros Hinv Hl Hnone.
  assert (dom memo ⊆ set_seq 0 (length h0) ∖ ({[l]} : gset nat)) as Hsub.
  { intros a [a' Ha]%elem_of_dom. apply elem_of_difference. split.
    - apply elem_of_set_seq. pose proof (inv_memo _ _ Hinv a a' Ha). lia.
    - intros ->%elem_of_singleton. congruence. }
  apply subseteq_size in Hsub. rewrite size_dom in Hsub.
  rewrite size_difference in Hsub.
  - rewrite size_set_seq, size_singleton in Hsub. lia.
  - apply singleton_subseteq_l, elem_of_set_seq. lia.
Qed.

Lemma copy_list_spec copy fuel vs memo h :
  copies copy fuel →
  inv memo h → Forall (value_ok (length h0)) vs →
  length h0 < size memo + fuel →
  ∃ memo' h' ys,
    copy_list copy memo h vs = Some (memo', h', ys)
    ∧ post memo h memo' h'
    ∧ Forall (memoized memo') vs
    ∧ ys = rename memo' <$> vs.
Proof.
  intros Hcopy. revert memo h.
  induction vs as [|v vs IH]; intros memo h Hinv Hvs Hfuel.
  - exists memo, h, []. split_and!; try done. by apply post_refl.
  - apply Forall_cons in Hvs as [Hv Hvs].
    destruct (Hcopy memo h v Hinv Hv Hfuel)
      as (memo1 & h1 & y & Hy & Hpost1 & Hmem1 & ->).
    destruct (IH memo1 h1) as (memo2 & h2 & ys & Hys & Hpost2 & Hmem2 & ->).
    { apply Hpost1. }
    { done. }
    { pose proof (map_subseteq_size _ _ (post_memo _ _ _ _ Hpost1)). lia. }
    exists memo2, h2, (rename memo1 v :: (rename memo2 <$> vs)).
    cbn [copy_list]. rewrite Hy, Hys. split_and!.
    + done.
    + by eapply post_trans.
    + apply Forall_cons. split; [|done].
      eapply memoized_mono; [apply Hpost2|done].
    + cbn [fmap list_fmap]. f_equal.
      symmetry. apply rename_mono; [apply Hpost2|done].
Qed.

Lemma inv_alloc memo h l o :
  inv memo h → l < length h0 → memo !! l = None →
  inv (<[l := length h]> memo) (h ++ [blank o]).
Proof.
  intros [Hlen Hold Hmemo Hnew] Hl Hnone. split.
  - rewrite length_app. lia.
  - intros a Ha. rewrite lookup_app_l by lia. by apply Hold.
  - intros a a'. rewrite length_app. cbn.
    destruct (decide (l = a)) as [->|Hne].
    + rewrite lookup_insert_eq. intros [= <-]. lia.
    + rewrite lookup_insert_ne by done. intros Ha.
      pose proof (Hmemo a a' Ha). lia.
  - intros l' o' Hl' Ho'. rewrite length_app. cbn.
    destruct (decide (l' < length h)) as [Hlt|Hge].
    + rewrite lookup_app_l in Ho' by done.
      eapply Forall_impl; [exact (Hnew l' o' Hl' Ho')|].
      intros [| | | |a]; cbn; try done. lia.
    + rewrite lookup_app_r in Ho' by lia.
      apply list_lookup_singleton_Some in Ho' as [_ <-].
      rewrite fields_blank. constructor.
Qed.

Lemma deepcopy_memo_spec fuel : copies (deepcopy_memo fuel) fuel.
Proof.
  induction fuel as [|fuel IH]; intros memo h x Hinv Hx Hfuel.
  - (* no fuel: everything is in the memo *)
    destruct x as [| | | |l];
      try (eexists memo, h, _; split_and!;
           [done|by apply post_refl|by intros ? [=]|done]).
    destruct (memo !! l) as [l'|] eqn:Hl.
    + exists memo, h, (Ref l'). cbn [deepcopy_memo]. rewrite Hl.
      split_and!; [done|by apply post_refl| |by cbn; rewrite Hl].
      intros ? [= <-]. eauto.
    + pose proof (memo_size_lt memo h l Hinv Hx Hl). lia.
  - destruct x as [| | | |l];
      try (eexists memo, h, _; split_and!;
           [done|by apply post_refl|by intros ? [=]|done]).
    destruct (memo !! l) as [l'|] eqn:Hl.
    + exists memo, h, (Ref l'). cbn [deepcopy_memo]. rewrite Hl.
      split_and!; [done|by apply post_refl| |by cbn; rewrite Hl].
      intros ? [= <-]. eauto.
    + cbn in Hx.
      assert (is_Some (h0 !! l)) as [o Ho] by (by apply lookup_lt_is_Some).
      assert (Hho : h !! l = Some o) by (by rewrite (inv_old _ _ Hinv)).
      assert (Hfields : Forall (value_ok (length h0)) (fields o)).
      { unfold heap_wf in h0_wf. rewrite Forall_lookup in h0_wf.
        exact (h0_wf l o Ho). }
      pose proof (inv_alloc memo h l o Hinv Hx Hl) as Hinv1.
      destruct (copy_list_spec (deepcopy_memo fuel) fuel (fields o)
                  (<[l := length h]> memo) (h ++ [blank o]) IH Hinv1 Hfields)
        as (memo2 & h2 & vs & Hvs & Hpost & Hmem & ->).
      { rewrite map_size_insert_None by done. lia. }
      destruct Hpost as [Hinv2 Hsub2 Hlen2 Hunt2 Hfill2].
      rewrite length_app in Hlen2. cbn in Hlen2.
      assert (Hl2 : memo2 !! l = Some (length h)).
      { eapply lookup_weaken; [|exact Hsub2]. apply lookup_insert_eq. }
      exists memo2,
        (<[length h := with_fields o (rename memo2 <$> fields o)]> h2),
        (Ref (length h)).
      split_and!.
      * cbn [deepcopy_memo]. rewrite Hl, Hho. by rewrite Hvs.
      * destruct Hinv2 as [Hlen Hold Hmemo Hnew]. split.
        -- split.
           ++ by rewrite length_insert.
           ++ intros a Ha. rewrite list_lookup_insert_ne.
              ** by apply Hold.
              ** pose proof (inv_len _ _ Hinv). lia.
           ++ intros a a' Ha. rewrite length_insert. by apply Hmemo.
           ++ intros l' o' Hl' Ho'. rewrite length_insert.
              destruct (decide (l' = length h)) as [->|Hne].
              ** rewrite list_lookup_insert_eq in Ho' by lia.
                 injection Ho' as <-.
                 rewrite fields_with_fields by (by rewrite length_fmap).
                 apply Forall_fmap.
                 eapply Forall_impl; [exact Hmem|].
                 intros [| | | |a] Ha; cbn; try done.
                 destruct (Ha a eq_refl) as [a' Ha']. rewrite Ha'. cbn.
                 pose proof (Hmemo a a' Ha'). lia.
              ** rewrite list_lookup_insert_ne in Ho' by done.
                 by apply (Hnew l' o').
        -- etrans; [|exact Hsub2]. by apply insert_subseteq.
        -- rewrite length_insert. lia.
        -- intros l' Hl'. rewrite list_lookup_insert_ne by lia.
           rewrite Hunt2 by (rewrite length_app; cbn; lia).
           by rewrite lookup_app_l.
        -- intros a a' Ha Hna. destruct (decide (a = l)) as [->|Hne].
           ++ assert (a' = length h) as -> by congruence.
              split; [done|]. exists o. split_and!; [done| |done].
              apply list_lookup_insert_eq. lia.
           ++ destruct (Hfill2 a a' Ha) as [Hge Hfill].
              { by rewrite lookup_insert_ne. }
              rewrite length_app in Hge. cbn in Hge. split; [lia|].
              eapply (filled_mono memo2 memo2); [done| |exact Hfill].
              apply list_lookup_insert_ne. lia.
      * intros ? [= <-]. eauto.
      * cbn. by rewrite Hl2.
Qed.

(** Under a complete memo the copy shows what the original shows. *)
Lemma snapshot_copy memo h v depth :
  inv memo h →
  (∀ l l', memo !! l = Some l' → filled memo h l l') →
  value_ok (length h0) v → memoized memo v →
  snapshot depth h (rename memo v) = snapshot depth h0 v.
Proof.
  intros Hinv Hfilled. revert v.
  induction depth as [|depth IH]; intros v Hv Hmem.
  - destruct v as [| | | |l]; try done. cbn.
    destruct (Hmem l eq_refl) as [l' ->]. done.
  - destruct v as [| | | |l]; try done. cbn [rename].
    destruct (Hmem l eq_refl) as [l' Hl]. rewrite Hl. cbn [snapshot].
    destruct (Hfilled l l' Hl) as (o & Ho & Hl' & Hall).
    rewrite Hl', Ho.
    rewrite fields_with_fields by (by rewrite length_fmap).
    rewrite tree_of_with_fields by (by rewrite length_fmap).
    f_equal. rewrite <-list_fmap_compose. apply Forall_fmap_ext_1.
    assert (Hok : Forall (value_ok (length h0)) (fields o)).
    { unfold heap_wf in h0_wf. rewrite Forall_lookup in h0_wf.
      exact (h0_wf l o Ho). }
    rewrite Forall_forall in Hall, Hok. apply Forall_forall.
    intros v Hin. cbn. apply IH; [by apply Hok|by apply Hall].
Qed.

Lemma inv_start : inv ∅ h0.
Proof.
  split; try done.
  intros l' o Hl' Ho. apply lookup_lt_Some in Ho. lia.
Qed.

(** [deepcopy] returns, and what it returns is a deep copy. *)
Lemma deepcopy_spec x :
  value_ok (length h0) x →
  ∃ h' y, deepcopy h0 x = Some (h', y) ∧ copy_of h0 x h' y.
Proof.
  intros Hx.
  destruct (deepcopy_memo_spec (S (length h0)) ∅ h0 x inv_start Hx)
    as (memo & h' & y & Hcopy & Hpost & Hmem & ->).
  { rewrite map_size_empty. lia. }
  destruct Hpost as [Hinv _ _ _ Hfill].
  exists h', (rename memo x). split.
  { unfold deepcopy. by rewrite Hcopy. }
  pose proof Hinv as [Hlen Hold Hmemo Hnew]. split_and!.
  - done.
  - done.
  - unfold heap_wf. apply Forall_lookup. intros l o Ho.
    destruct (decide (l < length h0)) as [Hlt|Hge].
    + rewrite Hold in Ho by done. unfold heap_wf in h0_wf.
      rewrite Forall_lookup in h0_wf.
      eapply object_ok_mono; [exact Hlen|]. by apply (h0_wf l o).
    + unfold object_ok. eapply Forall_impl; [apply (Hnew l o); [lia|done]|].
      intros [| | | |a]; cbn; try done. lia.
  - destruct x as [| | | |l]; try done. cbn.
    destruct (Hmem l eq_refl) as [l' Hl]. rewrite Hl. cbn.
    pose proof (Hmemo l l' Hl). lia.
  - intros depth. apply snapshot_copy; try done.
    intros l l' Hl. by apply (Hfill l l').
  - intros l'. destruct x as [| | | |l]; try done. cbn.
    destruct (Hmem l eq_refl) as [l'' Hl]. rewrite Hl. intros [= <-].
    pose proof (Hmemo l l'' Hl). lia.
  - intros l o Hl Ho. eapply Forall_impl; [apply (Hnew l o); [lia|done]|].
    intros v Hv l' ->. exact Hv.
Qed.

End Copy.

Section SplitCopies.
Import PipeSplit.
Implicit Types (h : heap) (o : object) (v x y : value) (l : nat).

Lemma closed_in_agree (P : nat → Prop) h h' :
  closed_in P h → (∀ l, P l → h' !! l = h !! l) → closed_in P h'.
Proof.
  intros Hcl Hagree l o Hl Ho. rewrite Hagree in Ho by done.
  by apply (Hcl l o).
Qed.

(** What [next] gives on a branch whose next item is [x]. *)
Lemma branch_next_copy h x (b : branch) (rest : list value) :
  heap_wf h → value_ok (length h) x → remaining b = x :: rest →
  ∃ y h',
    branch_next h b
    = Some (Some (y, h', {| branch_index := branch_index b;
                            remaining := rest |}))
    ∧ copy_of h x h' y.
Proof.
  intros Hwf Hx Hrem.
  destruct (deepcopy_spec h Hwf x Hx) as (h' & y & Hcopy & Hof).
  exists y, h'. split; [|done].
  unfold branch_next. by rewrite Hrem, Hcopy.
Qed.

(** The original is not touched by a change in its copy. *)
Lemma original_unchanged h x h' y lm o depth :
  heap_wf h → value_ok (length h) x → copy_of h x h' y →
  length h ≤ lm →
  snapshot depth (<[lm := o]> h') x = snapshot depth h x.
Proof.
  intros Hwf Hx (Hlen & Hold & _) Hlm.
  apply (snapshot_agree (λ l, l < length h)).
  - by apply closed_in_wf.
  - intros l Hl. rewrite list_lookup_insert_ne by lia. by apply Hold.
  - intros l' ->. exact Hx.
Qed.

Lemma copy_reach h x h' y lm :
  copy_of h x h' y → reach h' y lm → length h ≤ lm < length h'.
Proof.
  intros (_ & _ & _ & Hy & _ & Hfresh & Hcl) Hreach.
  apply (reach_closed (λ l, length h ≤ l < length h') h' y lm Hcl);
    [|done].
  intros l' ->. split; [by apply Hfresh|exact Hy].
Qed.

(** C6.  Two branches of a split that are both at the upstream record [x]
    each deliver a deep copy of it: the copy shows what the record shows
    and shares no object with it or with the other copy.  Changing in
    place an object of the record one branch received changes neither what
    the record of the other branch shows nor the upstream record, whether
    the other branch pulled its record before the change or pulls it
    after. *)
Theorem split_branches_independent (h : heap) (x : value) (bi bj : branch)
    (rest_i rest_j : list value) :
  heap_wf h →
  value_ok (length h) x →
  remaining bi = x :: rest_i →
  remaining bj = x :: rest_j →
  ∃ yi h1 yj h2,
    branch_next h bi
    = Some (Some (yi, h1, {| branch_index := branch_index bi;
                             remaining := rest_i |}))
    ∧ branch_next h1 bj
      = Some (Some (yj, h2, {| branch_index := branch_index bj;
                               remaining := rest_j |}))
    ∧ copy_of h x h1 yi
    ∧ copy_of h1 x h2 yj
    ∧ (∀ depth, snapshot depth h2 yi = snapshot depth h x)
    ∧ (∀ depth, snapshot depth h2 yj = snapshot depth h x)
    ∧ (∀ lm, reach h2 yi lm → ¬ reach h2 yj lm)
    ∧ (∀ lm o depth, reach h2 yi lm →
         snapshot depth (<[lm := o]> h2) yj = snapshot depth h2 yj
         ∧ snapshot depth (<[lm := o]> h2) x = snapshot depth h x)
    ∧ (∀ lm o depth, reach h2 yj lm →
         snapshot depth (<[lm := o]> h2) yi = snapshot depth h2 yi
         ∧ snapshot depth (<[lm := o]> h2) x = snapshot depth h x)
    ∧ (∀ lm o, reach h1 yi lm → object_ok (length h1) o →
         ∃ yj' h2',
           branch_next (<[lm := o]> h1) bj
           = Some (Some (yj', h2', {| branch_index := branch_index bj;
                                      remaining := rest_j |}))
           ∧ ∀ depth, snapshot depth h2' yj' = snapshot depth h x).
Proof.
  intros Hwf Hx Hi Hj.
  destruct (branch_next_copy h x bi rest_i Hwf Hx Hi)
    as (yi & h1 & Hnext1 & Hc1).
  pose proof Hc1 as (Hlen1 & Hold1 & Hwf1 & Hyi & Hsnap1 & Hfresh1 & Hcl1).
  assert (Hx1 : value_ok (length h1) x) by (by eapply value_ok_mono).
  destruct (branch_next_copy h1 x bj rest_j Hwf1 Hx1 Hj)
    as (yj & h2 & Hnext2 & Hc2).
  pose proof Hc2 as (Hlen2 & Hold2 & Hwf2 & Hyj & Hsnap2 & Hfresh2 & Hcl2).
  (* the three regions: the upstream objects, the first copy, the second *)
  assert (Hcl0 : closed_in (λ l, l < length h) h) by (by apply closed_in_wf).
  assert (Hx_h1 : ∀ depth, snapshot depth h1 x = snapshot depth h x).
  { intros depth. apply (snapshot_agree (λ l, l < length h)); [done|done|].
    intros l' ->. exact Hx. }
  assert (Hcl1' : closed_in (λ l, length h ≤ l < length h1) h2).
  { apply (closed_in_agree _ h1); [done|]. intros l Hl. apply Hold2. lia. }
  assert (Hyi1 : ∀ l', yi = Ref l' → length h ≤ l' < length h1).
  { intros l' ->. split; [by apply Hfresh1|exact Hyi]. }
  assert (Hyj2 : ∀ l', yj = Ref l' → length h1 ≤ l' < length h2).
  { intros l' ->. split; [by apply Hfresh2|exact Hyj]. }
  assert (Hreach_i : ∀ lm, reach h2 yi lm → length h ≤ lm < length h1).
  { intros lm. by apply (reach_closed _ h2 yi lm Hcl1'). }
  assert (Hreach_j : ∀ lm, reach h2 yj lm → length h1 ≤ lm < length h2).
  { intros lm. by apply (reach_closed _ h2 yj lm Hcl2). }
  assert (Hyi_h2 : ∀ depth, snapshot depth h2 yi = snapshot depth h1 yi).
  { intros depth.
    apply (snapshot_agree (λ l, length h ≤ l < length h1)); [done| |done].
    intros l Hl. apply Hold2. lia. }
  assert (Hx_h2 : ∀ lm o depth, length h ≤ lm →
            snapshot depth (<[lm := o]> h2) x = snapshot depth h x).
  { intros lm o depth Hlm.
    apply (snapshot_agree (λ l, l < length h)); [done| |].
    - intros l Hl. rewrite list_lookup_insert_ne by lia.
      rewrite Hold2 by lia. by apply Hold1.
    - intros l' ->. exact Hx. }
  exists yi, h1, yj, h2. split_and!; try done.
  - intros depth. by rewrite Hyi_h2.
  - intros depth. by rewrite Hsnap2.
  - intros lm Hri Hrj. apply Hreach_i in Hri. apply Hreach_j in Hrj. lia.
  - intros lm o depth Hri. apply Hreach_i in Hri. split.
    + apply (snapshot_insert_outside (λ l, length h1 ≤ l < length h2));
        [done|done|lia].
    + apply Hx_h2. lia.
  - intros lm o depth Hrj. apply Hreach_j in Hrj. split.
    + apply (snapshot_insert_outside (λ l, length h ≤ l < length h1));
        [done|done|lia].
    + apply Hx_h2. lia.
  - intros lm o Hri Ho.
    pose proof (copy_reach _ _ _ _ _ Hc1 Hri) as Hlm.
    assert (Hwf1' : heap_wf (<[lm := o]> h1)) by (by apply heap_wf_insert).
    assert (Hx1' : value_ok (length (<[lm := o]> h1)) x)
      by (by rewrite length_insert).
    destruct (branch_next_copy _ x bj rest_j Hwf1' Hx1' Hj)
      as (yj' & h2' & Hnext' & Hc').
    exists yj', h2'. split; [done|]. intros depth.
    destruct Hc' as (_ & _ & _ & _ & -> & _).
    by apply (original_unchanged h x h1 yi); [| | |lia].
Qed.

End SplitCopies.

Section SplitWitnesses.
Import PipeSplit.

Lemma sample_heap_wf : heap_wf sample_heap.
Proof. repeat constructor. Qed.

Lemma split_branches_independent_witness :
  ∃ yi h1 yj h2,
    branch_next sample_heap (sample_branch 0)
    = Some (Some (yi, h1, {| branch_index := 0; remaining := [Ref 1] |}))
    ∧ branch_next h1 (sample_branch 1)
      = Some (Some (yj, h2, {| branch_index := 1; remaining := [Ref 1] |}))
    ∧ (∀ depth, snapshot depth h2 yj = snapshot depth sample_heap (Ref 0))
    ∧ ∀ lm o depth, reach h2 yi lm →
        snapshot depth (<[lm := o]> h2) yj = snapshot depth h2 yj.
Proof.
  destruct (split_branches_independent sample_heap (Ref 0) (sample_branch 0)
              (sample_branch 1) [Ref 1] [Ref 1] sample_heap_wf)
    as (yi & h1 & yj & h2 & H1 & H2 & _ & _ & _ & H6 & _ & H8 & _).
  - cbn. lia.
  - reflexivity.
  - reflexivity.
  - exists yi, h1, yj, h2. split; [exact H1|]. split; [exact H2|].
    split; [exact H6|]. intros lm o depth Hr. exact (proj1 (H8 lm o depth Hr)).
Defined.

(** The records [{"x": 1}, {"x": 2}] through a two-way split: the first
    branch takes its first record and sets its [x] to 99; the first record
    of the second branch still has [x = 1]. *)
Example split_two_way_mutation :
  (self <- pipe_split sample_input 2;;
   match attach 2 self with
   | ([Ok b1; Ok b2], _) =>
       match branch_next sample_heap b1 with
       | Some (Some (Ref l1, h1, _)) =>
           match branch_next (<[l1 := ODict [("x", Num 99)]]> h1) b2 with
           | Some (Some (y2, h2, _)) =>
               Ok (snapshot 2 h2 (Ref l1), snapshot 2 h2 y2,
                   snapshot 2 h2 (Ref 0))
           | _ => Raise TypeError
           end
       | _ => Raise TypeError
       end
   | _ => Raise TypeError
   end)
  = Ok (TDict [("x", TAtom (Num 99))], TDict [("x", TAtom (Num 1))],
        TDict [("x", TAtom (Num 1))]).
Proof. vm_compute. reflexivity. Qed.

(** A record that holds a list and itself is copied knot and all. *)
Example deepcopy_knotted :
  deepcopy knotted_heap (Ref 0)
  = Some (knotted_heap ++
          [ODict [("tags", Ref 3); ("self", Ref 2)];
           OList [Text "a"; Ref 3]], Ref 2).
Proof. vm_compute. reflexivity. Qed.

End SplitWitnesses.

(** ** More about [pythonise] *)

Section PythoniseMore.
Import Utils.

Lemma is_ascii_underscore c : is_ascii (underscore replaced c) = is_ascii c.
Proof.
  unfold underscore. case_bool_decide as Hc; [|done].
  apply list_elem_of_In in Hc. cbn in Hc.
  destruct Hc as [<- | [<- | [<- | [] ] ] ]; reflexivity.
Qed.

Lemma all_ascii_translate s : all_ascii (translate s) = all_ascii s.
Proof.
  unfold all_ascii, translate. induction s as [|c s IH]; [done|].
  cbn [map_chars String.list_ascii_of_string forallb].
  by rewrite is_ascii_underscore, IH.
Qed.

Lemma all_ascii_app s t : all_ascii (s +:+ t) = all_ascii s && all_ascii t.
Proof.
  unfold all_ascii. induction s as [|c s IH]; [done|].
  simpl. by rewrite IH, andb_assoc.
Qed.

Lemma encode_ascii_all s :
  encode_ascii s = if all_ascii s then Ok s else Raise UnicodeError.
Proof. done. Qed.

Lemma pythonise_eq (id : string) :
  pythonise id =
    if String.eqb id "" then Raise IndexError
    else if all_ascii id
         then Ok ((if starts_with_digit id then "_" else "") +:+ translate id)
         else Raise UnicodeError.
Proof.
  rewrite pythonise_unfold. destruct id as [|c id]; [done|].
  change (String.eqb (String c id) "") with false. cbn match.
  rewrite encode_ascii_all, all_ascii_app, all_ascii_translate.
  by destruct (starts_with_digit (String c id)).
Qed.

(** X1.  The three outcomes of [pythonise]: an empty id is an [IndexError], an
    id with a character outside ASCII is a [UnicodeError], and any other id
    is translated and, when it begins with a digit, given an underscore in
    front. *)
Theorem pythonise_cases (id : string) :
  pythonise id =
    if String.eqb id "" then Raise IndexError
    else if all_ascii id
         then Ok ((if starts_with_digit id then "_" else "") +:+ translate id)
         else Raise UnicodeError.
Proof. apply pythonise_eq. Qed.

Lemma underscore_idem c :
  underscore replaced (underscore replaced c) = underscore replaced c.
Proof.
  destruct (decide (c ∈ replaced)) as [Hc|Hc].
  - assert (underscore replaced c = "_"%char) as ->; [|reflexivity].
    unfold underscore. by rewrite bool_decide_true.
  - assert (underscore replaced c = c) as H; [|by rewrite !H].
    unfold underscore. by rewrite bool_decide_false.
Qed.

Lemma translate_idem s : translate (translate s) = translate s.
Proof.
  unfold translate. induction s as [|c s IH]; [done|].
  cbn [map_chars]. by rewrite underscore_idem, IH.
Qed.

Lemma starts_with_digit_translate s :
  starts_with_digit (translate s) = starts_with_digit s.
Proof. destruct s as [|c s]; [done|]. apply char_in_underscore. Qed.

Lemma translate_not_replaced s :
  Forall (λ c, c ∉ replaced) (String.list_ascii_of_string (translate s)).
Proof.
  unfold translate. induction s as [|c s IH]; [constructor|].
  cbn [map_chars String.list_ascii_of_string]. constructor; [|done].
  unfold underscore. case_bool_decide; [|done].
  intros Hin. apply list_elem_of_In in Hin. cbn in Hin.
  destruct Hin as [? | [? | [? | [] ] ] ]; discriminate.
Qed.

Lemma pythonise_Ok_inv id r :
  pythonise id = Ok r →
  id ≠ "" ∧ all_ascii id = true
  ∧ r = (if starts_with_digit id then "_" else "") +:+ translate id.
Proof.
  rewrite pythonise_eq. destruct (String.eqb_spec id "") as [->|Hne]; [done|].
  destruct (all_ascii id); [|done]. intros [= <-]. done.
Qed.

(** X2.  [pythonise] is idempotent: a normalised id is its own normalisation.
    The compiler relies on it when it compares the normalised ends of a wire
    with keys that are normalised ids. *)
Theorem pythonise_idempotent (id r : string) :
  pythonise id = Ok r → pythonise r = Ok r.
Proof.
  intros (Hne & Hascii & ->)%pythonise_Ok_inv. rewrite pythonise_eq.
  destruct id as [|c id]; [done|].
  destruct (starts_with_digit (String c id)) eqn:Hd.
  - change ("_" +:+ translate (String c id))
      with (String "_" (translate (String c id))).
    change (String.eqb (String "_" (translate (String c id))) "") with false.
    cbn match.
    change (all_ascii (String "_" (translate (String c id))))
      with (all_ascii (translate (String c id))).
    rewrite all_ascii_translate, Hascii.
    change (starts_with_digit (String "_" (translate (String c id))))
      with false. cbn match.
    change (translate (String "_" (translate (String c id))))
      with (String "_" (translate (translate (String c id)))).
    by rewrite translate_idem.
  - change ("" +:+ translate (String c id)) with (translate (String c id)).
    rewrite all_ascii_translate, Hascii, starts_with_digit_translate, Hd.
    rewrite translate_idem.
    change (translate (String c id))
      with (String (underscore replaced c) (translate id)).
    done.
Qed.

Lemma pythonise_idempotent_witness :
  pythonise "2de0-x/y" = Ok "_2de0_x_y" ∧ pythonise "_2de0_x_y" = Ok "_2de0_x_y".
Proof.
  split; [reflexivity|].
  exact (pythonise_idempotent "2de0-x/y" "_2de0_x_y" eq_refl).
Defined.

(** X3.  What [pythonise] returns is not empty, is ASCII, does not begin with a
    digit and has none of the characters it replaces. *)
Theorem pythonise_friendly (id r : string) :
  pythonise id = Ok r →
  r ≠ ""
  ∧ all_ascii r = true
  ∧ starts_with_digit r = false
  ∧ Forall (λ c, c ∉ replaced) (String.list_ascii_of_string r).
Proof.
  intros (Hne & Hascii & ->)%pythonise_Ok_inv.
  destruct id as [|c id]; [done|].
  destruct (starts_with_digit (String c id)) eqn:Hd.
  - change ("_" +:+ translate (String c id))
      with (String "_" (translate (String c id))).
    split_and!; [done| |done|].
    + change (all_ascii (String "_" (translate (String c id))))
        with (all_ascii (translate (String c id))).
      by rewrite all_ascii_translate.
    + cbn [String.list_ascii_of_string]. constructor.
      * intros Hin. apply list_elem_of_In in Hin. cbn in Hin.
        destruct Hin as [? | [? | [? | [] ] ] ]; discriminate.
      * apply translate_not_replaced.
  - change ("" +:+ translate (String c id)) with (translate (String c id)).
    split_and!.
    + done.
    + by rewrite all_ascii_translate.
    + by rewrite starts_with_digit_translate.
    + apply translate_not_replaced.
Qed.

Lemma pythonise_friendly_witness :
  pythonise "sw-1:a" = Ok "sw_1_a"
  ∧ starts_with_digit "sw_1_a" = false
  ∧ Forall (λ c, c ∉ replaced) (String.list_ascii_of_string "sw_1_a").
Proof.
  destruct (pythonise_friendly "sw-1:a" "sw_1_a" eq_refl) as (_ & _ & H3 & H4).
  split; [reflexivity|]. split; [exact H3|exact H4].
Defined.

End PythoniseMore.


(** ** More about the graph of a parsed pipe *)

Section GraphMore.
Import Utils Compile.
Implicit Types (graph : gmap string (list string)) (m n : string).

Lemma pruned_lookup_Some graph n (v : list string) :
  dict_of (gen_graph3 graph) !! n = Some v ↔
  graph !! n = Some v ∧ ¬ orphan graph n.
Proof.
  rewrite pruned_lookup. destruct (graph !! n) as [value|] eqn:Hg.
  - destruct (keep_node _ _ _) eqn:Hk.
    + split.
      * intros [= <-]. split; [done|]. intros [Hnil Hno].
        rewrite Hg in Hnil. injection Hnil as ->.
        apply keep_node_true in Hk as [?|(m & succs & Hm & Hin)]; [done|].
        apply (Hno m). by exists succs.
      * by intros [[= <-] _].
    + split; [done|]. intros [[= <-] Hno]. destruct Hno.
      apply not_true_iff_false in Hk. split.
      * f_equal. destruct value; [done|]. destruct Hk.
        apply keep_node_true. by left.
      * intros m (succs & Hm & Hin). apply Hk, keep_node_true. eauto.
  - split; [done|]. by intros [? _].
Qed.

Lemma edge_not_orphan graph m n : edge graph m n → ¬ orphan graph m.
Proof.
  intros (succs & Hm & Hin) [Hnil _]. rewrite Hm in Hnil.
  injection Hnil as ->. inversion Hin.
Qed.

Lemma pruned_edge graph m n :
  edge (dict_of (gen_graph3 graph)) m n ↔ edge graph m n.
Proof.
  split.
  - intros (succs & [Hm _]%pruned_lookup_Some & Hin). by exists succs.
  - intros Hedge. pose proof Hedge as (succs & Hm & Hin). exists succs.
    split; [|done]. apply pruned_lookup_Some. split; [done|].
    by eapply edge_not_orphan.
Qed.

(** X4.  Pruning removes the orphans and nothing else: the nodes that stay keep
    their lists, no edge is lost, and a node that an edge points to stays a
    node. *)
Theorem pruning_keeps_edges (graph : gmap string (list string)) :
  (∀ n v, dict_of (gen_graph3 graph) !! n = Some v ↔
          graph !! n = Some v ∧ ¬ orphan graph n)
  ∧ (∀ m n, edge (dict_of (gen_graph3 graph)) m n ↔ edge graph m n)
  ∧ (∀ m n, edge graph m n → is_Some (graph !! n) →
            is_Some (dict_of (gen_graph3 graph) !! n)).
Proof.
  split_and!.
  - apply pruned_lookup_Some.
  - apply pruned_edge.
  - intros m n Hedge [v Hv]. exists v. apply pruned_lookup_Some.
    split; [done|]. intros [_ Hno]. by apply (Hno m).
Qed.

Lemma add_edges_keeps_edge graph (edges : list (string * string)) m n :
  edge graph m n → edge (add_edges graph edges) m n.
Proof.
  intros Hedge. induction edges as [|[k v] edges IH] using rev_ind; [done|].
  rewrite add_edges_snoc. destruct IH as (succs & Hm & Hin).
  destruct (decide (k = m)) as [->|Hne].
  - exists (succs ++ [v]). rewrite lookup_insert_eq, Hm. cbn.
    split; [done|]. apply elem_of_app. by left.
  - exists succs. by rewrite lookup_insert_ne.
Qed.

Lemma add_edges_adds_edge graph (edges : list (string * string)) m n :
  (m, n) ∈ edges → edge (add_edges graph edges) m n.
Proof.
  induction edges as [|[k v] edges IH] using rev_ind; [by inversion 1|].
  rewrite add_edges_snoc. intros [Hin|Hin]%elem_of_app.
  - destruct (IH Hin) as (succs & Hm & Hn).
    destruct (decide (k = m)) as [->|Hne].
    + exists (succs ++ [v]). rewrite lookup_insert_eq, Hm. cbn.
      split; [done|]. apply elem_of_app. by left.
    + exists succs. by rewrite lookup_insert_ne.
  - apply list_elem_of_singleton in Hin. injection Hin as -> ->.
    eexists. rewrite lookup_insert_eq. split; [done|].
    apply elem_of_app. right. by left.
Qed.

Lemma mapM_elem {A B} (f : A → result B) (l : list A) (ys : list B) (x : A) :
  mapM f l = Ok ys → x ∈ l → ∃ y, f x = Ok y ∧ y ∈ ys.
Proof.
  intros HF%mapM_Ok [i Hi]%list_elem_of_lookup.
  destruct (Forall2_lookup_l _ _ _ _ _ HF Hi) as (y & Hy & Hfx).
  exists y. split; [done|]. apply list_elem_of_lookup. eauto.
Qed.

(** What [parse_pipe_def] computes, step by step. *)
Lemma parse_pipe_def_Ok (pipe_def : json) (name : string) (p : pipe) :
  parse_pipe_def pipe_def name = Ok p →
  ∃ g1 g2 ms em ws nm,
    gen_graph1 pipe_def = Ok g1 ∧ gen_graph2 pipe_def = Ok g2
    ∧ gen_modules pipe_def = Ok ms ∧ gen_embedded_modules pipe_def = Ok em
    ∧ gen_wires pipe_def = Ok ws ∧ pythonise name = Ok nm
    ∧ p = {| pipe_name := nm;
             pipe_modules := dict_of em ∪ dict_of ms;
             pipe_embed := dict_of em;
             pipe_graph := dict_of (gen_graph3 (add_edges (dict_of g1) g2));
             pipe_wires := dict_of ws |}.
Proof.
  unfold parse_pipe_def.
  intros (g1 & Hg1 & (g2 & Hg2 & (ms & Hms & (em & Hem & (nm & Hnm &
    (ws & Hws & [= <-])%rbind_Ok)%rbind_Ok)%rbind_Ok)%rbind_Ok)%rbind_Ok
    )%rbind_Ok.
  by exists g1, g2, ms, em, ws, nm.
Qed.

(** X5.  Every wire of the definition is an edge of the graph of the parsed
    pipe, from its source module to its target module. *)
Theorem wires_become_edges (pipe_def : json) (name : string) (p : pipe)
    (ws wire : json) :
  parse_pipe_def pipe_def name = Ok p →
  getitem pipe_def "wires" = Ok ws →
  wire ∈ listize ws →
  ∃ src tgt,
    wire_module wire "src" = Ok src
    ∧ wire_module wire "tgt" = Ok tgt
    ∧ edge (pipe_graph p) src tgt.
Proof.
  intros (g1 & g2 & ms & em & ws' & nm & _ & Hg2 & _ & _ & _ & _ & ->
         )%parse_pipe_def_Ok Hws Hin.
  unfold gen_graph2 in Hg2. rewrite Hws in Hg2. cbn [rbind] in Hg2.
  destruct (mapM_elem _ _ _ _ Hg2 Hin) as ([src tgt] & Hbody & Hpair).
  apply rbind_Ok in Hbody as (s & Hs & (sm & Hsm & (src' & Hsrc & (t & Ht &
    (tm & Htm & (tgt' & Htgt & [= <- <-])%rbind_Ok)%rbind_Ok)%rbind_Ok
    )%rbind_Ok)%rbind_Ok).
  exists src', tgt'. split_and!.
  - unfold wire_module. by rewrite Hs; cbn [rbind]; rewrite Hsm.
  - unfold wire_module. by rewrite Ht; cbn [rbind]; rewrite Htm.
  - cbn [pipe_graph]. apply pruned_edge.
    by apply add_edges_adds_edge.
Qed.

Lemma wires_become_edges_witness :
  ∃ src tgt,
    wire_module (mk_wire "_w3" "sw-2" "_OUTPUT2" "sw-4" "_OTHER") "src" = Ok src
    ∧ wire_module (mk_wire "_w3" "sw-2" "_OUTPUT2" "sw-4" "_OTHER") "tgt"
      = Ok tgt
    ∧ edge (pipe_graph sample_pipe) src tgt.
Proof.
  refine (wires_become_edges sample_def "demo" sample_pipe _ _ _ _ _).
  - vm_compute. reflexivity.
  - reflexivity.
  - cbn [listize]. do 2 right. by left.
Defined.

Lemma gen_embedded_modules_elem (pipe_def : json)
    (em : list (string * json)) (k : string) (e : json) :
  gen_embedded_modules pipe_def = Ok em → (k, e) ∈ em →
  ∃ ms m ty : json,
    getitem pipe_def "modules" = Ok ms ∧ m ∈ listize ms
    ∧ getitem m "type" = Ok ty ∧ json_eq_str ty "loop" = true
    ∧ embed_value m = Ok e ∧ module_key e = Ok k.
Proof.
  unfold gen_embedded_modules.
  intros (ms & Hms & (ys & Hys & [= <-])%rbind_Ok)%rbind_Ok Hin.
  apply mapM_Ok in Hys.
  destruct (Forall2_concat_elem _ _ _ _ Hys Hin)
    as (i & m & y & Hm & _ & Hbody & Hy).
  apply rbind_Ok in Hbody as (ty & Hty & Hbody).
  destruct (json_eq_str ty "loop") eqn:Hloop.
  - apply rbind_Ok in Hbody as (e' & He & (j & Hj & (k' & Hk &
      [= <-])%rbind_Ok)%rbind_Ok).
    apply list_elem_of_singleton in Hy. injection Hy as -> ->.
    exists ms, m, ty. split_and!; try done.
    + apply list_elem_of_lookup. eauto.
    + unfold module_key. by rewrite Hj.
  - injection Hbody as <-. inversion Hy.
Qed.

(** X6.  An embedded module is in the module map of the parsed pipe, under its
    own normalised id and in place of any module with that id, and it is the
    module that a loop module of the definition embeds. *)
Theorem embedded_modules_registered (pipe_def : json) (name : string)
    (p : pipe) (k : string) (e : json) :
  parse_pipe_def pipe_def name = Ok p →
  pipe_embed p !! k = Some e →
  pipe_modules p !! k = Some e
  ∧ ∃ ms m ty : json,
      getitem pipe_def "modules" = Ok ms ∧ m ∈ listize ms
      ∧ getitem m "type" = Ok ty ∧ json_eq_str ty "loop" = true
      ∧ embed_value m = Ok e ∧ module_key e = Ok k.
Proof.
  intros (g1 & g2 & ms & em & ws & nm & _ & _ & _ & Hem & _ & _ & ->
         )%parse_pipe_def_Ok Hk.
  cbn [pipe_embed pipe_modules] in *. split.
  - by apply lookup_union_Some_l.
  - apply dict_of_lookup_Some in Hk. by eapply gen_embedded_modules_elem.
Qed.

Lemma embedded_modules_registered_witness :
  pipe_embed loop_pipe !! "emb"
  = Some (mk_module "emb" "strconcat" (JDict []))
  ∧ pipe_modules loop_pipe !! "emb"
    = Some (mk_module "emb" "strconcat" (JDict [])).
Proof.
  assert (He : pipe_embed loop_pipe !! "emb"
               = Some (mk_module "emb" "strconcat" (JDict [])))
    by (vm_compute; reflexivity).
  split; [exact He|].
  refine (proj1 (embedded_modules_registered loop_def "looping" loop_pipe
                   "emb" _ _ He)).
  vm_compute. reflexivity.
Defined.

(** X7.  When the normalised ids of the modules and of the embedded modules
    are all different, the graph of the parsed pipe has an edge from the
    module a loop embeds to the loop. *)
Theorem loop_depends_on_embedded (pipe_def : json) (name : string)
    (p : pipe) (g1 : list (string * list string)) (ms m ty : json) :
  parse_pipe_def pipe_def name = Ok p →
  gen_graph1 pipe_def = Ok g1 →
  NoDup g1.*1 →
  getitem pipe_def "modules" = Ok ms →
  m ∈ listize ms →
  getitem m "type" = Ok ty →
  json_eq_str ty "loop" = true →
  ∃ e ek k,
    embed_value m = Ok e ∧ module_key e = Ok ek ∧ module_key m = Ok k
    ∧ edge (pipe_graph p) ek k.
Proof.
  intros (g1' & g2 & ms' & em & ws & nm & Hg1' & _ & _ & _ & _ & _ & ->
         )%parse_pipe_def_Ok Hg1 Hnd Hms Hm Hty Hloop.
  rewrite Hg1 in Hg1'. injection Hg1' as <-.
  unfold gen_graph1 in Hg1. rewrite Hms in Hg1. cbn [rbind] in Hg1.
  apply rbind_Ok in Hg1 as (ys & Hys & [= <-]).
  destruct (mapM_elem _ _ _ _ Hys Hm) as (y & Hbody & Hy).
  apply rbind_Ok in Hbody as (i & Hi & (k & Hk & Hbody)%rbind_Ok).
  rewrite Hty in Hbody. cbn [rbind] in Hbody. rewrite Hloop in Hbody.
  apply rbind_Ok in Hbody as (e & He & (ei & Hei & (ek & Hek & Hbody
    )%rbind_Ok)%rbind_Ok).
  rewrite Hi in Hbody. cbn [rbind] in Hbody. rewrite Hk in Hbody.
  cbn [rbind] in Hbody. injection Hbody as <-.
  exists e, ek, k. unfold module_key. rewrite Hi, Hei. cbn [rbind].
  split_and!; try done.
  cbn [pipe_graph]. apply pruned_edge, add_edges_keeps_edge.
  exists [k]. split; [|by left].
  apply dict_of_lookup_Some_2; [done|].
  apply list_elem_of_In, in_concat. exists [(k, []); (ek, [k])].
  split; [by apply list_elem_of_In|]. right. by left.
Qed.

Lemma loop_depends_on_embedded_witness :
  ∃ e ek k,
    embed_value (mk_loop "lp" (mk_module "emb" "strconcat" (JDict []))) = Ok e
    ∧ module_key e = Ok ek
    ∧ module_key (mk_loop "lp" (mk_module "emb" "strconcat" (JDict [])))
      = Ok k
    ∧ edge (pipe_graph loop_pipe) ek k.
Proof.
  refine (loop_depends_on_embedded loop_def "looping" loop_pipe
            [("src", []); ("lp", []); ("emb", ["lp"]); ("out", [])]
            _ _ (JStr "loop") _ _ _ _ _ _ _).
  - vm_compute. reflexivity.
  - reflexivity.
  - cbn. repeat constructor; intros Hin; apply list_elem_of_In in Hin;
      cbn in Hin; intuition discriminate.
  - reflexivity.
  - cbn [listize]. right. by left.
  - reflexivity.
  - reflexivity.
Defined.

(** X8.  Of the modules of the definition that have the same normalised id, the
    last is the one the module map holds, unless an embedded module has
    that id. *)
Theorem last_module_wins (pipe_def : json) (name : string) (p : pipe)
    (before after : list (string * json)) (k : string) (m : json) :
  parse_pipe_def pipe_def name = Ok p →
  gen_modules pipe_def = Ok (before ++ (k, m) :: after) →
  k ∉ after.*1 →
  pipe_embed p !! k = None →
  pipe_modules p !! k = Some m.
Proof.
  intros (g1 & g2 & ms & em & ws & nm & _ & _ & Hms & _ & _ & _ & ->
         )%parse_pipe_def_Ok Hms' Hafter Hemb.
  rewrite Hms in Hms'. injection Hms' as ->.
  cbn [pipe_embed pipe_modules] in *.
  rewrite lookup_union_r by done.
  change (before ++ (k, m) :: after) with (before ++ [(k, m)] ++ after).
  rewrite app_assoc, dict_of_app.
  rewrite (proj2 (dict_of_lookup_None after k) Hafter).
  by rewrite dict_of_snoc, lookup_insert_eq.
Qed.

Lemma last_module_wins_witness :
  pipe_modules colliding_pipe !! "a_b"
  = Some (mk_module "a_b" "output" (JDict [])).
Proof.
  refine (last_module_wins colliding_def "c" colliding_pipe
            [("a_b", mk_module "a-b" "fetch" (JDict []))] [] "a_b" _ _ _ _ _).
  - vm_compute. reflexivity.
  - reflexivity.
  - inversion 1.
  - vm_compute. reflexivity.
Defined.

End GraphMore.
(** ** The script and the pipeline name the same stages *)

Section Modes.
Import Utils Compile.
Implicit Types (steps : gmap string pyval) (items : list (string * json)).

Lemma steps_truthy_nonempty steps :
  steps ≠ ∅ → steps_truthy (Some steps) = true.
Proof.
  intros Hne. cbn. by rewrite bool_decide_eq_false_2.
Qed.

Lemma input_module_loop_modes module_id steps items (a : string) (v : pyval) :
  steps_truthy (Some steps) = true →
  input_module_loop module_id None items (VStr a) = Ok v →
  ∃ name, v = VStr name
    ∧ ∀ root, dict_get steps a = Ok root →
        input_module_loop module_id (Some steps) items root
        = dict_get steps name.
Proof.
  intros Htruthy. induction items as [|[key w] items IH]; cbn [input_module_loop].
  - intros [= <-]. exists a. split; [done|]. by intros root ->.
  - intros (moduleid & -> & (found & -> & Hrest)%rbind_Ok)%rbind_Ok.
    cbn [rbind]. rewrite Htruthy. destruct found.
    + cbn in Hrest. injection Hrest as <-. exists moduleid. by split.
    + by apply IH.
Qed.

(** X9.  For a module that is not embedded, the stage that the pipeline takes as
    the default input is the one stored under the name that the script
    writes for it. *)
Theorem default_input_same_in_script (p : pipe) (module_id : string)
    (steps : gmap string pyval) (root v : pyval) :
  pipe_embed p !! module_id = None →
  steps !! "forever" = Some root →
  _get_input_module p module_id None = Ok v →
  ∃ name, v = VStr name
    ∧ _get_input_module p module_id (Some steps) = dict_get steps name.
Proof.
  intros Hemb Hroot. unfold _get_input_module.
  rewrite (steps_truthy_lookup _ _ _ Hroot).
  change (steps_truthy None) with false. cbn [rbind steps_get].
  unfold dict_get at 1. rewrite Hroot. cbn [rbind].
  rewrite bool_decide_eq_false_2 by (rewrite Hemb; by intros [? ?]).
  intros Hloop.
  destruct (input_module_loop_modes module_id steps _ _ _
              (steps_truthy_lookup _ _ _ Hroot) Hloop) as (name & -> & Hrun).
  exists name. split; [done|]. apply Hrun. unfold dict_get. by rewrite Hroot.
Qed.

Lemma default_input_same_in_script_witness :
  ∃ name, VStr "sw_2" = VStr name
    ∧ _get_input_module sample_pipe "sw_4" (Some steps_before_union)
      = dict_get steps_before_union name.
Proof.
  refine (default_input_same_in_script sample_pipe "sw_4" steps_before_union
            (VStage 0) (VStr "sw_2") _ _ _).
  - vm_compute. reflexivity.
  - vm_compute. reflexivity.
  - vm_compute. reflexivity.
Defined.

(** X10.  The extra inputs that the pipeline passes to a module are, key by key
    and in the same order, the stages stored under the names that the
    script writes; a name that is not assembled yet is a [KeyError]. *)
Theorem extra_inputs_same_in_script (module_id : string)
    (steps : gmap string pyval) (items : list (string * json))
    (named : list (string * pyval)) :
  steps ≠ ∅ →
  wire_kwargs module_id None items = Ok named →
  wire_kwargs module_id (Some steps) items
  = mapM (λ kv, v <- stage_of steps kv.2;; Ok (kv.1, v)) named.
Proof.
  intros Htruthy%steps_truthy_nonempty. revert named.
  induction items as [|[key w] items IH]; intros named; cbn [wire_kwargs].
  - by intros [= <-].
  - intros (moduleid & -> & (found & -> & (yielded & Hy & (rest & Hrest &
      [= <-])%rbind_Ok)%rbind_Ok)%rbind_Ok)%rbind_Ok.
    cbn [rbind]. rewrite (IH _ Hrest). rewrite Htruthy. destruct found.
    + apply rbind_Ok in Hy as (t & Ht & (pipe_id & Hid & Hy)%rbind_Ok).
      rewrite Ht. cbn [rbind]. rewrite Hid. cbn [rbind].
      cbn in Hy. injection Hy as <-. cbn [rbind app mapM fst snd stage_of].
      cbn [steps_get]. destruct (dict_get steps moduleid); cbn [rbind]; [|done].
      by destruct (mapM _ rest).
    + injection Hy as <-. cbn [rbind app].
      by destruct (mapM _ rest).
Qed.

Lemma extra_inputs_same_in_script_witness :
  wire_kwargs "sw_4" (Some steps_before_union)
    (map_to_list (pipe_wires sample_pipe))
  = mapM (λ kv, v <- stage_of steps_before_union kv.2;; Ok (kv.1, v))
      [("_OTHER", VId (VStr "sw_2"))].
Proof.
  refine (extra_inputs_same_in_script "sw_4" steps_before_union _ _ _ _).
  - intros H. apply (f_equal (λ m : gmap string pyval, m !! "forever")) in H.
    vm_compute in H. discriminate H.
  - vm_compute. reflexivity.
Defined.

End Modes.

(** ** The stages that [_get_steps] assembles *)

Section Steps.
Import Utils Compile.
Implicit Types (steps : gmap string pyval) (σ : interp) (p : pipe).

Lemma sbind_Ok {A B} (m : M A) (k : A → M B) σ (b : B) σ' :
  sbind m k σ = (Ok b, σ') → ∃ a σ1, m σ = (Ok a, σ1) ∧ k a σ1 = (Ok b, σ').
Proof.
  unfold sbind. destruct (m σ) as [[a|e] σ1]; [|done]. intros H.
  by exists a, σ1.
Qed.

Lemma lift_Ok {A} (r : result A) σ (a : A) σ' :
  lift r σ = (Ok a, σ') → r = Ok a ∧ σ' = σ.
Proof. unfold lift. by intros [= -> ->]. Qed.

Lemma input_module_loop_value module_id steps items (root v : pyval) :
  steps_truthy (Some steps) = true →
  input_module_loop module_id (Some steps) items root = Ok v →
  v = root ∨ ∃ k, steps !! k = Some v.
Proof.
  intros Htruthy. induction items as [|[key w] items IH]; cbn [input_module_loop].
  - intros [= <-]. by left.
  - intros (moduleid & _ & (found & _ & Hrest)%rbind_Ok)%rbind_Ok.
    rewrite Htruthy in Hrest. destruct found; [|by apply IH].
    right. exists moduleid. cbn in Hrest. unfold dict_get in Hrest.
    destruct (steps !! moduleid); by simplify_eq.
Qed.

Lemma get_pyargs_value (context : Context) p module_id steps
    (args : list pyval) (v : pyval) :
  steps_truthy (Some steps) = true →
  _get_pyargs context p module_id (Some steps) = Ok (Some args) →
  v ∈ args →
  (∃ c, v = VContext c) ∨ (∃ s, v = VStr s) ∨ ∃ k, steps !! k = Some v.
Proof.
  intros Htruthy. unfold _get_pyargs. rewrite Htruthy.
  destruct (negb _); [|done].
  intros (input & Hinput & [= <-])%rbind_Ok Hin.
  apply list_elem_of_In in Hin. cbn in Hin.
  destruct Hin as [<- | [<- | [] ] ]; [left; eauto|].
  unfold _get_input_module in Hinput. rewrite Htruthy in Hinput.
  apply rbind_Ok in Hinput as (root & Hroot & Hinput).
  cbn in Hroot. unfold dict_get in Hroot.
  destruct (steps !! "forever") as [r|] eqn:Hr; [|done].
  injection Hroot as ->.
  destruct (bool_decide _).
  - injection Hinput as <-. right. left. eauto.
  - apply input_module_loop_value in Hinput; [|done].
    destruct Hinput as [->|?]; [|by right; right].
    right. right. eauto.
Qed.

Lemma wire_kwargs_value module_id steps items
    (l : list (string * pyval)) (k : string) (v : pyval) :
  steps_truthy (Some steps) = true →
  wire_kwargs module_id (Some steps) items = Ok l →
  (k, v) ∈ l → ∃ k', steps !! k' = Some v.
Proof.
  intros Htruthy. revert l.
  induction items as [|[key w] items IH]; intros l; cbn [wire_kwargs].
  - intros [= <-]. inversion 1.
  - intros (moduleid & _ & (found & _ & (yielded & Hy & (rest & Hrest &
      [= <-])%rbind_Ok)%rbind_Ok)%rbind_Ok)%rbind_Ok [Hin|Hin]%elem_of_app.
    + destruct found; [|injection Hy as <-; inversion Hin].
      apply rbind_Ok in Hy as (t & _ & (pipe_id & _ & (x & Hx & [= <-]
        )%rbind_Ok)%rbind_Ok).
      apply list_elem_of_singleton in Hin. injection Hin as -> ->.
      rewrite Htruthy in Hx. cbn in Hx. unfold dict_get in Hx.
      exists moduleid. destruct (steps !! moduleid); by simplify_eq.
    + by eapply IH.
Qed.

Lemma gen_pykwargs_value (context : Context) p module_id steps
    (l : list (string * pyval)) (k : string) (v : pyval) :
  steps_truthy (Some steps) = true →
  _gen_pykwargs context p module_id (Some steps) = Ok l →
  (k, v) ∈ l →
  (∃ c, v = VJson c) ∨ (∃ n, v = VInt n) ∨ ∃ k', steps !! k' = Some v.
Proof.
  intros Htruthy. unfold _gen_pykwargs.
  intros (m & _ & (conf & _ & Hrest)%rbind_Ok)%rbind_Ok.
  destruct (negb _).
  - apply rbind_Ok in Hrest as (ty & _ & (extra & Hextra & (emb & Hemb &
      (splits & Hsplits & [= <-])%rbind_Ok)%rbind_Ok)%rbind_Ok).
    intros [Hin|Hin]%elem_of_cons; [injection Hin as -> ->; left; eauto|].
    apply elem_of_app in Hin as [Hin|Hin];
      [right; right; by eapply wire_kwargs_value|].
    apply elem_of_app in Hin as [Hin|Hin].
    + unfold embed_kwargs in Hemb. destruct (json_eq_str ty "loop").
      * apply rbind_Ok in Hemb as (c & _ & (e & _ & (value & _ & (i & _ &
          (pipe_id & _ & (updated & Hup & [= <-])%rbind_Ok)%rbind_Ok
          )%rbind_Ok)%rbind_Ok)%rbind_Ok).
        apply list_elem_of_singleton in Hin. injection Hin as -> ->.
        rewrite Htruthy in Hup. cbn in Hup. unfold dict_get in Hup.
        right. right. exists pipe_id.
        destruct (steps !! pipe_id); by simplify_eq.
      * injection Hemb as <-. inversion Hin.
    + unfold splits_kwargs in Hsplits. rewrite Htruthy in Hsplits.
      destruct (json_eq_str ty "split").
      * apply rbind_Ok in Hsplits as (filtered & _ & [= <-]).
        apply list_elem_of_singleton in Hin. injection Hin as -> ->.
        right. left. eauto.
      * injection Hsplits as <-. inversion Hin.
  - injection Hrest as <-.
    intros Hin%list_elem_of_singleton. injection Hin as -> ->. left. eauto.
Qed.

(** What one module adds: an embedded module is bound to its constructor
    and nothing is called; any other module is one call, whose stage
    arguments are values of [steps]. *)
Lemma gen_steps_Ok (context : Context) p (module_id module_name pipe_name : string)
    steps σ (yielded : list (string * pyval)) σ' :
  steps_truthy (Some steps) = true →
  _gen_steps context p module_id module_name pipe_name steps σ
  = (Ok yielded, σ') →
  importable σ' = importable σ
  ∧ ((is_Some (pipe_embed p !! module_id)
      ∧ yielded = [(module_id, VFunc (import_name module_name, pipe_name))]
      ∧ calls σ' = calls σ ∧ next_object σ' = next_object σ)
     ∨ (pipe_embed p !! module_id = None
        ∧ yielded = [(module_id, VStage (next_object σ))]
        ∧ ∃ args kwargs,
            σ' = record_call σ (import_name module_name, pipe_name) args kwargs
            ∧ ∀ oid, stage_argument
                       {| call_result := next_object σ;
                          call_func := (import_name module_name, pipe_name);
                          call_args := args; call_kwargs := kwargs |} oid →
                     ∃ k, steps !! k = Some (VStage oid))).
Proof.
  intros Htruthy. unfold _gen_steps.
  intros (module & σ1 & Himp & (f & σ2 & Hattr & Hrest)%sbind_Ok)%sbind_Ok.
  unfold import_module in Himp.
  destruct (importable σ !! import_name module_name) as [attrs|]; [|done].
  injection Himp as <- <-. unfold getattr in Hattr. cbn [fst snd] in Hattr.
  destruct (bool_decide (pipe_name ∈ attrs)); [|done].
  injection Hattr as <- <-.
  destruct (bool_decide (is_Some (pipe_embed p !! module_id))) eqn:Hemb.
  - apply bool_decide_eq_true in Hemb.
    apply sbind_Ok in Hrest as ([] & σ3 & Hset & Hret).
    unfold set_name in Hset. injection Hset as <-.
    unfold ret in Hret. injection Hret as <- <-. cbn.
    split; [done|]. left. done.
  - apply bool_decide_eq_false in Hemb.
    apply sbind_Ok in Hrest as (pyargs & σ3 & [Hargs ->]%lift_Ok & Hrest).
    apply sbind_Ok in Hrest as (pykwargs & σ4 & [Hkw ->]%lift_Ok & Hrest).
    apply sbind_Ok in Hrest as (stage & σ5 & Hcall & Hret).
    unfold ret in Hret. injection Hret as <- <-.
    unfold call_function in Hcall. destruct pyargs as [args|]; [|done].
    destruct (multiple_values args (dict_of pykwargs)); [done|].
    injection Hcall as <- <-. split; [done|]. right.
    split; [by apply eq_None_not_Some|]. split; [done|].
    exists args, (dict_of pykwargs). split; [done|].
    intros oid [Hin|[k Hk] ]; cbn [call_args call_kwargs] in *.
    + destruct (get_pyargs_value _ _ _ _ _ _ Htruthy Hargs Hin)
        as [ [? ?] | [ [? ?] | ?] ]; done.
    + apply dict_of_lookup_Some in Hk.
      destruct (gen_pykwargs_value _ _ _ _ _ _ _ Htruthy Hkw Hk)
        as [ [? ?] | [ [? ?] | ?] ]; done.
Qed.

Lemma steps_truthy_insert steps (k : string) (v : pyval) :
  steps_truthy (Some (<[k := v]> steps)) = true.
Proof.
  apply (steps_truthy_lookup _ k v). by rewrite lookup_insert_eq.
Qed.

Lemma constructors_cons p (module_id module_name pipe_name : string)
    (zipped : list (string * result string * result string)) :
  constructors p ((module_id, Ok module_name, Ok pipe_name) :: zipped)
  = if bool_decide (is_Some (pipe_embed p !! module_id))
    then constructors p zipped
    else (import_name module_name, pipe_name) :: constructors p zipped.
Proof.
  unfold constructors. cbn [omap list_omap]. by destruct (bool_decide _).
Qed.

(** The loop of [_get_steps], from any steps that hold earlier stages. *)
Lemma get_steps_loop (context : Context) p
    (zipped : list (string * result string * result string))
    (lo : nat) steps σ steps' σ' :
  steps_truthy (Some steps) = true →
  lo ≤ next_object σ →
  (∀ k v, steps !! k = Some v → stage_in lo (next_object σ) v) →
  foldS (λ steps '(module_id, module_name, pipe_name),
           module_name <~ lift module_name;;
           pipe_name <~ lift pipe_name;;
           yielded <~ _gen_steps context p module_id module_name
                                 pipe_name steps;;
           ret (dict_of yielded ∪ steps)) steps zipped σ = (Ok steps', σ') →
  importable σ' = importable σ
  ∧ (∀ k, is_Some (steps' !! k) ↔ is_Some (steps !! k) ∨ k ∈ zipped.*1.*1)
  ∧ ∃ cs,
      calls σ' = calls σ ++ cs
      ∧ next_object σ' = next_object σ + length cs
      ∧ call_result <$> cs = seq (next_object σ) (length cs)
      ∧ call_func <$> cs = constructors p zipped
      ∧ ∀ c oid, c ∈ cs → stage_argument c oid → lo ≤ oid < call_result c.
Proof.
  revert steps σ. induction zipped as [|[[module_id mn] pn] zipped IH];
    intros steps σ Htruthy Hlo Hin; cbn [foldS].
  - unfold ret. intros [= <- <-]. split; [done|]. split.
    + intros k. cbn. split; [by left|]. intros [?|Hk]; [done|inversion Hk].
    + exists []. rewrite app_nil_r. cbn.
      split; [done|]. split; [lia|]. split; [done|]. split; [done|].
      intros c oid Hc. inversion Hc.
  - intros (steps1 & σ1 & Hbody & Hfold)%sbind_Ok.
    apply sbind_Ok in Hbody as (module_name & σa & [-> ->]%lift_Ok & Hbody).
    apply sbind_Ok in Hbody as (pipe_name & σb & [-> ->]%lift_Ok & Hbody).
    apply sbind_Ok in Hbody as (yielded & σc & Hgen & Hret).
    unfold ret in Hret. injection Hret as <- <-.
    destruct (gen_steps_Ok _ _ _ _ _ _ _ _ _ Htruthy Hgen) as [Himp Hcases].
    destruct Hcases as [(Hemb & -> & Hcalls & Hnext)
                       |(Hemb & -> & args & kwargs & -> & Hargs)].
    + change (dict_of [(module_id, VFunc (import_name module_name, pipe_name))])
        with (<[module_id := VFunc (import_name module_name, pipe_name)]>
                (∅ : gmap string pyval)) in Hfold.
      rewrite <- insert_union_l, (left_id_L ∅ (∪)) in Hfold.
      apply IH in Hfold as (Himp' & Hkeys & cs & Hcs & Hn & Hres & Hfun & Hord).
      * split; [congruence|]. split.
        { intros k. rewrite Hkeys, lookup_insert_is_Some. cbn.
          rewrite elem_of_cons. destruct (decide (module_id = k)); naive_solver. }
        exists cs. rewrite Hcs, Hn, Hres, Hcalls, Hnext.
        split_and!; try done.
        rewrite constructors_cons, bool_decide_eq_true_2 by done.
        exact Hfun.
      * apply steps_truthy_insert.
      * by rewrite Hnext.
      * intros k v. rewrite Hnext. rewrite lookup_insert_Some.
        intros [ [_ <-] | [_ Hk] ]; [by intros oid|by eapply Hin].
    + change (dict_of [(module_id, VStage (next_object σ))])
        with (<[module_id := VStage (next_object σ)]>
                (∅ : gmap string pyval)) in Hfold.
      rewrite <- insert_union_l, (left_id_L ∅ (∪)) in Hfold.
      apply IH in Hfold as (Himp' & Hkeys & cs & Hcs & Hn & Hres & Hfun & Hord).
      * split; [by rewrite Himp'|]. split.
        { intros k. rewrite Hkeys, lookup_insert_is_Some. cbn.
          rewrite elem_of_cons. destruct (decide (module_id = k)); naive_solver. }
        cbn [record_call calls next_object] in *.
        eexists (_ :: cs). rewrite Hcs, <- app_assoc. cbn [app].
        split; [done|]. split; [cbn; lia|]. split.
        { cbn [fmap list_fmap length seq call_result]. by rewrite Hres. }
        split.
        { rewrite constructors_cons.
          rewrite bool_decide_eq_false_2 by (rewrite Hemb; by intros [? ?]).
          cbn [fmap list_fmap call_func]. f_equal. exact Hfun. }
        intros c oid [->|Hc]%elem_of_cons Harg.
        -- cbn [call_result]. destruct (Hargs oid Harg) as [k Hk].
           by apply (Hin k _ Hk oid).
        -- apply Hord; done.
      * apply steps_truthy_insert.
      * cbn [record_call next_object]. lia.
      * intros k v. cbn [record_call next_object]. rewrite lookup_insert_Some.
        intros [ [_ <-] | [_ Hk] ] oid.
        -- intros [= <-]. lia.
        -- intros ->. specialize (Hin k _ Hk oid eq_refl). lia.
Qed.

Lemma get_steps_Ok (context : Context) p
    (zipped : list (string * result string * result string)) σ steps' σ' :
  _get_steps context p zipped σ = (Ok steps', σ') →
  importable σ' = importable σ
  ∧ (∀ k, is_Some (steps' !! k) ↔ k = "forever" ∨ k ∈ zipped.*1.*1)
  ∧ ∃ cs,
      calls σ' = calls σ ++ cs
      ∧ next_object σ' = next_object σ + length cs
      ∧ call_result <$> cs = seq (next_object σ) (length cs)
      ∧ call_func <$> cs = pipe_forever :: constructors p zipped
      ∧ ∀ c oid, c ∈ cs → stage_argument c oid →
                 next_object σ ≤ oid < call_result c.
Proof.
  unfold _get_steps. intros (forever & σ1 & Hcall & Hfold)%sbind_Ok.
  unfold call_function in Hcall. cbn in Hcall. injection Hcall as <- <-.
  apply (get_steps_loop _ _ _ (next_object σ)) in Hfold
    as (Himp & Hkeys & cs & Hcs & Hn & Hres & Hfun & Hord).
  - cbn [record_call calls next_object importable] in *.
    split; [done|]. split.
    + intros k. rewrite Hkeys, lookup_singleton_is_Some. naive_solver.
    + eexists (_ :: cs). rewrite Hcs, <- app_assoc. cbn [app].
      split; [done|]. split; [cbn; lia|]. split.
      { cbn [fmap list_fmap length seq call_result]. by rewrite Hres. }
      split; [by cbn [fmap list_fmap call_func]; rewrite Hfun|].
      intros c oid [->|Hc]%elem_of_cons Harg; [|by apply Hord].
      destruct Harg as [Hin|[k Hk] ].
      * cbn in Hin. inversion Hin.
      * cbn [call_kwargs] in Hk. by rewrite lookup_empty in Hk.
  - apply (steps_truthy_lookup _ "forever" (VStage (next_object σ))).
    by rewrite lookup_singleton_eq.
  - cbn. lia.
  - intros k v [_ <-]%lookup_singleton_Some oid [= <-]. cbn. lia.
Qed.

(** X11.  The steps that [_get_steps] returns are never empty: their keys are
    [forever] and the ids of the zipped modules. *)
Theorem get_steps_keys (context : Context) (p : pipe)
    (zipped : list (string * result string * result string))
    (σ σ' : interp) (steps : gmap string pyval) :
  _get_steps context p zipped σ = (Ok steps, σ') →
  steps_truthy (Some steps) = true
  ∧ ∀ k, is_Some (steps !! k) ↔ k = "forever" ∨ k ∈ zipped.*1.*1.
Proof.
  intros (_ & Hkeys & _)%get_steps_Ok. split; [|done].
  destruct (proj2 (Hkeys "forever")) as [v Hv]; [by left|].
  by eapply steps_truthy_lookup.
Qed.

Lemma get_steps_keys_witness :
  steps_truthy (Some sample_steps) = true
  ∧ ∀ k, is_Some (sample_steps !! k) ↔
         k = "forever" ∨ k ∈ sample_zipped.*1.*1.
Proof.
  refine (get_steps_keys run_context sample_pipe sample_zipped sample_interp
            sample_interp_after sample_steps _).
  vm_compute. reflexivity.
Defined.

(** X12.  [_get_steps] imports nothing new and calls one constructor for
    [forever] and then one for each module that is not embedded, in the
    order of [zipped]; every stage among the positional and keyword
    arguments of a call is what an earlier call of the same run
    returned. *)
Theorem stages_assembled_in_order (context : Context) (p : pipe)
    (zipped : list (string * result string * result string))
    (σ σ' : interp) (steps : gmap string pyval) :
  _get_steps context p zipped σ = (Ok steps, σ') →
  importable σ' = importable σ
  ∧ ∃ cs,
      calls σ' = calls σ ++ cs
      ∧ call_func <$> cs = pipe_forever :: constructors p zipped
      ∧ ∀ cs1 c cs2 oid,
          cs = cs1 ++ c :: cs2 → stage_argument c oid →
          oid ∈ call_result <$> cs1.
Proof.
  intros (Himp & _ & cs & Hcs & _ & Hres & Hfun & Hord)%get_steps_Ok.
  split; [done|]. exists cs. split; [done|]. split; [done|].
  intros cs1 c cs2 oid -> Harg.
  destruct (Hord c oid) as [Hlo Hhi]; [|done|].
  { apply elem_of_app. right. by left. }
  rewrite fmap_app, length_app, seq_app in Hres.
  apply app_inj_1 in Hres as [Hres1 Hres2];
    [|by rewrite length_fmap, length_seq].
  cbn [fmap list_fmap length seq] in Hres2. injection Hres2 as Hc _.
  rewrite Hres1. apply elem_of_seq. lia.
Qed.

Lemma stages_assembled_in_order_witness :
  importable sample_interp_after = importable sample_interp
  ∧ ∃ cs,
      calls sample_interp_after = calls sample_interp ++ cs
      ∧ call_func <$> cs = pipe_forever :: constructors sample_pipe sample_zipped
      ∧ ∀ cs1 c cs2 oid,
          cs = cs1 ++ c :: cs2 → stage_argument c oid →
          oid ∈ call_result <$> cs1.
Proof.
  refine (stages_assembled_in_order run_context sample_pipe sample_zipped
            sample_interp sample_interp_after sample_steps _).
  vm_compute. reflexivity.
Defined.

(** The constructors of the sample pipe. *)
Example sample_constructors :
  pipe_forever :: constructors sample_pipe sample_zipped
  = [("pipe2py.modules.pipeforever", "pipe_forever");
     ("pipe2py.modules.pipefetch", "pipe_fetch");
     ("pipe2py.modules.pipesplit", "pipe_split");
     ("pipe2py.modules.pipeunion", "pipe_union");
     ("pipe2py.modules.pipeoutput", "pipe_output")].
Proof. vm_compute. reflexivity. Qed.

(** X13.  Under a describing context no stage can be assembled: the keyword
    arguments are the configuration alone, there are no positional
    arguments to unpack, and the constructor is not called. *)
Theorem describing_context_assembles_nothing (context : Context) (p : pipe)
    (module_id module_name pipe_name : string) (steps : gmap string pyval)
    (σ : interp) (attrs : list string) (m conf : json) :
  describe context = true →
  steps ≠ ∅ →
  pipe_embed p !! module_id = None →
  importable σ !! import_name module_name = Some attrs →
  pipe_name ∈ attrs →
  pipe_modules p !! module_id = Some m →
  getitem m "conf" = Ok conf →
  _get_pyargs context p module_id (Some steps) = Ok None
  ∧ _gen_pykwargs context p module_id (Some steps) = Ok [("conf", VJson conf)]
  ∧ _gen_steps context p module_id module_name pipe_name steps σ
    = (Raise TypeError, σ).
Proof.
  intros Hdesc Hne Hemb Himp Hattr Hm Hconf.
  assert (Htruthy : steps_truthy (Some steps) = true).
  { cbn. by rewrite bool_decide_eq_false_2. }
  assert (Hargs : _get_pyargs context p module_id (Some steps) = Ok None).
  { unfold _get_pyargs. by rewrite Hdesc, Htruthy. }
  assert (Hkw : _gen_pykwargs context p module_id (Some steps)
                = Ok [("conf", VJson conf)]).
  { unfold _gen_pykwargs, dict_get. rewrite Hm. cbn [rbind].
    rewrite Hconf. cbn [rbind]. by rewrite Hdesc, Htruthy. }
  split; [done|]. split; [done|].
  unfold _gen_steps, sbind, import_module, getattr. rewrite Himp.
  cbn [fst snd]. rewrite bool_decide_eq_true_2 by done.
  rewrite bool_decide_eq_false_2 by (rewrite Hemb; by intros [? ?]).
  unfold lift. by rewrite Hargs, Hkw.
Qed.

Lemma describing_context_assembles_nothing_witness :
  _get_pyargs dependencies_context sample_pipe "sw_1"
    (Some (steps_after_first "x")) = Ok None
  ∧ _gen_pykwargs dependencies_context sample_pipe "sw_1"
      (Some (steps_after_first "x")) = Ok [("conf", VJson (JDict []))]
  ∧ _gen_steps dependencies_context sample_pipe "sw_1" "pipefetch" "pipe_fetch"
      (steps_after_first "x") sample_interp
    = (Raise TypeError, sample_interp).
Proof.
  refine (describing_context_assembles_nothing dependencies_context sample_pipe
            "sw_1" "pipefetch" "pipe_fetch" (steps_after_first "x")
            sample_interp ["pipe_fetch"] (mk_module "sw-1" "fetch" (JDict []))
            (JDict []) _ _ _ _ _ _ _).
  - reflexivity.
  - intros H. apply (f_equal (λ m : gmap string pyval, m !! "forever")) in H.
    vm_compute in H. discriminate H.
  - vm_compute. reflexivity.
  - vm_compute. reflexivity.
  - by left.
  - vm_compute. reflexivity.
  - reflexivity.
Defined.

End Steps.

(** ** Names of modules and where they are imported from *)

Section Names.
Import Utils Compile.

Lemma prefix_inv (s t : string) :
  String.prefix s t = true → ∃ r, t = s +:+ r.
Proof.
  revert t. induction s as [|a s IH]; intros t; [by exists t|].
  destruct t as [|b t]; [done|]. cbn.
  destruct (Ascii.ascii_dec a b) as [->|]; [|done].
  intros [r ->]%IH. by exists r.
Qed.

Lemma prefix_app (s r : string) : String.prefix s (s +:+ r) = true.
Proof.
  induction s as [|a s IH]; [apply prefix_empty|].
  change (String a s +:+ r) with (String a (s +:+ r)).
  cbn [String.prefix]. destruct (Ascii.ascii_dec a a); [exact IH|done].
Qed.

(** X14.  A module whose type begins with [pipe:] is a sub-pipeline: both of its
    names are the normalised type, which begins with [pipe_], so that it is
    imported from [pipe2py.pypipelines].  Any other module is named
    [pipe<type>] and [pipe_<type>], and it is imported from
    [pipe2py.modules] unless its type begins with an underscore. *)
Theorem module_names_and_import (p : pipe) (module_id : string) (m : json)
    (ty : string) :
  pipe_modules p !! module_id = Some m →
  getitem m "type" = Ok (JStr ty) →
  if String.prefix "pipe:" ty then
    gen_name p "module" module_id = pythonise ty
    ∧ gen_name p "pipe" module_id = pythonise ty
    ∧ ∀ name, pythonise ty = Ok name →
        String.prefix "pipe_" name = true
        ∧ import_name name = "pipe2py.pypipelines." +:+ name
  else
    gen_name p "module" module_id = Ok ("pipe" +:+ ty)
    ∧ gen_name p "pipe" module_id = Ok ("pipe_" +:+ ty)
    ∧ import_name ("pipe" +:+ ty)
      = (if String.prefix "_" ty then "pipe2py.pypipelines."
         else "pipe2py.modules.") +:+ "pipe" +:+ ty.
Proof.
  intros Hm Hty. unfold gen_name, dict_get. rewrite Hm. cbn [rbind].
  rewrite Hty. cbn [rbind as_str].
  destruct (String.prefix "pipe:" ty) eqn:Hpre.
  - split; [done|]. split; [done|]. intros name Hname.
    apply prefix_inv in Hpre as [r ->]. apply pythonise_Ok in Hname.
    assert (Hpipe : String.prefix "pipe_" name = true).
    { assert (name = "pipe_" +:+ translate r) as ->
        by (rewrite Hname; reflexivity).
      apply prefix_app. }
    split; [done|]. unfold import_name. by rewrite Hpipe.
  - split; [done|]. split; [done|]. unfold import_name.
    change (String.prefix "pipe_" ("pipe" +:+ ty)) with (String.prefix "_" ty).
    by destruct (String.prefix "_" ty).
Qed.

Lemma module_names_and_import_witness :
  gen_name sample_pipe "module" "sw_1" = Ok ("pipe" +:+ "fetch")
  ∧ gen_name sample_pipe "pipe" "sw_1" = Ok ("pipe_" +:+ "fetch")
  ∧ import_name ("pipe" +:+ "fetch") = "pipe2py.modules." +:+ "pipe" +:+ "fetch".
Proof.
  refine (module_names_and_import sample_pipe "sw_1"
            (mk_module "sw-1" "fetch" (JDict [])) "fetch" _ _).
  - vm_compute. reflexivity.
  - reflexivity.
Defined.

End Names.

(** ** The inputs of a pipe *)

Section Inputs.
Import Utils.

Lemma mapM_Raise {A B} (f : A → result B) (l : list A) (x : A) (e : exn) :
  x ∈ l → f x = Raise e → ∃ e', mapM f l = Raise e'.
Proof.
  induction l as [|a l IH]; [by inversion 1|].
  intros [->|Hin]%elem_of_cons Hx; cbn [mapM].
  - rewrite Hx. by exists e.
  - destruct (f a); [|by eexists]. cbn [rbind].
    destruct (IH Hin Hx) as [e' ->]. by exists e'.
Qed.

Lemma mapM_fields_Ok (f : string → result json) (l : list json) :
  mapM f ["position"; "name"; "prompt"] = Ok l →
  ∃ a b c, f "position" = Ok a ∧ f "name" = Ok b ∧ f "prompt" = Ok c
           ∧ l = [a; b; c].
Proof.
  cbn [mapM]. intros (a & Ha & (l1 & (b & Hb & (l2 & (c & Hc & [= <-]
    )%rbind_Ok & [= <-])%rbind_Ok)%rbind_Ok & [= <-])%rbind_Ok)%rbind_Ok.
  by exists a, b, c.
Qed.

(** What [gen_input] does for one module. *)
Lemma gen_input_module (module : json) (y : list (list json)) :
  (module_confs <- catch_key_type (mapM (λ x,
       conf <- getitem module "conf";; f <- getitem conf x;;
       getitem f "value") ["position"; "name"; "prompt"]);;
   match module_confs with
   | None => Ok []
   | Some module_confs =>
       extra <- mapM (λ x,
           conf <- getitem module "conf";; d <- getitem conf "default";;
           getitem d x) ["type"; "value"];;
       Ok [module_confs ++ extra]
   end) = Ok y →
  ∀ t, t ∈ y ↔ input_tuple module t.
Proof.
  change (λ x, conf <- getitem module "conf";; f <- getitem conf x;;
               getitem f "value") with (conf_value module).
  change (λ x, conf <- getitem module "conf";; d <- getitem conf "default";;
               getitem d x) with (conf_default module).
  intros (confs & Hconfs & Hy)%rbind_Ok t.
  destruct (mapM (conf_value module) _) as [l|e] eqn:Hfields.
  - injection Hconfs as <-.
    apply mapM_fields_Ok in Hfields as (a & b & c & Ha & Hb & Hc & ->).
    apply rbind_Ok in Hy as (extra & Hextra & [= <-]).
    cbn [mapM] in Hextra.
    apply rbind_Ok in Hextra as (ty & Hty & (l1 & (v & Hv & [= <-]
      )%rbind_Ok & [= <-])%rbind_Ok).
    rewrite list_elem_of_singleton. split.
    + intros ->. by exists a, b, c, ty, v.
    + intros (a' & b' & c' & ty' & v' & Ha' & Hb' & Hc' & Hty' & Hv' & ->).
      congruence.
  - assert (confs = None) as ->.
    { destruct e; cbn in Hconfs; congruence. }
    injection Hy as <-. split; [inversion 1|].
    intros (a' & b' & c' & ty' & v' & Ha' & Hb' & Hc' & _).
    cbn [mapM] in Hfields. rewrite Ha', Hb', Hc' in Hfields. done.
Qed.

(** X15.  The tuples that [gen_input] yields are those of the modules that have
    the three fields [position], [name] and [prompt] with a value each:
    the three values, then the type and the value of the default. *)
Theorem gen_input_entries (pipe_def : json) (ms : list json)
    (tuples : list (list json)) :
  getitem pipe_def "modules" = Ok (JList ms) →
  gen_input pipe_def = Ok tuples →
  ∀ t, t ∈ tuples ↔ ∃ m, m ∈ ms ∧ input_tuple m t.
Proof.
  intros Hms. unfold gen_input. rewrite Hms. cbn [rbind iterate].
  intros (yielded & Hy & [= <-])%rbind_Ok t.
  apply mapM_Ok in Hy. split.
  - intros Hin.
    destruct (Forall2_concat_elem _ _ _ _ Hy Hin)
      as (i & m & y & Hm & _ & Hbody & Ht).
    exists m. split; [apply list_elem_of_lookup; eauto|].
    by apply (gen_input_module m y Hbody).
  - intros (m & [i Hi]%list_elem_of_lookup & Ht).
    destruct (Forall2_lookup_l _ _ _ _ _ Hy Hi) as (y & Hyi & Hbody).
    apply list_elem_of_In, in_concat. exists y. split.
    + apply list_elem_of_In, list_elem_of_lookup. eauto.
    + apply list_elem_of_In. by apply (gen_input_module m y Hbody).
Qed.

Lemma gen_input_entries_witness :
  gen_input sample_input_def
  = Ok [[JNum 1; JStr "q"; JStr "Query"; JStr "text"; JStr "cats"]]
  ∧ ∀ t, t ∈ [[JNum 1; JStr "q"; JStr "Query"; JStr "text"; JStr "cats"]] ↔
      ∃ m, m ∈ [mk_module "a" "fetch" (JDict []);
                mk_input "in" [("default", JDict [("type", JStr "text");
                                                  ("value", JStr "cats")])]]
           ∧ input_tuple m t.
Proof.
  split; [reflexivity|].
  refine (gen_input_entries sample_input_def _ _ _ _).
  - reflexivity.
  - reflexivity.
Defined.

(** X16.  An input module without a default is not skipped: the [KeyError] of
    the missing default is outside the [try], so that the inputs of the
    pipe cannot be extracted at all. *)
Theorem input_without_default_raises (pipe_def : json) (ms : list json)
    (m : json) (position name prompt : json) (e : exn) :
  getitem pipe_def "modules" = Ok (JList ms) →
  m ∈ ms →
  conf_value m "position" = Ok position →
  conf_value m "name" = Ok name →
  conf_value m "prompt" = Ok prompt →
  conf_default m "type" = Raise e →
  ∃ e', gen_input pipe_def = Raise e'
        ∧ ∀ py_sorted, extract_input py_sorted pipe_def = Raise e'.
Proof.
  intros Hms Hm Hpos Hname Hprompt Hdefault.
  assert (∃ e', gen_input pipe_def = Raise e') as [e' He'].
  { unfold gen_input. rewrite Hms. cbn [rbind iterate].
    match goal with |- ∃ e', rbind (mapM ?f ms) _ = _ =>
      destruct (mapM_Raise f ms m e Hm) as [e' ->] end; [|by exists e'].
    change (λ x, conf <- getitem m "conf";; f <- getitem conf x;;
                 getitem f "value") with (conf_value m).
    change (λ x, conf <- getitem m "conf";; d <- getitem conf "default";;
                 getitem d x) with (conf_default m).
    cbn [mapM]. rewrite Hpos, Hname, Hprompt. cbn [rbind catch_key_type].
    by rewrite Hdefault. }
  exists e'. split; [done|]. intros py_sorted. unfold extract_input.
  rewrite (getitem_truthy _ _ _ Hms). by rewrite He'.
Qed.

Lemma input_without_default_raises_witness :
  ∃ e', gen_input (mk_pipe_def [mk_input "in" []] []) = Raise e'
        ∧ ∀ py_sorted,
            extract_input py_sorted (mk_pipe_def [mk_input "in" []] [])
            = Raise e'.
Proof.
  refine (input_without_default_raises (mk_pipe_def [mk_input "in" []] [])
            [mk_input "in" []] (mk_input "in" []) (JNum 1) (JStr "q")
            (JStr "Query") (KeyError "default") _ _ _ _ _ _).
  - reflexivity.
  - by left.
  - reflexivity.
  - reflexivity.
  - reflexivity.
  - reflexivity.
Defined.

End Inputs.

(** ** Items and contents *)

Section Contents.
Import Utils.

Lemma update_content_other (i : gmap string json) (t tag : string)
    (new : json) :
  t ≠ tag → update_content i t new !! tag = i !! tag.
Proof.
  intros Hne. unfold update_content.
  destruct (truthy (_make_content i t new)); [|done].
  by rewrite lookup_insert_ne.
Qed.

Lemma update_content_same (i : gmap string json) (tag : string)
    (seen : list json) (new : json) :
  i !! tag = collected_value seen →
  Forall (λ v, truthy v = true ∧ is_list v = false) seen →
  is_list new = false →
  update_content i tag new !! tag
  = collected_value (seen ++ if truthy new then [new] else []).
Proof.
  intros Hi Hseen Hnew. unfold update_content, _make_content. rewrite Hi.
  destruct seen as [|x [|y seen] ]; cbn [collected_value from_option id app].
  - cbn [truthy andb]. destruct (truthy new) eqn:Ht.
    + by rewrite Ht, lookup_insert_eq.
    + done.
  - apply Forall_singleton in Hseen as [Hx Hlx]. rewrite Hx. cbn [andb].
    destruct (truthy new) eqn:Ht.
    + assert (listize x = [x]) as -> by by destruct x.
      cbn [app truthy]. rewrite bool_decide_eq_false_2 by done. cbn [negb].
      by rewrite lookup_insert_eq.
    + by rewrite Hx, lookup_insert_eq.
  - cbn [truthy listize]. rewrite bool_decide_eq_false_2 by done.
    cbn [negb andb]. destruct (truthy new) eqn:Ht.
    + cbn [truthy app]. rewrite bool_decide_eq_false_2 by done. cbn [negb].
      by rewrite lookup_insert_eq.
    + cbn [truthy]. rewrite bool_decide_eq_false_2 by done. cbn [negb].
      by rewrite lookup_insert_eq, app_nil_r.
Qed.

Lemma foldl_update_content (i : gmap string json) (tag : string)
    (seen : list json) (stores : list (string * json)) :
  i !! tag = collected_value seen →
  Forall (λ v, truthy v = true ∧ is_list v = false) seen →
  Forall (λ s, is_list s.2 = false) stores →
  foldl (λ i s, update_content i s.1 s.2) i stores !! tag
  = collected_value (seen ++ stored_under tag stores).
Proof.
  revert i seen. induction stores as [|[t new] stores IH]; intros i seen Hi Hseen.
  - intros _. by rewrite app_nil_r.
  - intros [Hnew Hstores]%Forall_cons. cbn [foldl fst snd] in *.
    unfold stored_under. cbn [List.filter fst snd].
    destruct (String.eqb_spec t tag) as [->|Hne]; cbn [andb].
    + destruct (truthy new) eqn:Ht.
      * cbn [fmap list_fmap snd].
        rewrite (IH _ (seen ++ [new])); [by rewrite <- app_assoc| | |done].
        -- rewrite (update_content_same i tag seen new) by done.
           by rewrite Ht.
        -- apply Forall_app. split; [done|]. by apply Forall_singleton.
      * apply IH; [|done|done].
        rewrite (update_content_same i tag seen new) by done.
        by rewrite Ht, app_nil_r.
    + apply IH; [|done|done]. by rewrite update_content_other.
Qed.

(** X18.  Storing values in a dict that does not have [tag] yet, under
    [tag] and under other tags in any order: what the dict holds under
    [tag] in the end is nothing when no truthy value was stored there, the
    value alone when there was one, and the list of the values, in the
    order in which they came, when there were more.  The values are not
    lists themselves. *)
Theorem repeated_tag_collects (i : gmap string json) (tag : string)
    (stores : list (string * json)) :
  i !! tag = None →
  Forall (λ s, is_list s.2 = false) stores →
  foldl (λ i s, update_content i s.1 s.2) i stores !! tag
  = collected_value (stored_under tag stores).
Proof.
  intros Hi Hstores.
  exact (foldl_update_content i tag [] stores Hi (Forall_nil_2 _) Hstores).
Qed.

Lemma repeated_tag_collects_witness :
  foldl (λ i s, update_content i s.1 s.2) ∅
    [("item", JStr "a"); ("content", JStr "x"); ("item", JNull);
     ("item", JDict [("k", JStr "b")]); ("content", JStr "");
     ("item", JStr "c")] !! "item"
  = collected_value [JStr "a"; JDict [("k", JStr "b")]; JStr "c"].
Proof.
  refine (repeated_tag_collects ∅ "item"
            [("item", JStr "a"); ("content", JStr "x"); ("item", JNull);
             ("item", JDict [("k", JStr "b")]); ("content", JStr "");
             ("item", JStr "c")] _ _).
  - apply lookup_empty.
  - repeat constructor.
Defined.

(** A list that is stored first is not kept as one value: the next value
    is put at its end. *)
Example list_content_is_extended :
  update_content (update_content ∅ "item" (JList [JStr "a"; JStr "b"]))
    "item" (JStr "c")
  = {["item" := JList [JStr "a"; JStr "b"; JStr "c"]]}.
Proof.
  unfold update_content, _make_content. rewrite lookup_empty. cbn.
  rewrite lookup_insert_eq. cbn. by rewrite insert_insert_eq.
Qed.

End Contents.

(** ** A branch of a split, read to its end *)

Section Drain.
Import PipeSplit.
Implicit Types (h : heap) (b : branch) (x y : value).

Lemma snapshot_old h h' x depth :
  heap_wf h → value_ok (length h) x →
  (∀ l, l < length h → h' !! l = h !! l) →
  snapshot depth h' x = snapshot depth h x.
Proof.
  intros Hwf Hx Hagree.
  apply (snapshot_agree (λ l, l < length h)); [by apply closed_in_wf|done|].
  by intros l' ->.
Qed.

Lemma Forall2_impl_Forall {A B} (P Q : A → B → Prop) (R : A → Prop)
    (l : list A) (k : list B) :
  Forall2 P l k → Forall R l → (∀ a c, R a → P a c → Q a c) → Forall2 Q l k.
Proof.
  intros HP. induction HP as [|a c l k Hac HP IH]; [constructor|].
  intros [Ha Hl]%Forall_cons Himp. constructor; auto.
Qed.

(** X19.  A branch that is read to its end gives one deep copy for each
    item of the source, in the order of the source: each copy shows what
    its item shows; every object that can be reached from a copy is new
    (none was in the heap before, so none is shared with an item of the
    source); no object can be reached from two of the copies; and the
    objects that were there before are unchanged. *)
Theorem branch_gives_copies_of_all_items (h : heap) (b : branch) :
  heap_wf h →
  Forall (value_ok (length h)) (remaining b) →
  ∃ ys h',
    drain (S (length (remaining b))) h b = Some (ys, h')
    ∧ heap_wf h'
    ∧ length h ≤ length h'
    ∧ (∀ l, l < length h → h' !! l = h !! l)
    ∧ Forall2 (λ x y, ∀ depth, snapshot depth h' y = snapshot depth h x)
        (remaining b) ys
    ∧ Forall (λ y, ∀ l, reach h' y l → length h ≤ l < length h') ys
    ∧ (∀ i j yi yj l, i < j → ys !! i = Some yi → ys !! j = Some yj →
         reach h' yi l → ¬ reach h' yj l).
Proof.
  destruct b as [index items]. cbn [remaining]. revert h index.
  induction items as [|x items IH]; intros h index Hwf Hitems.
  - exists [], h. cbn. by split_and!.
  - apply Forall_cons in Hitems as [Hx Hitems].
    destruct (branch_next_copy h x {| branch_index := index;
                                      remaining := x :: items |} items
                Hwf Hx eq_refl) as (y & h1 & Hnext & Hcopy).
    destruct Hcopy as (Hlen & Hold & Hwf1 & Hy & Hsnap & Hnew & Hclosed).
    destruct (IH h1 index Hwf1) as (ys & h' & Hdrain & Hwf' & Hlen' & Hold'
                                    & Hsnaps & Hnews & Hapart).
    { eapply Forall_impl; [exact Hitems|]. intros v Hv.
      by eapply value_ok_mono. }
    assert (Hhead : ∀ l, reach h' y l → length h ≤ l < length h1).
    { intros l. apply (reach_closed (λ l, length h ≤ l < length h1)).
      - eapply closed_in_agree; [exact Hclosed|].
        intros l0 Hl0. apply Hold'. lia.
      - intros l' ->. split; [by apply Hnew|]. exact Hy. }
    exists (y :: ys), h'.
    change (drain (S (length (x :: items))) h
              {| branch_index := index; remaining := x :: items |})
      with (match branch_next h {| branch_index := index;
                                   remaining := x :: items |} with
            | None => None
            | Some None => Some ([], h)
            | Some (Some (y, h', b')) =>
                match drain (S (length items)) h' b' with
                | Some (ys, h'') => Some (y :: ys, h'')
                | None => None
                end
            end).
    rewrite Hnext. cbn [branch_index] in Hdrain |- *. rewrite Hdrain.
    split; [done|]. split; [done|]. split; [lia|]. split.
    { intros l Hl. rewrite Hold' by lia. by apply Hold. }
    split; [|split].
    + constructor.
      * intros depth. rewrite <- Hsnap. by apply snapshot_old.
      * eapply Forall2_impl_Forall; [exact Hsnaps|exact Hitems|].
        intros x' y' Hx' Hxy depth. rewrite Hxy. by apply snapshot_old.
    + constructor.
      * intros l Hl. apply Hhead in Hl. lia.
      * eapply Forall_impl; [exact Hnews|]. intros y' Hy' l Hl.
        specialize (Hy' l Hl). lia.
    + intros i j yi yj l Hij Hi Hj Hri Hrj. destruct j as [|j]; [lia|].
      cbn in Hj. destruct i as [|i].
      * cbn in Hi. injection Hi as <-. apply Hhead in Hri.
        rewrite Forall_forall in Hnews.
        assert (Hin : yj ∈ ys) by (apply list_elem_of_lookup; eauto).
        specialize (Hnews yj Hin l Hrj). lia.
      * cbn in Hi. apply (Hapart i j yi yj l); [lia|done..].
Qed.

Lemma branch_gives_copies_of_all_items_witness :
  ∃ ys h',
    drain 3 sample_heap (sample_branch 0) = Some (ys, h')
    ∧ heap_wf h'
    ∧ length sample_heap ≤ length h'
    ∧ (∀ l, l < length sample_heap → h' !! l = sample_heap !! l)
    ∧ Forall2 (λ x y, ∀ depth,
                 snapshot depth h' y = snapshot depth sample_heap x)
        (remaining (sample_branch 0)) ys
    ∧ Forall (λ y, ∀ l, reach h' y l → length sample_heap ≤ l < length h') ys
    ∧ (∀ i j yi yj l, i < j → ys !! i = Some yi → ys !! j = Some yj →
         reach h' yi l → ¬ reach h' yj l).
Proof.
  refine (branch_gives_copies_of_all_items sample_heap (sample_branch 0) _ _).
  - exact sample_heap_wf.
  - repeat constructor.
Defined.

End Drain.

(** ** The definitions that [parse_pipe_def] accepts *)

Section Accepts.
Import Utils Compile.

Lemma mapM_is_Ok {A B} (f : A → result B) (l : list A) :
  (∃ ys, mapM f l = Ok ys) ↔ Forall (λ a, ∃ b, f a = Ok b) l.
Proof.
  induction l as [|a l IH]; cbn [mapM].
  - split; [constructor|by eexists].
  - rewrite Forall_cons, <- IH. split.
    + intros (ys & (b & Hb & (ys' & Hys & _)%rbind_Ok)%rbind_Ok). eauto.
    + intros ((b & ->) & (ys & ->)). cbn. eauto.
Qed.

Lemma pythonise_json_is_Ok (v : json) :
  (∃ r, pythonise_json v = Ok r) ↔ pythonisable v.
Proof.
  unfold pythonise_json, pythonisable. split.
  - intros (r & (s & Hs & Hr)%rbind_Ok). destruct v; try done.
    injection Hs as ->. apply pythonise_Ok_inv in Hr as (? & ? & _). eauto.
  - intros (s & -> & Hne & Hascii). cbn [as_str rbind].
    rewrite pythonise_eq, Hascii.
    destruct (String.eqb_spec s ""); [done|]. eauto.
Qed.

Lemma key_is_Ok (obj : json) (key : string) :
  (∃ r, (i <- getitem obj key;; pythonise_json i) = Ok r)
  ↔ ∃ i, getitem obj key = Ok i ∧ pythonisable i.
Proof.
  split.
  - intros (r & (i & Hi & Hr)%rbind_Ok). exists i. split; [done|].
    apply pythonise_json_is_Ok. eauto.
  - intros (i & -> & (r & Hr)%pythonise_json_is_Ok). cbn [rbind]. eauto.
Qed.

Lemma keyed_is_Ok (obj : json) :
  (∃ b, (i <- getitem obj "id";; k <- pythonise_json i;; Ok (k, obj)) = Ok b)
  ↔ ∃ i, getitem obj "id" = Ok i ∧ pythonisable i.
Proof.
  split.
  - intros (b & (i & Hi & (k & Hk & _)%rbind_Ok)%rbind_Ok). exists i.
    split; [done|]. apply pythonise_json_is_Ok. eauto.
  - intros (i & Hi & (k & Hk)%pythonise_json_is_Ok). rewrite Hi. cbn [rbind].
    rewrite Hk. cbn [rbind]. eauto.
Qed.

Lemma wire_module_is_Ok (wire : json) (end_ : string) :
  (∃ r, wire_module wire end_ = Ok r) ↔ wire_end_ok wire end_.
Proof.
  unfold wire_module, wire_end_ok. split.
  - intros (r & (e & He & Hr)%rbind_Ok). exists e.
    destruct (proj1 (key_is_Ok e "moduleid")) as (i & Hi & Hok); eauto.
  - intros (e & i & -> & Hi & Hok). cbn [rbind]. apply key_is_Ok. eauto.
Qed.

Lemma gen_graph1_module_is_Ok (module : json) :
  (∃ y, (i <- getitem module "id";; k <- pythonise_json i;;
         ty <- getitem module "type";;
         if json_eq_str ty "loop" then
           embed <- embed_value module;;
           ei <- getitem embed "id";; ek <- pythonise_json ei;;
           i' <- getitem module "id";; k' <- pythonise_json i';;
           Ok [(k, []); (ek, [k'])]
         else Ok [(k, @nil string)]) = Ok y)
  ↔ module_ok module.
Proof.
  unfold module_ok. split.
  - intros (y & (i & Hi & (k & Hk & (ty & Hty & Hrest)%rbind_Ok)%rbind_Ok
      )%rbind_Ok). split.
    { exists i. split; [done|]. apply pythonise_json_is_Ok. eauto. }
    exists ty. split; [done|]. intros Hloop. rewrite Hloop in Hrest.
    apply rbind_Ok in Hrest as (embed & He & (ei & Hei & (ek & Hek & _
      )%rbind_Ok)%rbind_Ok).
    exists embed, ei. split; [done|]. split; [done|].
    apply pythonise_json_is_Ok. eauto.
  - intros ((i & Hi & (k & Hk)%pythonise_json_is_Ok) & ty & Hty & Hloop).
    rewrite Hi. cbn [rbind]. rewrite Hk. cbn [rbind]. rewrite Hty.
    cbn [rbind]. destruct (json_eq_str ty "loop"); [|eauto].
    destruct Hloop as (embed & ei & He & Hei & (ek & Hek)%pythonise_json_is_Ok);
      [done|].
    rewrite He. cbn [rbind]. rewrite Hei. cbn [rbind]. rewrite Hek.
    cbn [rbind]. rewrite ?Hi. cbn [rbind]. rewrite ?Hk. cbn [rbind]. eauto.
Qed.

Lemma module_ok_key (module : json) :
  module_ok module →
  ∃ y, (i <- getitem module "id";; k <- pythonise_json i;; Ok (k, module))
       = Ok y.
Proof.
  intros [(i & -> & (k & Hk)%pythonise_json_is_Ok) _].
  cbn [rbind]. rewrite Hk. cbn [rbind]. eauto.
Qed.

Lemma module_ok_embedded (module : json) :
  module_ok module →
  ∃ y, (ty <- getitem module "type";;
        if json_eq_str ty "loop" then
          embed <- embed_value module;;
          i <- getitem embed "id";; k <- pythonise_json i;;
          Ok [(k, embed)]
        else Ok []) = Ok y.
Proof.
  intros [_ (ty & -> & Hloop)]. cbn [rbind].
  destruct (json_eq_str ty "loop"); [|eauto].
  destruct Hloop as (embed & ei & He & Hei & (ek & Hek)%pythonise_json_is_Ok);
    [done|].
  rewrite He. cbn [rbind]. rewrite Hei. cbn [rbind]. rewrite Hek.
  cbn [rbind]. eauto.
Qed.

Lemma wire_ok_graph2 (wire : json) :
  (∃ y, (src <- getitem wire "src";; sm <- getitem src "moduleid";;
         src_id <- pythonise_json sm;;
         tgt <- getitem wire "tgt";; tm <- getitem tgt "moduleid";;
         tgt_id <- pythonise_json tm;;
         Ok (src_id, tgt_id)) = Ok y)
  ↔ wire_end_ok wire "src" ∧ wire_end_ok wire "tgt".
Proof.
  unfold wire_end_ok. split.
  - intros (y & (src & Hsrc & (sm & Hsm & (src_id & Hsid & (tgt & Htgt &
      (tm & Htm & (tgt_id & Htid & _)%rbind_Ok)%rbind_Ok)%rbind_Ok)%rbind_Ok
      )%rbind_Ok)%rbind_Ok). split.
    + exists src, sm. split; [done|]. split; [done|].
      apply pythonise_json_is_Ok. eauto.
    + exists tgt, tm. split; [done|]. split; [done|].
      apply pythonise_json_is_Ok. eauto.
  - intros [(src & sm & -> & Hsm & (src_id & Hsid)%pythonise_json_is_Ok)
            (tgt & tm & -> & Htm & (tgt_id & Htid)%pythonise_json_is_Ok)].
    cbn [rbind]. rewrite Hsm. cbn [rbind]. rewrite Hsid. cbn [rbind].
    rewrite Htm. cbn [rbind]. rewrite Htid. cbn [rbind]. eauto.
Qed.

Lemma parse_pipe_def_is_Ok (pipe_def : json) (pipe_name : string) :
  (∃ p, parse_pipe_def pipe_def pipe_name = Ok p)
  ↔ definition_ok pipe_def ∧ pythonisable (JStr pipe_name).
Proof.
  split.
  - intros (p & (g1 & g2 & ms & em & ws & nm & Hg1 & Hg2 & _ & _ & Hws & Hnm
                 & _)%parse_pipe_def_Ok).
    split.
    + unfold gen_graph1 in Hg1. unfold gen_graph2 in Hg2.
      unfold gen_wires in Hws.
      apply rbind_Ok in Hg1 as (jms & Hjms & (ys & Hys & _)%rbind_Ok).
      apply rbind_Ok in Hg2 as (jws & Hjws & Hg2).
      rewrite Hjws in Hws. cbn [rbind] in Hws.
      exists jms, jws. split; [done|]. split; [done|]. split.
      * pose proof (proj1 (mapM_is_Ok _ _) (ex_intro _ ys Hys)) as Hall.
        eapply Forall_impl; [exact Hall|].
        intros m Hm. by apply gen_graph1_module_is_Ok.
      * pose proof (proj1 (mapM_is_Ok _ _) (ex_intro _ g2 Hg2)) as Hall2.
        pose proof (proj1 (mapM_is_Ok _ _) (ex_intro _ ws Hws)) as Hallw.
        apply Forall_forall. intros w Hw.
        rewrite Forall_forall in Hall2, Hallw.
        split; [by apply keyed_is_Ok, Hallw|]. by apply wire_ok_graph2, Hall2.
    + apply pythonise_json_is_Ok. exists nm. exact Hnm.
  - intros [(jms & jws & Hjms & Hjws & Hms & Hws) (nm & Hnm)%pythonise_json_is_Ok].
    cbn [pythonise_json as_str rbind] in Hnm.
    assert (∃ g1, gen_graph1 pipe_def = Ok g1) as [g1 Hg1].
    { unfold gen_graph1. rewrite Hjms. cbn [rbind].
      match goal with |- ∃ g1, rbind (mapM ?f _) _ = _ =>
        destruct (proj2 (mapM_is_Ok f (listize jms))) as [ys ->] end;
        [|cbn; eauto].
      eapply Forall_impl; [exact Hms|]. intros m Hm.
      by apply gen_graph1_module_is_Ok. }
    assert (∃ g2, gen_graph2 pipe_def = Ok g2) as [g2 Hg2].
    { unfold gen_graph2. rewrite Hjws. cbn [rbind]. apply mapM_is_Ok.
      eapply Forall_impl; [exact Hws|]. intros w (_ & Hsrc & Htgt).
      by apply wire_ok_graph2. }
    assert (∃ ms, gen_modules pipe_def = Ok ms) as [ms Hgm].
    { unfold gen_modules. rewrite Hjms. cbn [rbind]. apply mapM_is_Ok.
      eapply Forall_impl; [exact Hms|]. intros m Hm. by apply module_ok_key. }
    assert (∃ em, gen_embedded_modules pipe_def = Ok em) as [em Hem].
    { unfold gen_embedded_modules. rewrite Hjms. cbn [rbind].
      match goal with |- ∃ g1, rbind (mapM ?f _) _ = _ =>
        destruct (proj2 (mapM_is_Ok f (listize jms))) as [ys ->] end;
        [|cbn; eauto].
      eapply Forall_impl; [exact Hms|]. intros m Hm.
      by apply module_ok_embedded. }
    assert (∃ ws, gen_wires pipe_def = Ok ws) as [ws Hgw].
    { unfold gen_wires. rewrite Hjws. cbn [rbind]. apply mapM_is_Ok.
      eapply Forall_impl; [exact Hws|]. intros w (Hid & _).
      by apply keyed_is_Ok. }
    unfold parse_pipe_def. rewrite Hg1, Hg2, Hgm, Hem. cbn [rbind].
    rewrite Hnm. cbn [rbind]. rewrite Hgw. cbn [rbind]. eauto.
Qed.

(** X20.  [parse_pipe_def] returns a pipe for the definitions that have a
    [modules] and a [wires] entry in which every module has an id and a
    type (and every loop an embedded module with an id), every wire has an
    id and names a module at both ends, and all these ids, like the name of
    the pipe, are strings that are not empty and have only ASCII characters;
    for every other definition it raises. *)
Theorem parse_pipe_def_accepts (pipe_def : json) (pipe_name : string) :
  (∃ p, parse_pipe_def pipe_def pipe_name = Ok p)
  ↔ definition_ok pipe_def ∧ pythonisable (JStr pipe_name).
Proof. apply parse_pipe_def_is_Ok. Qed.

(** The sample definition is one of them. *)
Example sample_def_ok : definition_ok sample_def.
Proof.
  apply (parse_pipe_def_is_Ok sample_def "demo").
  exists sample_pipe. vm_compute. reflexivity.
Qed.

End Accepts.

(** ** The pipeline that [build_pipeline] returns *)

Section Build.
Import Utils Compile.
Variable py_unicode : json → string.
Variable py_sorted : list (list json) → list (list json).



End Build.

Section BuildSamples.
Import Utils Compile.


End BuildSamples.

Section BuildErrors.
Import Utils Compile.
Variable py_unicode : json → string.
Variable py_sorted : list (list json) → list (list json).

(** X22.  The dependencies and the inputs are extracted in every mode, before any
    stage is assembled: when one of the two extractions raises, so does
    [build_pipeline], also outside describe mode, and nothing is
    constructed. *)
Theorem description_errors_fail_the_build (context : Context) (p : pipe)
    (pipe_def : json) (σ : interp) (order : list string) (e : exn) :
  Topsort.topological_sort (pipe_graph p) = Ok order →
  extract_dependencies py_unicode pipe_def = Raise e
  ∨ (∃ deps, extract_dependencies py_unicode pipe_def = Ok deps
             ∧ extract_input py_sorted pipe_def = Raise e) →
  build_pipeline py_unicode py_sorted context p pipe_def σ = (Raise e, σ).
Proof.
  intros Horder Hraise. unfold build_pipeline, sbind, lift. rewrite Horder.
  destruct Hraise as [->|(deps & -> & ->)]; done.
Qed.

End BuildErrors.

Section BuildErrorSamples.
Import Utils Compile.

Lemma description_errors_fail_the_build_witness :
  build_pipeline sample_unicode sample_sorted run_context bare_input_pipe
    bare_input_def sample_interp
  = (Raise (KeyError "default"), sample_interp).
Proof.
  refine (description_errors_fail_the_build sample_unicode sample_sorted
            run_context bare_input_pipe bare_input_def sample_interp [] _ _ _).
  - vm_compute. reflexivity.
  - right. exists ["pipetextinput"]. split.
    + vm_compute. reflexivity.
    + vm_compute. reflexivity.
Defined.

End BuildErrorSamples.

(** ** Embedded modules and the functions they are bound to *)

Section Embedded.
Import Utils Compile.

Lemma gen_steps_embedded (context : Context) (p : pipe)
    (module_id module_name pipe_name : string) (steps : gmap string pyval)
    (σ : interp) (attrs : list string) :
  is_Some (pipe_embed p !! module_id) →
  importable σ !! import_name module_name = Some attrs →
  pipe_name ∈ attrs →
  _gen_steps context p module_id module_name pipe_name steps σ
  = (Ok [(module_id, VFunc (import_name module_name, pipe_name))],
     {| next_object := next_object σ; calls := calls σ;
        func_name := <[(import_name module_name, pipe_name)
                       := "pipe_" +:+ module_id]> (func_name σ);
        importable := importable σ |}).
Proof.
  intros Hemb Himp Hattr. unfold _gen_steps, sbind, import_module, getattr.
  rewrite Himp. cbn [fst snd]. rewrite bool_decide_eq_true_2 by done.
  by rewrite bool_decide_eq_true_2 by done.
Qed.

(** X23.  A loop is given, as [embed], the function that was bound for its
    embedded module, and that function carries the name that the script
    writes for it. *)
Theorem loop_receives_named_function (context : Context) (p : pipe)
    (module_id module_name pipe_name : string) (steps : gmap string pyval)
    (σ : interp) (attrs : list string) (embedded m ty value i : json) :
  pipe_embed p !! module_id = Some embedded →
  importable σ !! import_name module_name = Some attrs →
  pipe_name ∈ attrs →
  json_eq_str ty "loop" = true →
  embed_value m = Ok value →
  getitem value "id" = Ok i →
  pythonise_json i = Ok module_id →
  ∃ yielded σ' f name,
    _gen_steps context p module_id module_name pipe_name steps σ
    = (Ok yielded, σ')
    ∧ embed_kwargs m ty (Some (dict_of yielded ∪ steps))
      = Ok [("embed", VFunc f)]
    ∧ embed_kwargs m ty None = Ok [("embed", VId (VStr name))]
    ∧ func_name σ' !! f = Some name.
Proof.
  intros Hemb Himp Hattr Hloop Hvalue Hi Hid.
  eexists _, _, (import_name module_name, pipe_name), ("pipe_" +:+ module_id).
  split; [by eapply gen_steps_embedded|].
  unfold embed_value in Hvalue.
  apply rbind_Ok in Hvalue as (conf & Hconf & (e & He & Hvalue)%rbind_Ok).
  assert (Hkw : ∀ steps' : option (gmap string pyval),
            embed_kwargs m ty steps'
            = (updated <- (if steps_truthy steps'
                           then steps_get steps' module_id
                           else Ok (VId (VStr ("pipe_" +:+ module_id))));;
               Ok [("embed", updated)])).
  { intros steps'. unfold embed_kwargs. rewrite Hloop, Hconf. cbn [rbind].
    rewrite He. cbn [rbind]. rewrite Hvalue. cbn [rbind]. rewrite Hi.
    cbn [rbind]. rewrite Hid. done. }
  rewrite !Hkw. split_and!.
  - change (dict_of [(module_id, VFunc (import_name module_name, pipe_name))])
      with (<[module_id := VFunc (import_name module_name, pipe_name)]>
              (∅ : gmap string pyval)).
    rewrite <- insert_union_l, (left_id_L ∅ (∪)).
    rewrite steps_truthy_insert. cbn [steps_get]. unfold dict_get.
    by rewrite lookup_insert_eq.
  - done.
  - cbn [func_name]. by rewrite lookup_insert_eq.
Qed.

Lemma loop_receives_named_function_witness :
  ∃ yielded σ' f name,
    _gen_steps run_context loop_pipe "emb" "pipestrconcat" "pipe_strconcat"
      (steps_after_first "src") sample_interp
    = (Ok yielded, σ')
    ∧ embed_kwargs (mk_loop "lp" (mk_module "emb" "strconcat" (JDict [])))
        (JStr "loop") (Some (dict_of yielded ∪ steps_after_first "src"))
      = Ok [("embed", VFunc f)]
    ∧ embed_kwargs (mk_loop "lp" (mk_module "emb" "strconcat" (JDict [])))
        (JStr "loop") None
      = Ok [("embed", VId (VStr name))]
    ∧ func_name σ' !! f = Some name.
Proof.
  refine (loop_receives_named_function run_context loop_pipe "emb"
            "pipestrconcat" "pipe_strconcat" (steps_after_first "src")
            sample_interp ["pipe_strconcat"]
            (mk_module "emb" "strconcat" (JDict []))
            (mk_loop "lp" (mk_module "emb" "strconcat" (JDict [])))
            (JStr "loop") (mk_module "emb" "strconcat" (JDict []))
            (JStr "emb") _ _ _ _ _ _ _).
  - vm_compute. reflexivity.
  - vm_compute. reflexivity.
  - by left.
  - reflexivity.
  - reflexivity.
  - reflexivity.
  - reflexivity.
Defined.

(** X24.  Two embedded modules of the same type are bound to one and the same
    function object: once the second is assembled, the function that was
    stored for the first carries the name of the second. *)
Theorem embedded_modules_share_function (context : Context) (p : pipe)
    (a b module_name pipe_name : string) (steps : gmap string pyval)
    (σ : interp) (attrs : list string) :
  is_Some (pipe_embed p !! a) →
  is_Some (pipe_embed p !! b) →
  importable σ !! import_name module_name = Some attrs →
  pipe_name ∈ attrs →
  ∃ f σ1 σ2,
    _gen_steps context p a module_name pipe_name steps σ
    = (Ok [(a, VFunc f)], σ1)
    ∧ func_name σ1 !! f = Some ("pipe_" +:+ a)
    ∧ _gen_steps context p b module_name pipe_name
        (dict_of [(a, VFunc f)] ∪ steps) σ1
      = (Ok [(b, VFunc f)], σ2)
    ∧ func_name σ2 !! f = Some ("pipe_" +:+ b).
Proof.
  intros Ha Hb Himp Hattr.
  eexists (import_name module_name, pipe_name), _, _.
  split; [by eapply gen_steps_embedded|].
  split; [by cbn [func_name]; rewrite lookup_insert_eq|].
  split; [by eapply gen_steps_embedded|].
  cbn [func_name]. by rewrite lookup_insert_eq.
Qed.

Lemma embedded_modules_share_function_witness :
  ∃ f σ1 σ2,
    _gen_steps run_context twin_loops_pipe "ea" "pipestrconcat"
      "pipe_strconcat" (steps_after_first "src") sample_interp
    = (Ok [("ea", VFunc f)], σ1)
    ∧ func_name σ1 !! f = Some ("pipe_" +:+ "ea")
    ∧ _gen_steps run_context twin_loops_pipe "eb" "pipestrconcat"
        "pipe_strconcat" (dict_of [("ea", VFunc f)] ∪ steps_after_first "src")
        σ1
      = (Ok [("eb", VFunc f)], σ2)
    ∧ func_name σ2 !! f = Some ("pipe_" +:+ "eb").
Proof.
  refine (embedded_modules_share_function run_context twin_loops_pipe "ea" "eb"
            "pipestrconcat" "pipe_strconcat" (steps_after_first "src")
            sample_interp ["pipe_strconcat"] _ _ _ _).
  - vm_compute. eexists. reflexivity.
  - vm_compute. eexists. reflexivity.
  - vm_compute. reflexivity.
  - by left.
Defined.

End Embedded.

(** ** What the assembly needs *)

Section Needs.
Import Utils Compile.
Implicit Types (steps : gmap string pyval) (σ : interp) (p : pipe).

Lemma zipped_of_cons p (module_id : string) (order : list string) :
  zipped_of p (module_id :: order)
  = (module_id, gen_name p "module" module_id, gen_name p "pipe" module_id)
    :: zipped_of p order.
Proof. done. Qed.

Lemma gen_steps_imports (context : Context) p
    (module_id module_name pipe_name : string) steps σ
    (yielded : list (string * pyval)) σ' :
  _gen_steps context p module_id module_name pipe_name steps σ
  = (Ok yielded, σ') →
  ∃ attrs, importable σ !! import_name module_name = Some attrs
           ∧ pipe_name ∈ attrs.
Proof.
  unfold _gen_steps.
  intros (module & σ1 & Himp & (f & σ2 & Hattr & _)%sbind_Ok)%sbind_Ok.
  unfold import_module in Himp.
  destruct (importable σ !! import_name module_name) as [attrs|]; [|done].
  injection Himp as <- <-. unfold getattr in Hattr. cbn [fst snd] in Hattr.
  destruct (bool_decide (pipe_name ∈ attrs)) eqn:Hin; [|done].
  apply bool_decide_eq_true in Hin. eauto.
Qed.

Lemma gen_name_Ok p (ntype module_id name : string) :
  gen_name p ntype module_id = Ok name →
  ∃ m ty, pipe_modules p !! module_id = Some m
          ∧ getitem m "type" = Ok (JStr ty).
Proof.
  unfold gen_name, dict_get.
  destruct (pipe_modules p !! module_id) as [m|]; [|done]. cbn [rbind].
  intros (module_type & Hty & (ty & Hstr & _)%rbind_Ok)%rbind_Ok.
  destruct module_type; try done. injection Hstr as ->. eauto.
Qed.

Lemma get_steps_loop_needs (context : Context) p (order : list string)
    steps σ steps' σ' :
  steps_truthy (Some steps) = true →
  foldS (λ steps '(module_id, module_name, pipe_name),
           module_name <~ lift module_name;;
           pipe_name <~ lift pipe_name;;
           yielded <~ _gen_steps context p module_id module_name
                                 pipe_name steps;;
           ret (dict_of yielded ∪ steps)) steps (zipped_of p order) σ
  = (Ok steps', σ') →
  ∀ module_id, module_id ∈ order →
    ∃ m ty module_name pipe_name attrs,
      pipe_modules p !! module_id = Some m
      ∧ getitem m "type" = Ok (JStr ty)
      ∧ gen_name p "module" module_id = Ok module_name
      ∧ gen_name p "pipe" module_id = Ok pipe_name
      ∧ importable σ !! import_name module_name = Some attrs
      ∧ pipe_name ∈ attrs.
Proof.
  revert steps σ. induction order as [|i order IH]; intros steps σ Htruthy.
  - intros _ module_id Hin. inversion Hin.
  - rewrite zipped_of_cons. cbn [foldS].
    intros (steps1 & σ1 & Hbody & Hfold)%sbind_Ok.
    apply sbind_Ok in Hbody as (module_name & σa & [Hmn ->]%lift_Ok & Hbody).
    apply sbind_Ok in Hbody as (pipe_name & σb & [Hpn ->]%lift_Ok & Hbody).
    apply sbind_Ok in Hbody as (yielded & σc & Hgen & Hret).
    unfold ret in Hret. injection Hret as <- <-.
    destruct (gen_steps_Ok _ _ _ _ _ _ _ _ _ Htruthy Hgen) as [Himp Hcases].
    intros module_id [->|Hin]%elem_of_cons.
    + destruct (gen_name_Ok _ _ _ _ Hmn) as (m & ty & Hm & Hty).
      destruct (gen_steps_imports _ _ _ _ _ _ _ _ _ Hgen)
        as (attrs & Hattrs & Hattr).
      by exists m, ty, module_name, pipe_name, attrs.
    + rewrite <- Himp. eapply IH; [|exact Hfold|exact Hin].
      destruct Hcases as [(_ & -> & _)|(_ & -> & _)].
      * change (dict_of [(i, VFunc (import_name module_name, pipe_name))])
          with (<[i := VFunc (import_name module_name, pipe_name)]>
                  (∅ : gmap string pyval)).
        rewrite <- insert_union_l. apply steps_truthy_insert.
      * change (dict_of [(i, VStage (next_object σ))])
          with (<[i := VStage (next_object σ)]> (∅ : gmap string pyval)).
        rewrite <- insert_union_l. apply steps_truthy_insert.
Qed.

(** X25.  When the stages of an order are assembled, every id of the order is a
    module of the pipe with a string as its type, and the constructor that
    its names stand for can be imported: a node of the graph that no
    module stands behind (the end of a dangling wire), a module that cannot
    be imported or an attribute that is missing makes [_get_steps]
    raise. *)
Theorem assembled_modules_exist (context : Context) (p : pipe)
    (order : list string) (σ σ' : interp) (steps : gmap string pyval)
    (module_id : string) :
  _get_steps context p (zipped_of p order) σ = (Ok steps, σ') →
  module_id ∈ order →
  ∃ m ty module_name pipe_name attrs,
    pipe_modules p !! module_id = Some m
    ∧ getitem m "type" = Ok (JStr ty)
    ∧ gen_name p "module" module_id = Ok module_name
    ∧ gen_name p "pipe" module_id = Ok pipe_name
    ∧ importable σ !! import_name module_name = Some attrs
    ∧ pipe_name ∈ attrs.
Proof.
  unfold _get_steps. intros (forever & σ1 & Hcall & Hfold)%sbind_Ok Hin.
  unfold call_function in Hcall. cbn in Hcall. injection Hcall as <- <-.
  eapply get_steps_loop_needs in Hfold; [exact Hfold| |exact Hin].
  apply (steps_truthy_lookup _ "forever" (VStage (next_object σ))).
  by rewrite lookup_singleton_eq.
Qed.

Lemma assembled_modules_exist_witness :
  ∃ m ty module_name pipe_name attrs,
    pipe_modules sample_pipe !! "sw_4" = Some m
    ∧ getitem m "type" = Ok (JStr ty)
    ∧ gen_name sample_pipe "module" "sw_4" = Ok module_name
    ∧ gen_name sample_pipe "pipe" "sw_4" = Ok pipe_name
    ∧ importable sample_interp !! import_name module_name = Some attrs
    ∧ pipe_name ∈ attrs.
Proof.
  refine (assembled_modules_exist run_context sample_pipe
            ["sw_1"; "sw_2"; "sw_4"; "sw_3"] sample_interp sample_interp_after
            sample_steps "sw_4" _ _).
  - vm_compute. reflexivity.
  - do 2 right. by left.
Defined.

(** X26.  A module cannot be assembled before the module that its default input
    comes from: when no source of a default-input wire of the module is in
    [steps] yet, looking up the default input is the [KeyError] of such a
    source, and [_gen_steps] raises it without calling a constructor. *)
Theorem source_not_assembled_raises (context : Context) (p : pipe)
    (module_id module_name pipe_name : string) (steps : gmap string pyval)
    (σ : interp) (attrs : list string) (root : pyval) (k : string) (w : json)
    (v : wire_view) :
  describe context = false →
  pipe_embed p !! module_id = None →
  steps !! "forever" = Some root →
  wires_viewable (pipe_wires p) →
  importable σ !! import_name module_name = Some attrs →
  pipe_name ∈ attrs →
  pipe_wires p !! k = Some w →
  view_wire w = Ok v →
  default_wire module_id v = true →
  (∀ k' w' v', pipe_wires p !! k' = Some w' → view_wire w' = Ok v' →
               default_wire module_id v' = true → steps !! wv_src v' = None) →
  ∃ k' w' v',
    pipe_wires p !! k' = Some w' ∧ view_wire w' = Ok v'
    ∧ default_wire module_id v' = true
    ∧ _get_input_module p module_id (Some steps)
      = Raise (KeyError (wv_src v'))
    ∧ _gen_steps context p module_id module_name pipe_name steps σ
      = (Raise (KeyError (wv_src v')), σ).
Proof.
  intros Hdesc Hemb Hroot Hwf Himp Hattr Hk Hv Hd Hmissing.
  pose proof (steps_truthy_lookup _ _ _ Hroot) as Htruthy.
  assert (Hitems : ∀ k w, (k, w) ∈ map_to_list (pipe_wires p) →
                          ∃ v, view_wire w = Ok v).
  { intros k0 w0 Hin%elem_of_map_to_list. by eapply Hwf. }
  destruct (input_module_loop_spec module_id steps
              (map_to_list (pipe_wires p)) root Htruthy Hitems)
    as [(k' & w' & v' & Hin%elem_of_map_to_list & Hv' & Hd' & Hloop)
       |[Hnone _] ].
  - assert (Hinput : _get_input_module p module_id (Some steps)
                     = Raise (KeyError (wv_src v'))).
    { rewrite (get_input_module_loop _ _ _ _ Hemb Hroot), Hloop.
      unfold dict_get. by rewrite (Hmissing _ _ _ Hin Hv' Hd'). }
    exists k', w', v'. split_and!; try done.
    unfold _gen_steps, sbind, import_module, getattr. rewrite Himp.
    cbn [fst snd]. rewrite bool_decide_eq_true_2 by done.
    rewrite bool_decide_eq_false_2 by (rewrite Hemb; by intros [? ?]).
    unfold lift, _get_pyargs. rewrite Hdesc. cbn [andb negb].
    by rewrite Hinput.
  - apply elem_of_map_to_list in Hk. by rewrite (Hnone _ _ _ Hk Hv) in Hd.
Qed.

Lemma source_not_assembled_raises_witness :
  ∃ k' w' v',
    pipe_wires sample_pipe !! k' = Some w' ∧ view_wire w' = Ok v'
    ∧ default_wire "sw_4" v' = true
    ∧ _get_input_module sample_pipe "sw_4" (Some (steps_after_first "sw_1"))
      = Raise (KeyError (wv_src v'))
    ∧ _gen_steps run_context sample_pipe "sw_4" "pipeunion" "pipe_union"
        (steps_after_first "sw_1") sample_interp
      = (Raise (KeyError (wv_src v')), sample_interp).
Proof.
  refine (source_not_assembled_raises run_context sample_pipe "sw_4"
            "pipeunion" "pipe_union" (steps_after_first "sw_1") sample_interp
            ["pipe_union"] (VStage 0) "_w2"
            (mk_wire "_w2" "sw-2" "_OUTPUT" "sw-4" "_INPUT")
            {| wv_src := "sw_2"; wv_src_terminal := "_OUTPUT";
               wv_tgt := "sw_4"; wv_tgt_terminal := "_INPUT";
               wv_key := "_INPUT" |} _ _ _ _ _ _ _ _ _ _).
  - reflexivity.
  - vm_compute. reflexivity.
  - vm_compute. reflexivity.
  - apply wires_viewable_check. vm_compute. reflexivity.
  - vm_compute. reflexivity.
  - by left.
  - vm_compute. reflexivity.
  - vm_compute. reflexivity.
  - vm_compute. reflexivity.
  - intros k' w' v' Hk' Hv' Hd'.
    assert (Hcheck :
      forallb (λ kw : string * json,
                 match view_wire kw.2 with
                 | Ok v => negb (default_wire "sw_4" v)
                           || bool_decide (steps_after_first "sw_1" !! wv_src v
                                           = None)
                 | Raise _ => true
                 end) (map_to_list (pipe_wires sample_pipe)) = true)
      by (vm_compute; reflexivity).
    pose proof (forall_wires_check (pipe_wires sample_pipe)
                  (λ v, negb (default_wire "sw_4" v)
                        || bool_decide (steps_after_first "sw_1" !! wv_src v
                                        = None))
                  Hcheck k' w' v' Hk' Hv') as HP.
    cbv beta in HP. rewrite Hd' in HP. cbn [negb orb] in HP.
    exact (proj1 (bool_decide_eq_true _) HP).
Defined.

End Needs.

(** ** The default input of a module, in the steps that [_get_steps] makes *)

Section DefaultInput.
Import Utils Compile.
Implicit Types (steps : gmap string pyval) (σ : interp) (p : pipe).

(** The loop of [_get_steps] leaves alone the entries of the other keys. *)
Lemma get_steps_loop_keeps (context : Context) p
    (zipped : list (string * result string * result string))
    steps σ steps' σ' (k : string) :
  steps_truthy (Some steps) = true →
  foldS (λ steps '(module_id, module_name, pipe_name),
           module_name <~ lift module_name;;
           pipe_name <~ lift pipe_name;;
           yielded <~ _gen_steps context p module_id module_name
                                 pipe_name steps;;
           ret (dict_of yielded ∪ steps)) steps zipped σ = (Ok steps', σ') →
  k ∉ zipped.*1.*1 →
  steps' !! k = steps !! k.
Proof.
  revert steps σ. induction zipped as [|[[module_id mn] pn] zipped IH];
    intros steps σ Htruthy; cbn [foldS].
  - unfold ret. by intros [= <- <-].
  - intros (steps1 & σ1 & Hbody & Hfold)%sbind_Ok Hk.
    apply sbind_Ok in Hbody as (module_name & σa & [-> ->]%lift_Ok & Hbody).
    apply sbind_Ok in Hbody as (pipe_name & σb & [-> ->]%lift_Ok & Hbody).
    apply sbind_Ok in Hbody as (yielded & σc & Hgen & Hret).
    unfold ret in Hret. injection Hret as <- <-.
    cbn [fmap list_fmap fst] in Hk. apply not_elem_of_cons in Hk as [Hne Hk].
    assert (∃ x, dict_of yielded ∪ steps = <[module_id := x]> steps)
      as [x Hx].
    { destruct (gen_steps_Ok _ _ _ _ _ _ _ _ _ Htruthy Hgen)
        as [_ [(_ & -> & _)|(_ & -> & _)] ]; eexists.
      - change (dict_of [(module_id,
                          VFunc (import_name module_name, pipe_name))])
          with (<[module_id := VFunc (import_name module_name, pipe_name)]>
                  (∅ : gmap string pyval)).
        by rewrite <- insert_union_l, (left_id_L ∅ (∪)).
      - change (dict_of [(module_id, VStage (next_object σ))])
          with (<[module_id := VStage (next_object σ)]>
                  (∅ : gmap string pyval)).
        by rewrite <- insert_union_l, (left_id_L ∅ (∪)). }
    rewrite Hx in Hfold. apply IH in Hfold; [|apply steps_truthy_insert|done].
    by rewrite Hfold, lookup_insert_ne.
Qed.

(** The entry under ["forever"] is what the call of [pipe_forever]
    returned, the first call of the run, as long as no module has that
    id. *)
Lemma get_steps_forever (context : Context) p
    (zipped : list (string * result string * result string))
    σ steps σ' :
  _get_steps context p zipped σ = (Ok steps, σ') →
  "forever" ∉ zipped.*1.*1 →
  steps !! "forever" = Some (VStage (next_object σ))
  ∧ ∃ cs, calls σ'
          = calls σ ++ {| call_result := next_object σ;
                          call_func := pipe_forever;
                          call_args := []; call_kwargs := ∅ |} :: cs.
Proof.
  intros Hsteps Hk. split.
  - unfold _get_steps in Hsteps.
    apply sbind_Ok in Hsteps as (forever & σ1 & Hcall & Hfold).
    unfold call_function in Hcall. cbn in Hcall. injection Hcall as <- <-.
    eapply get_steps_loop_keeps in Hfold; [| |exact Hk].
    + by rewrite Hfold, lookup_singleton_eq.
    + apply (steps_truthy_lookup _ "forever" (VStage (next_object σ))).
      by rewrite lookup_singleton_eq.
  - unfold _get_steps in Hsteps.
    apply sbind_Ok in Hsteps as (forever & σ1 & Hcall & Hfold).
    unfold call_function in Hcall. cbn in Hcall. injection Hcall as <- <-.
    eapply (get_steps_loop _ _ _ (next_object σ)) in Hfold
      as (_ & _ & cs & Hcs & _); [| |cbn; lia|].
    + exists cs. rewrite Hcs. cbn [record_call calls].
      by rewrite <- app_assoc.
    + apply (steps_truthy_lookup _ "forever" (VStage (next_object σ))).
      by rewrite lookup_singleton_eq.
    + intros k v [_ <-]%lookup_singleton_Some oid [= <-]. cbn. lia.
Qed.

(** C2 (as amended).  For a module that is not embedded, in a pipe whose
    wires are well formed, and with the steps that [_get_steps] has
    assembled so far, none of them for a module with the id [forever]:
    when some wire goes from an output to the module's [_INPUT], the
    default input is what the steps hold for the source module of one such
    wire, the one the search finds (so it is the stage of the source module
    of any such wire when they all come from the same module); when there
    is none, it is the sentinel, the stage that the call of [pipe_forever]
    returned at the start of the run. *)
Theorem default_input_resolution (context : Context) (p : pipe)
    (assembled : list (string * result string * result string))
    (σ σ' : interp) (steps : gmap string pyval) (module_id : string) :
  _get_steps context p assembled σ = (Ok steps, σ') →
  "forever" ∉ assembled.*1.*1 →
  pipe_embed p !! module_id = None →
  wires_viewable (pipe_wires p) →
  ((∃ k w v, pipe_wires p !! k = Some w ∧ view_wire w = Ok v
             ∧ default_wire module_id v = true) →
   ∃ k w v, pipe_wires p !! k = Some w ∧ view_wire w = Ok v
            ∧ default_wire module_id v = true
            ∧ _get_input_module p module_id (Some steps)
              = dict_get steps (wv_src v))
  ∧ (∀ k w v stage,
       pipe_wires p !! k = Some w → view_wire w = Ok v →
       default_wire module_id v = true →
       (∀ k' w' v', pipe_wires p !! k' = Some w' → view_wire w' = Ok v' →
                    default_wire module_id v' = true → wv_src v' = wv_src v) →
       steps !! wv_src v = Some stage →
       _get_input_module p module_id (Some steps) = Ok stage)
  ∧ ((∀ k w v, pipe_wires p !! k = Some w → view_wire w = Ok v →
               default_wire module_id v = false) →
     _get_input_module p module_id (Some steps)
     = Ok (VStage (next_object σ))
     ∧ ∃ cs, calls σ'
             = calls σ ++ {| call_result := next_object σ;
                             call_func := pipe_forever;
                             call_args := []; call_kwargs := ∅ |} :: cs).
Proof.
  intros Hsteps Hk Hemb Hwf.
  destruct (get_steps_forever _ _ _ _ _ _ Hsteps Hk) as [Hroot Hcalls].
  destruct (default_input_of_steps p module_id steps _ Hemb Hroot Hwf)
    as (Hone & Hsame & Hnone).
  split; [exact Hone|]. split; [exact Hsame|].
  intros Hno. split; [by apply Hnone|exact Hcalls].
Qed.

Lemma default_input_resolution_witness :
  (∃ k w v, pipe_wires sample_pipe !! k = Some w ∧ view_wire w = Ok v
            ∧ default_wire "sw_2" v = true
            ∧ _get_input_module sample_pipe "sw_2" (Some first_steps)
              = dict_get first_steps (wv_src v))
  ∧ _get_input_module sample_pipe "sw_2" (Some first_steps) = Ok (VStage 1)
  ∧ _get_input_module sample_pipe "sw_1"
      (Some {["forever" := VStage 0]}) = Ok (VStage 0).
Proof.
  assert (Hw : wires_viewable (pipe_wires sample_pipe))
    by (apply wires_viewable_check; vm_compute; reflexivity).
  destruct (default_input_resolution run_context sample_pipe first_assembled
              sample_interp first_interp first_steps "sw_2")
    as (Hone & Hsame & _).
  { vm_compute. reflexivity. }
  { intros Hin. apply list_elem_of_In in Hin. vm_compute in Hin.
    destruct Hin as [Hin|[] ]. discriminate Hin. }
  { vm_compute. reflexivity. }
  { exact Hw. }
  destruct (default_input_resolution run_context sample_pipe [] sample_interp
              (record_call sample_interp pipe_forever [] ∅)
              {["forever" := VStage 0]} "sw_1")
    as (_ & _ & Hnone).
  { vm_compute. reflexivity. }
  { intros Hin. inversion Hin. }
  { vm_compute. reflexivity. }
  { exact Hw. }
  split; [|split].
  - apply Hone. exists "_w1". eexists _, _.
    split; [vm_compute; reflexivity|].
    split; [vm_compute; reflexivity|]. vm_compute. reflexivity.
  - apply (Hsame "_w1" (mk_wire "_w1" "sw-1" "_OUTPUT" "sw-2" "_INPUT")
             {| wv_src := "sw_1"; wv_src_terminal := "_OUTPUT";
                wv_tgt := "sw_2"; wv_tgt_terminal := "_INPUT";
                wv_key := "_INPUT" |} (VStage 1)).
    + vm_compute. reflexivity.
    + vm_compute. reflexivity.
    + vm_compute. reflexivity.
    + intros k' w' v' Hk' Hv' Hd'.
      pose proof (forall_wires_check (pipe_wires sample_pipe)
        (λ v, negb (default_wire "sw_2" v) || String.eqb (wv_src v) "sw_1")
        ltac:(vm_compute; reflexivity) k' w' v' Hk' Hv') as H.
      cbn beta in H. rewrite Hd' in H. by apply String.eqb_eq in H.
    + vm_compute. reflexivity.
  - refine (proj1 (Hnone _)). intros k w v Hk Hv.
    pose proof (forall_wires_check (pipe_wires sample_pipe)
      (λ v, negb (default_wire "sw_1" v))
      ltac:(vm_compute; reflexivity) k w v Hk Hv) as H.
    cbn beta in H. by apply negb_true_iff in H.
Defined.

End DefaultInput.

